(** * Job orchestration and progressive state monitoring

    A shallow embedding of [server/services/zkToolExecutor.ts] (the class
    [ZKToolExecutor]) and of the class [AsyncJobManager] of
    [server/integrated-server.ts], with the properties of the
    job life cycle, the tool dispatcher, the console-output state extractor
    and the WebSocket broadcast.

    JavaScript objects that the code mutates in place (a [Job]) live in a
    heap and are passed around by reference; an [async] function is run the
    way the language runs it, synchronously up to its first [await], the
    rest being a later turn of the event loop. *)

From Stdlib Require Import String Ascii ZArith List Bool Lia.
From stdpp Require Import base option list strings gmap pretty.

Local Open Scope string_scope.
Local Open Scope Z_scope.
Local Open Scope list_scope.

(** ** Strings as the code uses them *)

Module Js.

(** [a.join(sep)] on an array of strings. *)
Fixpoint join (sep : string) (xs : list string) : string :=
  match xs with
  | [] => ""
  | [x] => x
  | x :: rest => x +:+ sep +:+ join sep rest
  end.

(** [s.includes(needle)]: [needle] occurs at some position of [s]. *)
Fixpoint includes (needle s : string) : bool :=
  String.prefix needle s ||
  match s with
  | EmptyString => false
  | String _ rest => includes needle rest
  end.

(** The class [\d] of a regular expression without the [u] flag. *)
Definition is_digit (c : ascii) : bool :=
  let n := nat_of_ascii c in (Nat.leb 48 n && Nat.leb n 57)%bool.

(** The greedy run [\d*] at the start of [s]. *)
Fixpoint take_digits (s : string) : string :=
  match s with
  | String c rest => if is_digit c then String c (take_digits rest) else ""
  | EmptyString => ""
  end.

Fixpoint drop (n : nat) (s : string) : string :=
  match n, s with
  | O, _ => s
  | S n', String _ rest => drop n' rest
  | S _, EmptyString => ""
  end.

(** An attempt of [/label(\d+)/] anchored at the start of [s]. *)
Definition match_here (label s : string) : option string :=
  if String.prefix label s then
    match take_digits (drop (String.length label) s) with
    | EmptyString => None
    | digits => Some digits
    end
  else None.

(** [s.match(/label(\d+)/)]: the leftmost match, of which the code reads
    only the capture group [match[1]]; [None] stands for [null]. *)
Fixpoint match_digits (label s : string) : option string :=
  match match_here label s with
  | Some d => Some d
  | None =>
      match s with
      | EmptyString => None
      | String _ rest => match_digits label rest
      end
  end.

(** A plain object literal with string values, built by property
    assignment: the keys keep their insertion order, an assignment to a key
    that is there overwrites it in place. *)
Definition Obj := list (string * string).

Fixpoint obj_set (k v : string) (o : Obj) : Obj :=
  match o with
  | [] => [(k, v)]
  | (k', v') :: rest =>
      if String.eqb k k' then (k, v) :: rest else (k', v') :: obj_set k v rest
  end.

(** The property names every plain object inherits from
    [Object.prototype]; [o[name]] is a truthy value (a function, or the
    prototype itself) for each of them, also when [o] has no such key of
    its own. *)
Definition object_prototype_names : list string :=
  [ "constructor"; "__defineGetter__"; "__defineSetter__"; "hasOwnProperty";
    "__lookupGetter__"; "__lookupSetter__"; "isPrototypeOf";
    "propertyIsEnumerable"; "toString"; "valueOf"; "__proto__";
    "toLocaleString" ].

(** What a [throw] carries: an [Error] object with its message, or any
    other value (shown here by its [String(...)] rendering). *)
Inductive Thrown :=
| ErrorObj (message : string)
| NonError (rendering : string).

(** [error instanceof Error ? error.message : fallback]. *)
Definition message_or (fallback : string) (e : Thrown) : string :=
  match e with
  | ErrorObj m => m
  | NonError _ => fallback
  end.

(** [error instanceof Error ? error.message : String(error)]. *)
Definition message_or_String (e : Thrown) : string :=
  match e with
  | ErrorObj m => m
  | NonError r => r
  end.

(** A number as [parseInt] returns it: an integer of at most 2^53 in size,
    which is where [parseInt] is exact and where the language prints every
    digit, or another number ([NaN], or an integer that is larger), of
    which only the text that the language prints for it is kept. *)
Inductive Number :=
| SafeInt (n : Z)
| OtherNumber (text : string).

(** [`${n}`]. *)
Definition number_text (n : Number) : string :=
  match n with
  | SafeInt n => pretty n
  | OtherNumber text => text
  end.

(** The largest delay of a timer of Node, [2 ** 31 - 1]. *)
Definition TIMEOUT_MAX : Z := 2147483647.

(** The delay that [setTimeout] of Node makes of its second argument: a
    delay that is not a number from 1 to [TIMEOUT_MAX] is set to 1
    millisecond. *)
Definition timer_delay (delay : Number) : Z :=
  match delay with
  | SafeInt n => if ((1 <=? n) && (n <=? TIMEOUT_MAX))%bool then n else 1
  | OtherNumber _ => 1
  end.

(** The fate of a promise: fulfilled with a value, rejected with what was
    thrown, or never settled. *)
Inductive Promise (A : Type) :=
| Fulfilled (a : A)
| RejectedWith (e : Thrown)
| NeverSettles.
Arguments Fulfilled {A} a.
Arguments RejectedWith {A} e.
Arguments NeverSettles {A}.

End Js.
Import Js.

(** What a tool's direct-execution function returns: [undefined], or a
    value of which the executor reads the [success] field, by its
    truthiness, and which it passes on as it is. [JSON.stringify] takes the
    value unless it holds a BigInt or a cycle: [cv_json_error] is then the
    message of the TypeError that serialising it throws. *)
Record CapValue := {
  cv_success : bool;
  cv_data : string;
  cv_json_error : option string
}.

(** ** The state extractor of [executeDirectly]

    [executeDirectly] replaces [console.log] by a closure over the local
    variables [capturedBeforeState], [capturedAfterState], [currentPhase],
    [stdout]; every line a tool prints passes through it. The closure is
    taken here with the lines of its own invocation; what two invocations
    in flight at once do to each other's [console.log] is not described. *)

Module Extractor.

Inductive Phase :=
| before_state_process
| before_state_capturing
| verification_process
| after_state_capturing
| execution_completing.

Definition Phase_eqb (a b : Phase) : bool :=
  match a, b with
  | before_state_process, before_state_process
  | before_state_capturing, before_state_capturing
  | verification_process, verification_process
  | after_state_capturing, after_state_capturing
  | execution_completing, execution_completing => true
  | _, _ => false
  end.

(** The payload handed to [broadcastExecutionUpdate] ([type] and the fields
    that come with it; the fixed [message] texts are left out). *)
Inductive ExecUpdate :=
| execution_started (toolName : string)
| phase_update (phase : Phase)
| before_state_captured (data : Obj)
| after_state_captured (data : Obj)
| execution_completed (result : option CapValue)
    (contractStateBefore contractStateAfter : option Obj)
| execution_failed (error : string).

Record Capture := {
  currentPhase : Phase;
  capturedBeforeState : option Obj;
  capturedAfterState : option Obj;
  stdout : string;
  stderr : string;
  sent : list ExecUpdate        (* broadcasts made so far, oldest first *)
}.

Definition initial : Capture :=
  {| currentPhase := before_state_process;
     capturedBeforeState := None; capturedAfterState := None;
     stdout := ""; stderr := ""; sent := [] |}.

Definition marker_before : string := "📊 Smart Contract State BEFORE Verification:".
Definition marker_after : string := "📊 Smart Contract State AFTER Verification:".

Definition set_phase (p : Phase) (c : Capture) : Capture :=
  {| currentPhase := p;
     capturedBeforeState := capturedBeforeState c;
     capturedAfterState := capturedAfterState c;
     stdout := stdout c; stderr := stderr c; sent := sent c |}.

Definition set_before (o : option Obj) (c : Capture) : Capture :=
  {| currentPhase := currentPhase c;
     capturedBeforeState := o;
     capturedAfterState := capturedAfterState c;
     stdout := stdout c; stderr := stderr c; sent := sent c |}.

Definition set_after (o : option Obj) (c : Capture) : Capture :=
  {| currentPhase := currentPhase c;
     capturedBeforeState := capturedBeforeState c;
     capturedAfterState := o;
     stdout := stdout c; stderr := stderr c; sent := sent c |}.

Definition append_stdout (output : string) (c : Capture) : Capture :=
  {| currentPhase := currentPhase c;
     capturedBeforeState := capturedBeforeState c;
     capturedAfterState := capturedAfterState c;
     stdout := stdout c +:+ output +:+ String "010"%char "";
     stderr := stderr c; sent := sent c |}.

Definition append_stderr (output : string) (c : Capture) : Capture :=
  {| currentPhase := currentPhase c;
     capturedBeforeState := capturedBeforeState c;
     capturedAfterState := capturedAfterState c;
     stdout := stdout c;
     stderr := stderr c +:+ output +:+ String "010"%char "";
     sent := sent c |}.

Definition broadcast (u : ExecUpdate) (c : Capture) : Capture :=
  {| currentPhase := currentPhase c;
     capturedBeforeState := capturedBeforeState c;
     capturedAfterState := capturedAfterState c;
     stdout := stdout c; stderr := stderr c; sent := sent c ++ [u] |}.

(** [if (output.includes(marker)) { currentPhase = p; broadcast }]. *)
Definition detect (marker : string) (p : Phase) (output : string) (c : Capture) : Capture :=
  if includes marker output
  then broadcast (phase_update p) (set_phase p c)
  else c.

(** The first pattern: creates the snapshot unless there is one. *)
Definition on_total (get : Capture -> option Obj) (set : option Obj -> Capture -> Capture)
    (output : string) (c : Capture) : Capture :=
  if includes "Total Companies:" output then
    match match_digits "Total Companies: " output, get c with
    | Some m, None => set (Some [("totalCompaniesTracked", m)]) c
    | _, _ => c
    end
  else c.

(** The second pattern: recorded only into a snapshot that exists. *)
Definition on_compliant (get : Capture -> option Obj) (set : option Obj -> Capture -> Capture)
    (output : string) (c : Capture) : Capture :=
  if includes "Compliant Companies:" output then
    match match_digits "Compliant Companies: " output, get c with
    | Some m, Some o => set (Some (obj_set "compliantCompaniesCount" m o)) c
    | _, _ => c
    end
  else c.

(** The defaults that complete a snapshot. *)
Definition complete (score verifications hash : string) (o : Obj) : Obj :=
  obj_set "companiesRootHash" hash
    (obj_set "registryVersion" "1"
       (obj_set "totalVerificationsGlobal" verifications
          (obj_set "globalComplianceScore" score o))).

Definition parse_before (output : string) (c : Capture) : Capture :=
  let c := on_total capturedBeforeState set_before output c in
  let c := on_compliant capturedBeforeState set_before output c in
  if includes "Global Compliance Score:" output then
    match match_digits "Global Compliance Score: " output, capturedBeforeState c with
    | Some m, Some o =>
        let o' := complete m "0" "initial-hash" o in
        let c := set_before (Some o') c in
        let c := broadcast (before_state_captured o') c in
        let c := set_phase verification_process c in
        broadcast (phase_update verification_process) c
    | _, _ => c
    end
  else c.

Definition parse_after (output : string) (c : Capture) : Capture :=
  let c := on_total capturedAfterState set_after output c in
  let c := on_compliant capturedAfterState set_after output c in
  if includes "Global Compliance Score:" output then
    match match_digits "Global Compliance Score: " output, capturedAfterState c with
    | Some m, Some o =>
        let o' := complete m "1" "updated-hash" o in
        let c := set_after (Some o') c in
        let c := broadcast (after_state_captured o') c in
        set_phase execution_completing c
    | _, _ => c
    end
  else c.

(** The replacement of [console.log], applied to [output = args.join(' ')]. *)
Definition consoleLog (c : Capture) (output : string) : Capture :=
  let c := append_stdout output c in
  let c := detect marker_before before_state_capturing output c in
  let c := if Phase_eqb (currentPhase c) before_state_capturing
           then parse_before output c else c in
  let c := detect marker_after after_state_capturing output c in
  if Phase_eqb (currentPhase c) after_state_capturing
  then parse_after output c else c.

(** The replacement of [console.error]. *)
Definition consoleError (c : Capture) (output : string) : Capture :=
  append_stderr output c.

(** One call of the captured console. *)
Inductive LogCall :=
| Log (output : string)
| LogError (output : string).

Definition call (c : Capture) (l : LogCall) : Capture :=
  match l with
  | Log o => consoleLog c o
  | LogError o => consoleError c o
  end.

Definition feed (c : Capture) (ls : list LogCall) : Capture :=
  fold_left call ls c.

End Extractor.
Import Extractor.

(** ** Data of the executor and of the job manager *)

(** [parameters: any]: the request's parameter object, which this code only
    passes on. *)
Definition Params := list (string * string).

Inductive CapEnd :=
| CapReturns (result : option CapValue)
| CapThrows (e : Thrown)
| CapNeverReturns.

(** One invocation of a tool: the console calls it makes, in order, and how
    it ends. *)
Record CapRun := { cap_log : list LogCall; cap_end : CapEnd }.

(** A compiled script, once imported: its exported functions by name (an
    export that is not a function would only show in one console line). *)
Definition ScriptModule := list (string * (Params -> CapRun)).

Record ZKExecutorConfig := {
  stdioPath : string;
  stdioBuildPath : string;
  timeout : Number               (* [parseInt(process.env.ZK_PRET_SERVER_TIMEOUT || '1800000')] *)
}.

(** What the executor finds outside itself: its configuration, the file
    system, the module loader and Node's [path] and [url] helpers. *)
Record Env := {
  config : ZKExecutorConfig;
  path_join : string -> string -> string -> string;
  (* the TypeError of [path.join] for an argument that is not a string *)
  path_join_type_error : string -> Thrown;
  existsSync : string -> bool;
  pathToFileURL_href : string -> string;
  import : string -> Promise ScriptModule
}.

(** The [response] object of [executeDirectly] (of its constant fields and
    of [systemExecution] and [stateChanges] nothing below depends; they are
    left out). *)
Record DirectResponse := {
  verification_success : bool;              (* result?.success || false *)
  contractStateBefore : option Obj;
  contractStateAfter : option Obj;
  direct_result : option CapValue;
  direct_timestamp : Z;
  output : string;
  direct_stderr : string;
  direct_executionTime : Z                  (* the number in `${executionTime}ms` *)
}.

(** What [executeIntegratedTool] resolves to. *)
Record IntegratedResult := {
  ir_success : bool;
  ir_result : option DirectResponse;
  ir_output : option string
}.

Inductive ToolResult :=
| Response (r : DirectResponse)
| Fallback (completed : bool) (timestamp : Z) (output : string)
| Failure (error : string) (timestamp : Z).   (* status: 'failed', zkProofGenerated: false *)

Record ToolExecutionResult := {
  success : bool;
  result : ToolResult;
  executionTime : Z                         (* the number in `${executionTime}ms` *)
}.

Inductive Status := pending | running | completed | failed.

#[global] Instance Status_eq_dec : EqDecision Status.
Proof. solve_decision. Defined.

(** [job.result]: the executor's record spread into a new object, with four
    more fields ([mode] is a constant). *)
Record JobResult := {
  tool_result : ToolExecutionResult;
  executionTimeMs : Z;
  result_jobId : string;
  completedAt : Z
}.

Record Job := {
  id : string;
  toolName : string;
  parameters : Params;
  status : Status;
  startTime : Z;
  endTime : option Z;
  job_result : option JobResult;
  error : option string;
  progress : option Z
}.

(** The JSON texts sent to the WebSocket clients, by their content. *)
Inductive WireMsg :=
| job_update (jobId : string) (st : Status) (progress : option Z)
    (result : option JobResult) (error : option string) (timestamp : Z)
| execution_update (update : ExecUpdate) (timestamp : Z)
| connection (timestamp : Z).

(** [JSON.stringify(message)] throws where the message holds a value of a
    tool that cannot be serialised: the result of an [execution_completed]
    update, or the result of a Job, which holds the response of
    [executeDirectly] and in it the value the tool returned. *)
Definition value_json_error (r : option CapValue) : option string :=
  match r with
  | Some v => cv_json_error v
  | None => None
  end.

Definition update_json_error (u : ExecUpdate) : option string :=
  match u with
  | execution_completed r _ _ => value_json_error r
  | _ => None
  end.

Definition tool_json_error (r : ToolExecutionResult) : option string :=
  match result r with
  | Response d => value_json_error (direct_result d)
  | _ => None
  end.

Definition json_error (message : WireMsg) : option string :=
  match message with
  | job_update _ _ _ (Some r) _ _ => tool_json_error (tool_result r)
  | job_update _ _ _ None _ _ => None
  | execution_update u _ => update_json_error u
  | connection _ => None
  end.

(** The same for the [job_update] of a Job object. *)
Definition job_json_error (j : Job) : option string :=
  match job_result j with
  | Some r => tool_json_error (tool_result r)
  | None => None
  end.

(** A WebSocket of [wss.clients]: its [readyState] (1 is OPEN) and what has
    been handed to it for sending. *)
Record Client := { readyState : nat; inbox : list WireMsg }.

(** Where an invocation of [executeTool] is suspended once its synchronous
    part has run. *)
Inductive Awaiting :=
| AwaitRejected (e : Thrown)
    (* [executeIntegratedTool] has thrown: its promise is rejected already *)
| AwaitImport (scriptPath : string) (tool : string) (params : Params)
    (capture : Capture) (timer : nat).
    (* [executeDirectly] waits for [import(fileUrl.href)], its console
       capture installed and its timer armed *)

Record Suspended := {
  tool_startTime : Z;          (* [startTime] of [executeTool] *)
  direct_startTime : Z;        (* [startTime] of [executeDirectly] *)
  awaiting : Awaiting
}.

(** A [processJob] that waits for [executeTool]. *)
Record Task := {
  task_job : nat;              (* the reference [job] *)
  task_startTime : Z;          (* [startTime] of [processJob] *)
  task_call : Suspended
}.

(** The server process. *)
Record World := {
  heap : list Job;                 (* the Job objects, by reference *)
  jobs : gmap string nat;          (* [AsyncJobManager.jobs]: id to Job reference *)
  clients : list Client;           (* [wss.clients], also [global.wsServer.clients] *)
  tasks : list Task;               (* the suspended [processJob] calls *)
  timers : list (nat * Z);         (* the armed [setTimeout]s of [executeDirectly]: handle, deadline *)
  timer_seq : nat;                 (* the next timer handle *)
  now : Z;                         (* the clock read by [Date.now()] and [new Date()] *)
  crashed : option Thrown          (* an exception nothing caught ended the process *)
}.

(** ** Statements with effects

    A piece of code changes the process state and either ends normally or
    throws; what it changed before a throw stays changed. *)

Definition M (A : Type) : Type := World -> (Thrown + A) * World.

Definition ret {A} (a : A) : M A := fun w => (inr a, w).

Definition bind {A B} (m : M A) (k : A -> M B) : M B :=
  fun w =>
    match m w with
    | (inl e, w') => (inl e, w')
    | (inr a, w') => k a w'
    end.

Definition throw {A} (e : Thrown) : M A := fun w => (inl e, w).

(** [try { m } catch (e) { h e }]. *)
Definition try_catch {A} (m : M A) (h : Thrown -> M A) : M A :=
  fun w =>
    match m w with
    | (inl e, w') => h e w'
    | (inr a, w') => (inr a, w')
    end.

Definition gets {A} (f : World -> A) : M A := fun w => (inr (f w), w).

Definition modify (f : World -> World) : M unit := fun w => (inr tt, f w).

Notation "x <- c1 ;; c2" := (bind c1 (fun x => c2))
  (at level 100, c1 at next level, right associativity).
Notation "c1 ;; c2" := (bind c1 (fun _ => c2))
  (at level 100, right associativity).

Fixpoint forM_ {A} (xs : list A) (f : A -> M unit) : M unit :=
  match xs with
  | [] => ret tt
  | x :: rest => f x ;; forM_ rest f
  end.

Definition with_heap (h : list Job) (w : World) : World :=
  {| heap := h; jobs := jobs w; clients := clients w; tasks := tasks w;
     timers := timers w; timer_seq := timer_seq w; now := now w;
     crashed := crashed w |}.

Definition with_jobs (m : gmap string nat) (w : World) : World :=
  {| heap := heap w; jobs := m; clients := clients w; tasks := tasks w;
     timers := timers w; timer_seq := timer_seq w; now := now w;
     crashed := crashed w |}.

Definition with_clients (cs : list Client) (w : World) : World :=
  {| heap := heap w; jobs := jobs w; clients := cs; tasks := tasks w;
     timers := timers w; timer_seq := timer_seq w; now := now w;
     crashed := crashed w |}.

Definition with_tasks (ts : list Task) (w : World) : World :=
  {| heap := heap w; jobs := jobs w; clients := clients w; tasks := ts;
     timers := timers w; timer_seq := timer_seq w; now := now w;
     crashed := crashed w |}.

Definition with_timers (ts : list (nat * Z)) (w : World) : World :=
  {| heap := heap w; jobs := jobs w; clients := clients w; tasks := tasks w;
     timers := ts; timer_seq := timer_seq w; now := now w;
     crashed := crashed w |}.

Definition with_timer_seq (n : nat) (w : World) : World :=
  {| heap := heap w; jobs := jobs w; clients := clients w; tasks := tasks w;
     timers := timers w; timer_seq := n; now := now w; crashed := crashed w |}.

Definition with_now (t : Z) (w : World) : World :=
  {| heap := heap w; jobs := jobs w; clients := clients w; tasks := tasks w;
     timers := timers w; timer_seq := timer_seq w; now := t;
     crashed := crashed w |}.

Definition with_crashed (e : option Thrown) (w : World) : World :=
  {| heap := heap w; jobs := jobs w; clients := clients w; tasks := tasks w;
     timers := timers w; timer_seq := timer_seq w; now := now w;
     crashed := e |}.

(** ** Broadcasting to the WebSocket clients *)

Definition OPEN : nat := 1%nat.

(** [client.send(message)] of the [ws] package: an OPEN socket takes the
    message; on a socket in any other state the call fails (by a throw or
    through its callback, depending on the state and on the version of the
    package: the throw, the worse of the two, is kept here). *)
Definition ws_send (message : WireMsg) (c : Client) : Thrown + Client :=
  if Nat.eqb (readyState c) OPEN
  then inr {| readyState := readyState c; inbox := inbox c ++ [message] |}
  else inl (ErrorObj "WebSocket is not open").

(** [clients.forEach(client => { if (client.readyState === 1) client.send(message) })]:
    a throw of the callback ends the loop. *)
Fixpoint forEach_send (message : WireMsg) (cs : list Client) : option Thrown * list Client :=
  match cs with
  | [] => (None, [])
  | c :: rest =>
      if Nat.eqb (readyState c) 1 then
        match ws_send message c with
        | inl e => (Some e, c :: rest)
        | inr c' =>
            let (r, rest') := forEach_send message rest in (r, c' :: rest')
        end
      else
        let (r, rest') := forEach_send message rest in (r, c :: rest')
  end.

Definition send_all (message : WireMsg) : M unit :=
  fun w =>
    let (r, cs) := forEach_send message (clients w) in
    (match r with Some e => inl e | None => inr tt end, with_clients cs w).

(** [JSON.stringify(message)]: the text that is sent, or the TypeError. *)
Definition JSON_stringify (message : WireMsg) : M WireMsg :=
  match json_error message with
  | Some e => throw (ErrorObj e)
  | None => ret message
  end.

(** [AsyncJobManager.broadcastJobUpdate(job)]: the message is built once,
    from the fields the Job object has at this moment; nothing catches what
    [JSON.stringify] throws. *)
Definition broadcastJobUpdate (job : nat) : M unit :=
  fun w =>
    match heap w !! job with
    | Some j =>
        (message <-
           JSON_stringify
             (job_update (id j) (status j) (progress j) (job_result j) (error j) (now w)) ;;
         send_all message) w
    | None => (inr tt, w)
    end.

(** [ZKToolExecutor.broadcastExecutionUpdate(update)]; [global.wsServer] is
    the server's [wss], set before the first request. Its [catch] block
    writes one line to the console and goes on. *)
Definition broadcastExecutionUpdate (update : ExecUpdate) : M unit :=
  try_catch
    (fun w =>
       (message <- JSON_stringify (execution_update update (now w)) ;;
        send_all message) w)
    (fun _ => ret tt).

(** ** ZKToolExecutor *)

Definition getAvailableTools : list string :=
  [ "get-GLEIF-verification-with-sign";
    "get-Corporate-Registration-verification-with-sign";
    "get-EXIM-verification-with-sign";
    "get-Composed-Compliance-verification-with-sign";
    "get-BSDI-compliance-verification";
    "get-BPI-compliance-verification";
    "get-RiskLiquidityACTUS-Verifier-Test_adv_zk";
    "get-RiskLiquidityACTUS-Verifier-Test_Basel3_Withsign";
    "get-RiskLiquidityBasel3Optim-Merkle-verification-with-sign";
    "get-RiskLiquidityAdvancedOptimMerkle-verification-with-sign";
    "get-StablecoinProofOfReservesRisk-verification-with-sign";
    "execute-composed-proof-full-kyc";
    "execute-composed-proof-financial-risk";
    "execute-composed-proof-business-integrity";
    "execute-composed-proof-comprehensive" ].

Definition toolScriptMap : Obj :=
  [ ("get-GLEIF-verification-with-sign", "GLEIFOptimMultiCompanyVerificationTestWithSign.js");
    ("get-Corporate-Registration-verification-with-sign", "CorporateRegistrationOptimMultiCompanyVerificationTestWithSign.js");
    ("get-EXIM-verification-with-sign", "EXIMOptimMultiCompanyVerificationTestWithSign.js");
    ("get-Composed-Compliance-verification-with-sign", "ComposedRecursiveOptim3LevelVerificationTestWithSign.js");
    ("get-BSDI-compliance-verification", "BusinessStdIntegrityOptimMerkleVerificationTestWithSign.js");
    ("get-BPI-compliance-verification", "BusinessProcessIntegrityOptimMerkleVerificationFileTestWithSign.js");
    ("get-RiskLiquidityACTUS-Verifier-Test_adv_zk", "RiskLiquidityAdvancedOptimMerkleVerificationTestWithSign.js");
    ("get-RiskLiquidityACTUS-Verifier-Test_Basel3_Withsign", "RiskLiquidityBasel3OptimMerkleVerificationTestWithSign.js");
    ("get-RiskLiquidityBasel3Optim-Merkle-verification-with-sign", "RiskLiquidityBasel3OptimMerkleVerificationTestWithSign.js");
    ("get-RiskLiquidityAdvancedOptimMerkle-verification-with-sign", "RiskLiquidityAdvancedOptimMerkleVerificationTestWithSign.js");
    ("get-StablecoinProofOfReservesRisk-verification-with-sign", "RiskLiquidityStableCoinOptimMerkleVerificationTestWithSign.js");
    ("execute-composed-proof-full-kyc", "ComposedRecursiveOptim3LevelVerificationTestWithSign.js");
    ("execute-composed-proof-financial-risk", "ComposedRecursiveOptim3LevelVerificationTestWithSign.js");
    ("execute-composed-proof-business-integrity", "ComposedRecursiveOptim3LevelVerificationTestWithSign.js");
    ("execute-composed-proof-comprehensive", "ComposedRecursiveOptim3LevelVerificationTestWithSign.js") ].

(** A [case] of the [switch (toolName)] of [executeDirectly]: the exported
    function it calls and, for the cases that report on the console, the
    name they print. *)
Record DirectCase := { fn_name : string; announce : option string }.

Definition direct_cases : list (string * DirectCase) :=
  [ ("get-GLEIF-verification-with-sign",
      {| fn_name := "executeGLEIFVerificationDirect"; announce := None |});
    ("get-BSDI-compliance-verification",
      {| fn_name := "executeBSDIVerificationDirect"; announce := Some "BSDI" |});
    ("get-RiskLiquidityBasel3Optim-Merkle-verification-with-sign",
      {| fn_name := "executeBasel3VerificationDirect"; announce := Some "Basel3" |});
    ("get-EXIM-verification-with-sign",
      {| fn_name := "executeEXIMVerificationDirect"; announce := None |});
    ("get-Corporate-Registration-verification-with-sign",
      {| fn_name := "executeCorporateRegistrationVerificationDirect"; announce := None |});
    ("get-BPI-compliance-verification",
      {| fn_name := "executeBPIVerificationDirect"; announce := Some "BPI" |});
    ("get-StablecoinProofOfReservesRisk-verification-with-sign",
      {| fn_name := "executeStablecoinVerificationDirect"; announce := Some "Stablecoin" |});
    ("get-RiskLiquidityAdvancedOptimMerkle-verification-with-sign",
      {| fn_name := "executeAdvancedVerificationDirect"; announce := Some "Advanced Risk" |}) ].

Fixpoint assoc {A} (k : string) (l : list (string * A)) : option A :=
  match l with
  | [] => None
  | (k', v) :: rest => if String.eqb k k' then Some v else assoc k rest
  end.

Fixpoint assoc_nat {A} (k : nat) (l : list (nat * A)) : option A :=
  match l with
  | [] => None
  | (k', v) :: rest => if Nat.eqb k k' then Some v else assoc_nat k rest
  end.

(** [o[k]] on a plain object whose own values are non-empty strings. *)
Inductive Property :=
| Own (v : string)
| Inherited          (* a member of [Object.prototype]: truthy, not a string *)
| Undefined.

Definition obj_get (o : Obj) (k : string) : Property :=
  match assoc k o with
  | Some v => Own v
  | None =>
      if existsb (String.eqb k) object_prototype_names then Inherited else Undefined
  end.

Definition unknown_tool_message (tool : string) : string :=
  "Unknown tool: " +:+ tool +:+ ". Available tools: " +:+ join ", " (map fst toolScriptMap).

Definition not_found_message (compiledScriptPath : string) : string :=
  "Compiled JavaScript file not found: " +:+ compiledScriptPath
    +:+ ". Please run 'npm run build' first.".

Definition timeout_message (ms : Number) : string :=
  "Direct execution timeout after " +:+ number_text ms +:+ "ms".

Section Executor.

Variable env : Env.

(** [setTimeout(() => { throw ... }, this.config.timeout)]: arms a timer and
    returns its handle. *)
Definition setTimeout (delay : Number) : M nat :=
  fun w =>
    let h := timer_seq w in
    (inr h,
     with_timer_seq (S h) (with_timers (timers w ++ [(h, now w + timer_delay delay)]) w)).

Definition clearTimeout (h : nat) : M unit :=
  modify (fun w =>
    with_timers (List.filter (fun t => negb (Nat.eqb (fst t) h)) (timers w)) w).

(** The broadcasts that the console closure made during a call go out. *)
Definition flush (c : Capture) : M Capture :=
  forM_ (sent c) broadcastExecutionUpdate ;;
  ret {| currentPhase := currentPhase c;
         capturedBeforeState := capturedBeforeState c;
         capturedAfterState := capturedAfterState c;
         stdout := stdout c; stderr := stderr c; sent := [] |}.

(** [executeDirectly], up to its [await import(fileUrl.href)]. *)
Definition executeDirectly_begin (scriptPath : string) (parameters : Params)
    (tool : string) : M (Z * Awaiting) :=
  startTime <- gets now ;;
  broadcastExecutionUpdate (execution_started tool) ;;
  timer <- setTimeout (timeout (config env)) ;;
  c <- flush (consoleLog initial
                ("File URL for import: " +:+ pathToFileURL_href env scriptPath)) ;;
  ret (startTime, AwaitImport scriptPath tool parameters c timer).

(** The body of the inner [try] of [executeDirectly] from the import on:
    the console capture at its end, and the value of [result], the throw,
    or no end at all. The capture is fed the lines of this invocation: it
    is what the closure of the code holds when no other invocation has put
    its own closure on [console.log] in between. The value, the throw and
    the timer do not depend on the capture. *)
Definition direct_body (scriptPath : string) (parameters : Params) (tool : string)
    (c : Capture) : Capture * Promise (option CapValue) :=
  match import env (pathToFileURL_href env scriptPath) with
  | NeverSettles => (c, NeverSettles)
  | RejectedWith e => (c, RejectedWith e)
  | Fulfilled scriptModule =>
      match assoc tool direct_cases with
      | None =>
          (c, RejectedWith (ErrorObj ("Direct execution not implemented for tool: " +:+ tool)))
      | Some dc =>
          let fn := fn_name dc in
          let keys := map fst scriptModule in
          let verbose := match announce dc with Some _ => true | None => false end in
          let c :=
            match announce dc with
            | Some name =>
                consoleLog
                  (consoleLog c ("🎯 Executing " +:+ name +:+ " verification via direct function call"))
                  ("📋 Available functions in module: " +:+ join "," keys)
            | None => c
            end in
          match assoc fn scriptModule with
          | Some f =>
              let c := if verbose
                       then consoleLog c ("✅ " +:+ fn +:+ " function found - calling now...")
                       else c in
              let run := f parameters in
              let c := feed c (cap_log run) in
              match cap_end run with
              | CapReturns r =>
                  (if verbose
                   then consoleLog c ("✅ " +:+ fn +:+ " completed successfully")
                   else c,
                   Fulfilled r)
              | CapThrows e => (c, RejectedWith e)
              | CapNeverReturns => (c, NeverSettles)
              end
          | None =>
              if verbose then
                let c := consoleError c ("❌ " +:+ fn +:+ " function not found in module") in
                let c := consoleError c ("Available functions: " +:+ join "," keys) in
                (c, RejectedWith
                      (ErrorObj (fn +:+ " function not found in module. Available functions: "
                                    +:+ join ", " keys)))
              else
                (c, RejectedWith (ErrorObj (fn +:+ " function not found in module")))
          end
      end
  end.

(** [executeDirectly] from the import on, once the awaited calls have
    settled: [c1] is the console capture at that point, [ended] the value
    of [result] or what was thrown. *)
Definition executeDirectly_resume (startTime : Z) (c1 : Capture) (timer : nat)
    (ended : Thrown + option CapValue) : M IntegratedResult :=
  c2 <- flush c1 ;;
  try_catch
    (match ended with
     | inr r =>
         clearTimeout timer ;;
         broadcastExecutionUpdate
           (execution_completed r (capturedBeforeState c2) (capturedAfterState c2)) ;;
         t <- gets now ;;
         ret {| ir_success := true;
                ir_result := Some
                  {| verification_success :=
                       match r with Some v => cv_success v | None => false end;
                     contractStateBefore := capturedBeforeState c2;
                     contractStateAfter := capturedAfterState c2;
                     direct_result := r;
                     direct_timestamp := t;
                     output := stdout c2;
                     direct_stderr := stderr c2;
                     direct_executionTime := t - startTime |};
                ir_output := None |}
     | inl e => throw e
     end)
    (fun e =>
       broadcastExecutionUpdate (execution_failed (message_or_String e)) ;;
       throw e).

(** [executeCompiledScript], up to the first [await] it reaches. *)
Definition executeCompiledScript_begin (scriptFile : string) (parameters : Params)
    (tool : string) : M (Z * Awaiting) :=
  let compiledScriptPath :=
    path_join env (stdioPath (config env)) (stdioBuildPath (config env)) scriptFile in
  if existsSync env compiledScriptPath
  then executeDirectly_begin compiledScriptPath parameters tool
  else throw (ErrorObj (not_found_message compiledScriptPath)).

(** [executeIntegratedTool], up to the first [await] it reaches. *)
Definition executeIntegratedTool_begin (tool : string) (parameters : Params)
    : M (Z * Awaiting) :=
  match obj_get toolScriptMap tool with
  | Undefined => throw (ErrorObj (unknown_tool_message tool))
  | Inherited => throw (path_join_type_error env tool)
  | Own scriptFile => executeCompiledScript_begin scriptFile parameters tool
  end.

(** [executeTool], up to its [await]: a throw of the [async] function it
    calls is the rejection of the promise it then waits for. *)
Definition executeTool_begin (tool : string) (parameters : Params) : M Suspended :=
  startTime <- gets now ;;
  a <- try_catch (executeIntegratedTool_begin tool parameters)
         (fun e => ret (startTime, AwaitRejected e)) ;;
  ret {| tool_startTime := startTime; direct_startTime := fst a; awaiting := snd a |}.

(** What [executeTool] waits for, once it is settled: the rest of
    [executeIntegratedTool], which ends in its value or in the throw that
    rejects its promise. [None]: the promise is never settled. *)
Definition awaited (s : Suspended) : option (M IntegratedResult) :=
  match awaiting s with
  | AwaitRejected e => Some (throw e)
  | AwaitImport scriptPath tool parameters c timer =>
      let (c1, ended) := direct_body scriptPath parameters tool c in
      match ended with
      | Fulfilled r => Some (executeDirectly_resume (direct_startTime s) c1 timer (inr r))
      | RejectedWith e => Some (executeDirectly_resume (direct_startTime s) c1 timer (inl e))
      | NeverSettles => None
      end
  end.

(** [executeTool] from its [await] on. *)
Definition executeTool_resume (s : Suspended) : option (M ToolExecutionResult) :=
  match awaited s with
  | None => None
  | Some rest =>
      Some
        (try_catch
           (r <- rest ;;
            t <- gets now ;;
            ret {| success := ir_success r;
                   result := match ir_result r with
                             | Some d => Response d
                             | None => Fallback (ir_success r) t (default "" (ir_output r))
                             end;
                   executionTime := t - tool_startTime s |})
           (fun e =>
              t <- gets now ;;
              ret {| success := false;
                     result := Failure (message_or "Unknown error" e) t;
                     executionTime := t - tool_startTime s |}))
  end.

End Executor.

(** ** AsyncJobManager *)

Definition set_status (s : Status) (j : Job) : Job :=
  {| id := id j; toolName := toolName j; parameters := parameters j; status := s;
     startTime := startTime j; endTime := endTime j; job_result := job_result j;
     error := error j; progress := progress j |}.

Definition set_progress (p : Z) (j : Job) : Job :=
  {| id := id j; toolName := toolName j; parameters := parameters j; status := status j;
     startTime := startTime j; endTime := endTime j; job_result := job_result j;
     error := error j; progress := Some p |}.

Definition set_endTime (t : Z) (j : Job) : Job :=
  {| id := id j; toolName := toolName j; parameters := parameters j; status := status j;
     startTime := startTime j; endTime := Some t; job_result := job_result j;
     error := error j; progress := progress j |}.

Definition set_result (r : JobResult) (j : Job) : Job :=
  {| id := id j; toolName := toolName j; parameters := parameters j; status := status j;
     startTime := startTime j; endTime := endTime j; job_result := Some r;
     error := error j; progress := progress j |}.

Definition set_error (e : string) (j : Job) : Job :=
  {| id := id j; toolName := toolName j; parameters := parameters j; status := status j;
     startTime := startTime j; endTime := endTime j; job_result := job_result j;
     error := Some e; progress := progress j |}.

(** An assignment to fields of the Job object behind a reference. *)
Definition update_job (job : nat) (f : Job -> Job) : M unit :=
  modify (fun w => with_heap (alter f job (heap w)) w).

Definition is_terminal (s : Status) : bool :=
  match s with
  | completed | failed => true
  | pending | running => false
  end.

(** A rejected promise that nothing handles ends the process. *)
Definition unhandledRejection (e : Thrown) : M unit :=
  modify (with_crashed (Some e)).

Section JobManager.

Variable env : Env.

(** The [catch] block of [processJob]. *)
Definition processJob_catch (job : nat) (e : Thrown) : M unit :=
  update_job job (set_status failed) ;;
  update_job job (set_error (message_or "Unknown error" e)) ;;
  t <- gets now ;;
  update_job job (set_endTime t).

(** [processJob(job)] up to [await zkToolExecutor.executeTool(...)]: this
    much runs inside the [startJob] that calls it. *)
Definition processJob_begin (job : nat) : M unit :=
  suspended <-
    try_catch
      (update_job job (set_status running) ;;
       update_job job (set_progress 0) ;;
       broadcastJobUpdate job ;;
       update_job job (set_progress 10) ;;
       broadcastJobUpdate job ;;
       startTime <- gets now ;;
       j <- gets (fun w => heap w !! job) ;;
       match j with
       | Some j =>
           call <- executeTool_begin env (toolName j) (parameters j) ;;
           modify (fun w =>
             with_tasks (tasks w ++ [ {| task_job := job; task_startTime := startTime;
                                         task_call := call |} ]) w) ;;
           ret true
       | None => ret true
       end)
      (fun e => processJob_catch job e ;; ret false) ;;
  if (suspended : bool) then ret tt else broadcastJobUpdate job.

(** [processJob(job)] from the [await] on; [rest] is the part of
    [executeTool] that still has to run. *)
Definition processJob_resume (t : Task) (rest : M ToolExecutionResult) : M unit :=
  let job := task_job t in
  try_catch
    (result <- rest ;;
     t1 <- gets now ;;
     let executionTime := t1 - task_startTime t in
     update_job job (set_status completed) ;;
     update_job job (fun j =>
       set_result {| tool_result := result; executionTimeMs := executionTime;
                     result_jobId := id j; completedAt := t1 |} j) ;;
     update_job job (set_endTime t1) ;;
     update_job job (set_progress 100))
    (processJob_catch job) ;;
  broadcastJobUpdate job.

(** [startJob], lines 46 to 55: the Job object, its entry in the registry
    and the first broadcast. *)
Definition createJob (jobId tool : string) (params : Params) : M nat :=
  t <- gets now ;;
  job <- (fun w =>
            (inr (length (heap w)),
             with_heap (heap w ++ [ {| id := jobId; toolName := tool; parameters := params;
                                       status := pending; startTime := t; endTime := None;
                                       job_result := None; error := None;
                                       progress := None |} ]) w)) ;;
  modify (fun w => with_jobs (<[jobId := job]> (jobs w)) w) ;;
  broadcastJobUpdate job ;;
  ret job.

(** [startJob(jobId, toolName, parameters)]: [processJob] is called and not
    awaited; the reference returned is the one [processJob] works on. *)
Definition startJob (jobId tool : string) (params : Params) : M nat :=
  job <- createJob jobId tool params ;;
  try_catch (processJob_begin job) unhandledRejection ;;
  ret job.

Definition getJob (w : World) (jobId : string) : option nat := jobs w !! jobId.

(** [getAllJobs()]: the references of the registry (their order is left
    open). *)
Definition getAllJobs (w : World) : list nat := (map_to_list (jobs w)).*2.

Definition status_of (w : World) (job : nat) : option Status := status <$> heap w !! job.

Definition getActiveJobs (w : World) : list nat :=
  filter (fun job => status_of w job = Some pending \/ status_of w job = Some running)
    (getAllJobs w).

Definition clearCompletedJobs (w : World) : World :=
  with_jobs
    (filter (fun entry : string * nat =>
               status_of w entry.2 <> Some completed /\ status_of w entry.2 <> Some failed)
       (jobs w)) w.

(** ** The process, one turn of the event loop at a time

    The turns are those of the asynchronous job route, of the timers and of
    the WebSocket clients (the synchronous routes, which call [executeTool]
    without a Job, are not among them); a turn that resumes a [processJob]
    runs the rest of its [executeTool] with it, the console lines of the
    tool included. *)

Inductive Event :=
| StartJob (jobId tool : string) (params : Params)   (* a request to start a job *)
| Resume (job : nat)              (* what the [processJob] of [job] awaits has settled *)
| TimerFires (timer : nat)        (* the callback of an armed timer runs *)
| ClearCompletedJobs
| Tick (ms : Z)                   (* time passes *)
| Connect                         (* a WebSocket client connects *)
| SetReadyState (client : nat) (state : nat).

Definition find_task (job : nat) (ts : list Task) : option Task :=
  List.find (fun t => Nat.eqb (task_job t) job) ts.

Definition remove_task (job : nat) (ts : list Task) : list Task :=
  List.filter (fun t => negb (Nat.eqb (task_job t) job)) ts.

(** The end of a turn that nobody awaits: a throw ends the process. *)
Definition finish (r : (Thrown + unit) * World) : World :=
  match r with
  | (inl e, w) => with_crashed (Some e) w
  | (inr _, w) => w
  end.

(** The states the process passes through in one turn, the last being the
    state the turn ends in; [None] when the turn cannot take place. *)
Definition turn (w : World) (ev : Event) : option (list World) :=
  match crashed w with
  | Some _ => None
  | None =>
      match ev with
      | StartJob jobId tool params =>
          match createJob jobId tool params w with
          | (inr job, w1) =>
              Some [w1; snd (try_catch (processJob_begin job) unhandledRejection w1)]
          | (inl _, w1) => Some [w1]       (* the request handler answers with the error *)
          end
      | Resume job =>
          match find_task job (tasks w) with
          | None => None
          | Some t =>
              match executeTool_resume env (task_call t) with
              | None => None
              | Some rest =>
                  Some [finish (processJob_resume t rest
                                  (with_tasks (remove_task job (tasks w)) w))]
              end
          end
      | TimerFires timer =>
          match assoc_nat timer (timers w) with
          | Some deadline =>
              if deadline <=? now w then
                Some [with_crashed (Some (ErrorObj (timeout_message (timeout (config env)))))
                        (with_timers
                           (List.filter (fun t => negb (Nat.eqb (fst t) timer)) (timers w)) w)]
              else None
          | None => None
          end
      | ClearCompletedJobs => Some [clearCompletedJobs w]
      | Tick ms => if 0 <=? ms then Some [with_now (now w + ms) w] else None
      | Connect =>
          Some [with_clients
                  (clients w ++ [ {| readyState := OPEN; inbox := [connection (now w)] |} ]) w]
      | SetReadyState client state =>
          Some [with_clients
                  (alter (fun c => {| readyState := state; inbox := inbox c |}) client
                     (clients w)) w]
      end
  end.

Definition step (w : World) (ev : Event) : option World :=
  match turn w ev with
  | Some ws => Some (List.last ws w)
  | None => None
  end.

(** The states passed through while a list of events is handled. *)
Fixpoint exec (w : World) (evs : list Event) : option (list World) :=
  match evs with
  | [] => Some []
  | ev :: rest =>
      match turn w ev with
      | None => None
      | Some ws =>
          match exec (List.last ws w) rest with
          | None => None
          | Some ws' => Some (ws ++ ws')%list
          end
      end
  end.

End JobManager.

Definition initial_world (t : Z) : World :=
  {| heap := []; jobs := ∅; clients := []; tasks := []; timers := [];
     timer_seq := 0; now := t; crashed := None |}.

Inductive reachable (env : Env) : World -> Prop :=
| reachable_initial t : reachable env (initial_world t)
| reachable_step w ev w' :
    reachable env w -> step env w ev = Some w' -> reachable env w'.

(** ** Definitions used to state the properties *)

(** What [client.send(message)] behind the guard [readyState === 1] comes
    to for one client. *)
Definition deliver (message : WireMsg) (c : Client) : Client :=
  if Nat.eqb (readyState c) OPEN
  then {| readyState := readyState c; inbox := inbox c ++ [message] |}
  else c.

Definition deliver_all (messages : list WireMsg) (c : Client) : Client :=
  fold_left (fun c m => deliver m c) messages c.

Definition is_open (c : Client) : bool := Nat.eqb (readyState c) OPEN.

(** The messages handed to all the clients together. *)
Definition deliveries (cs : list Client) : nat :=
  list_sum (map (fun c => length (inbox c)) cs).

(** The statuses that a list of messages announces in its [job_update]s. *)
Definition job_statuses (ms : list WireMsg) : list Status :=
  omap (fun m => match m with job_update _ s _ _ _ _ => Some s | _ => None end) ms.

(** The values a variable takes, one after the other, given what it holds
    at a list of moments and what it held before. *)
Fixpoint changes {A} `{EqDecision A} (prev : option A) (seen : list (option A)) : list A :=
  match seen with
  | [] => []
  | None :: rest => changes prev rest
  | Some a :: rest =>
      if decide (prev = Some a) then changes prev rest
      else a :: changes (Some a) rest
  end.

(** The status values the Job behind [job] takes in a run of the process. *)
Definition status_history (job : nat) (ws : list World) : list Status :=
  changes None (map (fun w => status_of w job) ws).

(** A concrete environment: a build directory in which every compiled
    script is present or absent, and one module behind every import. *)
Definition demo_config : ZKExecutorConfig :=
  {| stdioPath := "/app"; stdioBuildPath := "./build/src/tests/with-sign";
     timeout := SafeInt 1800000 |}.

Definition demo_env (m : Promise ScriptModule) (present : bool) : Env :=
  {| config := demo_config;
     path_join := fun a b c => a +:+ "/build/src/tests/with-sign/" +:+ c;
     path_join_type_error := fun _ =>
       ErrorObj "The path argument must be of type string";
     existsSync := fun _ => present;
     pathToFileURL_href := fun p => "file://" +:+ p;
     import := fun _ => m |}.

Definition gleif : string := "get-GLEIF-verification-with-sign".

(** A GLEIF module whose function ends as given, after one console line. *)
Definition gleif_module (e : CapEnd) : Promise ScriptModule :=
  Fulfilled [ ("executeGLEIFVerificationDirect",
               fun _ => {| cap_log := [Log "GLEIF verification"]; cap_end := e |}) ].

(** A run of the process in which the GLEIF function returns: a client
    connects, a job is started, and its [processJob] resumes. *)
Definition demo_returns : Env := demo_env (gleif_module (CapReturns None)) true.

Definition demo_connected : World :=
  default (initial_world 1000) (step demo_returns (initial_world 1000) Connect).

Definition demo_started : World :=
  default demo_connected (step demo_returns demo_connected (StartJob "j1" gleif [])).

Definition demo_resumed : World :=
  default demo_started (step demo_returns demo_started (Resume 0)).

Definition open_client : Client := {| readyState := OPEN; inbox := [] |}.
Definition closed_client : Client := {| readyState := 3; inbox := [] |}.

(** The stream of the extraction example, and the same without its
    first-pattern line. *)
Definition example_stream : list LogCall :=
  [ Log marker_before; Log "Total Companies: 7"; Log "Compliant Companies: 5";
    Log "Global Compliance Score: 80" ].

Definition example_stream_without_total : list LogCall :=
  [ Log marker_before; Log "Compliant Companies: 5"; Log "Global Compliance Score: 80" ].

(** What running code of the executor leaves of the process: it hands
    execution updates, stamped with the current time, to the clients and
    arms or clears timers, and touches nothing else. *)
Definition executor_frame (w w' : World) (us : list ExecUpdate) : Prop :=
  heap w' = heap w /\ jobs w' = jobs w /\ tasks w' = tasks w /\
  now w' = now w /\ crashed w' = crashed w /\
  clients w' = map (deliver_all (map (fun u => execution_update u (now w)) us)) (clients w).

Definition framed {A} (m : M A) : Prop :=
  forall w, exists us, executor_frame w (snd (m w)) us.

(** Code that ends normally in every state. *)
Definition total {A} (m : M A) : Prop :=
  forall w, exists a, fst (m w) = inr a.

(** The throw that rejects the promise [executeTool] waits for, if it is
    rejected. *)
Definition rejection (env : Env) (s : Suspended) : option Thrown :=
  match awaiting s with
  | AwaitRejected e => Some e
  | AwaitImport scriptPath tool parameters c _ =>
      match snd (direct_body env scriptPath parameters tool c) with
      | RejectedWith e => Some e
      | _ => None
      end
  end.

(** The record [executeTool] returns from its [catch] block at time [t],
    for a call that began at [t0]. *)
Definition failure_record (e : Thrown) (t0 t : Z) : ToolExecutionResult :=
  {| success := false;
     result := Failure (message_or "Unknown error" e) t;
     executionTime := t - t0 |}.

(** The path [executeCompiledScript] looks for. *)
Definition compiledScriptPath (env : Env) (scriptFile : string) : string :=
  path_join env (stdioPath (config env)) (stdioBuildPath (config env)) scriptFile.

(** The Job object as [startJob] creates it. *)
Definition new_job (jobId tool : string) (params : Params) (t : Z) : Job :=
  {| id := jobId; toolName := tool; parameters := params; status := pending;
     startTime := t; endTime := None; job_result := None; error := None;
     progress := None |}.

(** The assignments of [processJob] before its [await], taken together. *)
Definition started (j : Job) : Job :=
  set_progress 10 (set_progress 0 (set_status running j)).

(** The assignments of the [try] block of [processJob] after its [await]. *)
Definition finished (r : ToolExecutionResult) (t0 t1 : Z) (j : Job) : Job :=
  set_progress 100
    (set_endTime t1
       (set_result {| tool_result := r; executionTimeMs := t1 - t0;
                      result_jobId := id j; completedAt := t1 |}
          (set_status completed j))).

(** The assignments of the [catch] block of [processJob]. *)
Definition caught (e : Thrown) (t1 : Z) (j : Job) : Job :=
  set_endTime t1 (set_error (message_or "Unknown error" e) (set_status failed j)).

(** The [job_update] message for a Job object at time [t]. *)
Definition job_update_of (j : Job) (t : Z) : WireMsg :=
  job_update (id j) (status j) (progress j) (job_result j) (error j) t.

(** What holds of the Job objects and of the suspended [processJob] calls
    between two turns: a Job is running, with a [processJob] still to
    resume and no [endTime], or it is completed or failed with its
    [endTime]; and a suspended [processJob] belongs to a running Job. *)
Definition lifecycle_ok (w : World) : Prop :=
  (forall job j, heap w !! job = Some j ->
      (status j = running /\ endTime j = None) \/
      (is_terminal (status j) = true /\ is_Some (endTime j))) /\
  (forall t, In t (tasks w) ->
      exists j, heap w !! task_job t = Some j /\ status j = running).

(** The registry holds references to Job objects that exist, each under
    one id only. *)
Definition registry_ok (w : World) : Prop :=
  (forall k r, jobs w !! k = Some r -> (r < length (heap w))%nat) /\
  (forall k1 k2 r, jobs w !! k1 = Some r -> jobs w !! k2 = Some r -> k1 = k2).

(** ** The clock and the timers *)

(** The clock and the timers are the same in two states. *)
Definition same_clock (w w' : World) : Prop :=
  now w' = now w /\ timers w' = timers w /\ timer_seq w' = timer_seq w.

(** Code that neither moves the clock nor arms or clears a timer. *)
Definition quiet {A} (m : M A) : Prop := forall w, same_clock w (snd (m w)).

(** [executeTool] gets as far as [executeDirectly], which arms its timer:
    the tool has a script of its own in the map, and the compiled file is
    there. *)
Definition arms (env : Env) (tool : string) : bool :=
  match obj_get toolScriptMap tool with
  | Own scriptFile => existsSync env (compiledScriptPath env scriptFile)
  | _ => false
  end.

(** The armed timers without the one of handle [h]. *)
Definition without_timer (h : nat) (ts : list (nat * Z)) : list (nat * Z) :=
  List.filter (fun t => negb (Nat.eqb (fst t) h)) ts.

(** Every armed timer has a handle that [setTimeout] has given out. *)
Definition timers_ok (w : World) : Prop :=
  forall h d, In (h, d) (timers w) -> (h < timer_seq w)%nat.

(** ** The Job objects between two turns *)

(** The fields of a Job object agree with its status: a running Job has
    the progress 10 and neither result, error nor [endTime]; a completed
    one has the progress 100, no error, and a result that carries its id,
    with times that lie between its start and its end. *)
Definition job_coherent (j : Job) : Prop :=
  match status j with
  | running =>
      progress j = Some 10 /\ job_result j = None /\ error j = None /\ endTime j = None
  | completed =>
      progress j = Some 100 /\ error j = None /\
      exists r t,
        job_result j = Some r /\ endTime j = Some t /\
        result_jobId r = id j /\
        0 <= executionTimeMs r <= t - startTime j /\
        startTime j <= completedAt r <= t
  | pending | failed => False
  end.

(** What holds of the Job objects, the suspended [processJob] calls and
    the registry between two turns. *)
Definition jobs_ok (w : World) : Prop :=
  (forall job j, heap w !! job = Some j ->
      job_coherent j /\ startTime j <= now w /\
      (forall t, endTime j = Some t -> t <= now w) /\
      (status j = running -> exists t, In t (tasks w) /\ task_job t = job)) /\
  (forall t, In t (tasks w) ->
      exists j, heap w !! task_job t = Some j /\ status j = running /\
                startTime j <= task_startTime t <= now w) /\
  NoDup (map task_job (tasks w)) /\
  (forall k ref, jobs w !! k = Some ref -> exists j, heap w !! ref = Some j /\ id j = k).

(** The run of [demo_resumed], continued: the finished job is cleared from
    the registry. *)
Definition demo_cleared : World :=
  default demo_resumed (step demo_returns demo_resumed ClearCompletedJobs).

(** ** The record of a direct execution *)

(** The [response] object of [executeDirectly] for a function that has
    returned [value], with the console capture [c], at time [t] of a call
    that began at [t0]. *)
Definition direct_response (value : option CapValue) (c : Capture) (t0 t : Z)
    : DirectResponse :=
  {| verification_success := match value with Some v => cv_success v | None => false end;
     contractStateBefore := capturedBeforeState c;
     contractStateAfter := capturedAfterState c;
     direct_result := value;
     direct_timestamp := t;
     output := stdout c;
     direct_stderr := stderr c;
     direct_executionTime := t - t0 |}.

(** The tools of the catalog for which [executeDirectly] has no case. *)
Definition tools_without_direct_case : list string :=
  List.filter (fun tool => match assoc tool direct_cases with Some _ => false | None => true end)
    getAvailableTools.

(** An environment in which the GLEIF function returns a verdict that is
    not a success, and one in which it throws. *)
Definition demo_refuted : Env :=
  demo_env (gleif_module (CapReturns (Some {| cv_success := false; cv_data := "refuted";
                                      cv_json_error := None |})))
    true.

(** An environment in which the GLEIF function returns a value that holds
    a BigInt, and the run of [demo_resumed] in it. *)
Definition demo_unserialisable : Env :=
  demo_env
    (gleif_module
       (CapReturns (Some {| cv_success := true; cv_data := "proof";
                            cv_json_error :=
                              Some "Do not know how to serialize a BigInt" |})))
    true.

Definition demo_unserialisable_resumed : World :=
  default demo_started (step demo_unserialisable demo_started (Resume 0)).

Definition demo_throws : Env :=
  demo_env (gleif_module (CapThrows (ErrorObj "boom"))) true.

(** ** ZKToolExecutor.healthCheck and the health route *)

(** The [status] object of [healthCheck] ([mode] is a constant). *)
Record HealthStatus := {
  health_path : string;
  health_buildPath : string;
  compiledFilesFound : nat;
  totalCompiledFiles : nat
}.

Record Health := { connected : bool; health_status : option HealthStatus }.

(** The compiled scripts that [healthCheck] looks for. *)
Definition compiledFiles : list string :=
  [ "GLEIFOptimMultiCompanyVerificationTestWithSign.js";
    "CorporateRegistrationOptimMultiCompanyVerificationTestWithSign.js";
    "EXIMOptimMultiCompanyVerificationTestWithSign.js" ].

Section HealthCheck.

Variable env : Env.

(** [path.join] with two arguments, for [buildPath]. *)
Variable path_join2 : string -> string -> string.

(** [healthCheck()]: [fs.existsSync] and [path.join] on strings do not
    throw, so its [catch] block is not entered. *)
Definition healthCheck : Health :=
  if negb (existsSync env (stdioPath (config env))) then
    {| connected := false; health_status := None |}
  else
    let buildPath := path_join2 (stdioPath (config env)) (stdioBuildPath (config env)) in
    let foundCompiledFiles :=
      fold_left
        (fun found file =>
           let filePath :=
             path_join env (stdioPath (config env)) (stdioBuildPath (config env)) file in
           if existsSync env filePath then S found else found)
        compiledFiles 0%nat in
    {| connected := Nat.ltb 0 foundCompiledFiles;
       health_status :=
         Some {| health_path := stdioPath (config env);
                 health_buildPath := buildPath;
                 compiledFilesFound := foundCompiledFiles;
                 totalCompiledFiles := length compiledFiles |} |}.

(** The answer of [GET /api/v1/health] (the constant fields are left out,
    and so are the two that count the sockets of the WebSocket server, whose
    set of sockets is not described here once one has closed). *)
Record HealthReport := {
  report_healthy : bool;                 (* status: 'healthy', else 'degraded' *)
  report_zkExecutor : bool;
  report_asyncJobs : bool;
  report_stdioPath : option string;
  report_activeJobs : nat;
  report_executorStatus : option HealthStatus;
  report_timestamp : Z
}.

Definition health_route (ENABLE_ASYNC_JOBS : option string) (w : World) : HealthReport :=
  let executorHealth := healthCheck in
  {| report_healthy := connected executorHealth;
     report_zkExecutor := connected executorHealth;
     report_asyncJobs :=
       match ENABLE_ASYNC_JOBS with
       | Some v => negb (String.eqb v "false")
       | None => true
       end;
     report_stdioPath := health_path <$> health_status executorHealth;
     report_activeJobs := length (getActiveJobs w);
     report_executorStatus := health_status executorHealth;
     report_timestamp := now w |}.

End HealthCheck.

(** An environment whose main path is there and whose build directory is
    empty, and [path.join] with two arguments for it. *)
Definition demo_unbuilt : Env :=
  {| config := demo_config;
     path_join := fun a b c => a +:+ "/build/src/tests/with-sign/" +:+ c;
     path_join_type_error := fun _ =>
       ErrorObj "The path argument must be of type string";
     existsSync := fun p => String.eqb p "/app";
     pathToFileURL_href := fun p => "file://" +:+ p;
     import := fun _ => NeverSettles |}.

Definition demo_join2 (a b : string) : string := a +:+ "/build/src/tests/with-sign".

(** ** Definitions used for the properties of the console capture *)

(** The lines that a list of console calls hands to [console.log], and
    those it hands to [console.error]. *)
Definition logged (ls : list LogCall) : list string :=
  omap (fun l => match l with Log o => Some o | LogError _ => None end) ls.

Definition errored (ls : list LogCall) : list string :=
  omap (fun l => match l with LogError o => Some o | Log _ => None end) ls.

(** Lines, each followed by a line feed, one after the other. *)
Fixpoint lines (outputs : list string) : string :=
  match outputs with
  | [] => ""
  | o :: rest => o +:+ String "010"%char "" +:+ lines rest
  end.

(** A capture with other collected output. *)
Definition set_out (out err : string) (c : Capture) : Capture :=
  {| currentPhase := currentPhase c;
     capturedBeforeState := capturedBeforeState c;
     capturedAfterState := capturedAfterState c;
     stdout := out; stderr := err; sent := sent c |}.

(** A non-empty string of decimal digits. *)
Definition is_number (s : string) : Prop :=
  s <> "" /\ forallb is_digit (list_ascii_of_string s) = true.

(** The field names of a snapshot. *)
Definition snapshot_fields : list string :=
  [ "totalCompaniesTracked"; "compliantCompaniesCount"; "globalComplianceScore";
    "totalVerificationsGlobal"; "registryVersion"; "companiesRootHash" ].

(** A snapshot as the capture builds it: [totalCompaniesTracked] first, its
    fields among the six names and none twice, every value a number but
    that of [companiesRootHash], which is the given placeholder. *)
Definition snapshot_ok (hash : string) (o : Obj) : Prop :=
  (exists m, head o = Some ("totalCompaniesTracked", m)) /\
  NoDup (map fst o) /\
  Forall (fun kv : string * string =>
            In (fst kv) snapshot_fields /\
            if String.eqb (fst kv) "companiesRootHash" then snd kv = hash
            else is_number (snd kv)) o.

(** One assignment of the capture to a snapshot variable: the first
    pattern creates the snapshot, the second sets a field of it, the third
    completes it with the defaults. *)
Inductive snapshot_step (verifications hash : string) : option Obj -> option Obj -> Prop :=
| snapshot_created m :
    is_number m ->
    snapshot_step verifications hash None (Some [("totalCompaniesTracked", m)])
| snapshot_compliant m o :
    is_number m ->
    snapshot_step verifications hash (Some o)
      (Some (obj_set "compliantCompaniesCount" m o))
| snapshot_completed m o :
    is_number m ->
    snapshot_step verifications hash (Some o) (Some (complete m verifications hash o)).

(** The broadcasts that belong to the before state, and those that belong
    to the after state. *)
Definition about_before (u : ExecUpdate) : bool :=
  match u with
  | before_state_captured _ => true
  | phase_update before_state_capturing => true
  | phase_update verification_process => true
  | _ => false
  end.

Definition about_after (u : ExecUpdate) : bool :=
  match u with
  | after_state_captured _ => true
  | phase_update after_state_capturing => true
  | _ => false
  end.

(** ** The HTTP routes of the integrated server *)

(** A header, a body field or an environment variable that may be absent:
    the empty string is falsy. *)
Definition truthy (v : option string) : bool :=
  match v with Some (String _ _) => true | _ => false end.

(** [a || b] on such values. *)
Definition js_or (a b : option string) : option string := if truthy a then a else b.

(** [s.replace(pattern, replacement)] with a string as pattern: the first
    occurrence only (the replacements used here hold no [$]). *)
Fixpoint replace_first (pattern replacement s : string) : string :=
  if String.prefix pattern s then replacement +:+ Js.drop (String.length pattern) s
  else match s with
       | EmptyString => ""
       | String c rest => String c (replace_first pattern replacement rest)
       end.

(** [req.headers['x-api-key'] || req.headers['authorization']?.replace('Bearer ', '')]. *)
Definition providedKey (x_api_key authorization : option string) : option string :=
  js_or x_api_key (replace_first "Bearer " "" <$> authorization).

(** The middleware [requireApiKey]: [true] stands for [next()], [false] for
    the answer 401. *)
Definition requireApiKey (API_KEY x_api_key authorization : option string) : bool :=
  let key := providedKey x_api_key authorization in
  if (negb (truthy key) || negb (bool_decide (key = API_KEY)))%bool then false else true.

Inductive Route :=
| route_health | route_tools | route_execute | route_execute_async
| route_job | route_jobs | route_jobs_completed
| route_gleif | route_corporate | route_exim | route_risk | route_status.

Definition route_path (r : Route) : string :=
  match r with
  | route_health => "/api/v1/health"
  | route_tools => "/api/v1/tools"
  | route_execute => "/api/v1/tools/execute"
  | route_execute_async => "/api/v1/tools/execute-async"
  | route_job => "/api/v1/jobs/:jobId"
  | route_jobs => "/api/v1/jobs"
  | route_jobs_completed => "/api/v1/jobs/completed"
  | route_gleif => "/api/v1/tools/gleif"
  | route_corporate => "/api/v1/tools/corporate"
  | route_exim => "/api/v1/tools/exim"
  | route_risk => "/api/v1/tools/risk"
  | route_status => "/api/v1/status"
  end.

(** [app.use(mount, f)] runs [f] for the paths at [mount] and below it. *)
Definition below (mount path : string) : bool :=
  (String.prefix mount path &&
   match Js.drop (String.length mount) path with
   | EmptyString => true
   | String c _ => Ascii.eqb c "/"
   end)%bool.

(** Whether a request to a route gets to its handler: [requireApiKey] is
    mounted on '/api/v1/tools', and only when [ZK_PRET_ENABLE_API_AUTH] is
    the string 'true'. *)
Definition admits (ZK_PRET_ENABLE_API_AUTH API_KEY : option string) (r : Route)
    (x_api_key authorization : option string) : bool :=
  if (bool_decide (ZK_PRET_ENABLE_API_AUTH = Some "true")
      && below "/api/v1/tools" (route_path r))%bool
  then requireApiKey API_KEY x_api_key authorization
  else true.

(** The body of a request to [POST /api/v1/tools/execute-async]. *)
Record AsyncRequest := {
  req_toolName : option string;
  req_parameters : option Params;
  req_jobId : option string
}.

(** Its answers (the constant fields are left out). *)
Inductive AsyncReply :=
| async_disabled (timestamp : Z)                                  (* 400 *)
| toolName_required (timestamp : Z)                               (* 400 *)
| async_started (jobId : string) (st : Status) (tool : string) (timestamp : Z)   (* 200 *)
| async_failed (message : string) (timestamp : Z).                (* 500 *)

Section Routes.

Variable env : Env.

(** The handler of [POST /api/v1/tools/execute-async]; [generated] is what
    [generateJobId()] returns when it is called. The answer is built from
    the Job object that [startJob] has returned. *)
Definition execute_async (ENABLE_ASYNC_JOBS : option string) (generated : string)
    (req : AsyncRequest) : M AsyncReply :=
  if bool_decide (ENABLE_ASYNC_JOBS = Some "false") then
    t <- gets now ;; ret (async_disabled t)
  else
    try_catch
      (match req_toolName req with
       | Some (String a rest as tool) =>
           let actualJobId := default generated (js_or (req_jobId req) None) in
           job <- startJob env actualJobId tool (default [] (req_parameters req)) ;;
           j <- gets (fun w => heap w !! job) ;;
           match j with
           | Some j => ret (async_started (id j) (status j) (toolName j) (startTime j))
           | None =>
               throw (ErrorObj "Cannot read properties of undefined (reading 'id')")
           end
       | _ => t <- gets now ;; ret (toolName_required t)
       end)
      (fun e => t <- gets now ;; ret (async_failed (message_or "Unknown error" e) t)).

(** The tool behind [POST /api/v1/tools/risk]. *)
Definition risk_tool (riskType : option string) : string :=
  if bool_decide (riskType = Some "advanced")
  then "get-RiskLiquidityAdvancedOptimMerkle-verification-with-sign"
  else if bool_decide (riskType = Some "basel3")
  then "get-RiskLiquidityBasel3Optim-Merkle-verification-with-sign"
  else if bool_decide (riskType = Some "stablecoin")
  then "get-StablecoinProofOfReservesRisk-verification-with-sign"
  else "get-RiskLiquidityAdvancedOptimMerkle-verification-with-sign".

(** The four routes that run one tool each. *)
Inductive ToolRoute := tool_gleif | tool_corporate | tool_exim | tool_risk.

(** The tool that a route runs; [body] is [req.body], which is [undefined]
    when the request had no body that the parsers took. The handler of the
    risk route reads [riskType] off it. *)
Definition route_tool (r : ToolRoute) (body : option Params) : Thrown + string :=
  match r with
  | tool_gleif => inr "get-GLEIF-verification-with-sign"
  | tool_corporate => inr "get-Corporate-Registration-verification-with-sign"
  | tool_exim => inr "get-EXIM-verification-with-sign"
  | tool_risk =>
      match body with
      | Some parameters => inr (risk_tool (assoc "riskType" parameters))
      | None => inl (ErrorObj "Cannot read properties of undefined (reading 'riskType')")
      end
  end.

(** Their answers. *)
Inductive ToolReply :=
| tool_reply (success : bool) (toolName : string) (result : ToolResult)
    (executionTime : Z) (timestamp : Z)
    (contractStateBefore contractStateAfter : option Obj)          (* 200 *)
| tool_error (message : string) (timestamp : Z).                    (* 500 *)

(** [res.json(body)] serialises the answer with [JSON.stringify], which
    throws where the result holds a value of the tool that cannot be
    serialised. *)
Definition reply_json_error (reply : ToolReply) : option string :=
  match reply with
  | tool_reply _ _ (Response d) _ _ _ _ => value_json_error (direct_result d)
  | _ => None
  end.

Definition res_json (reply : ToolReply) : M ToolReply :=
  match reply_json_error reply with
  | Some e => throw (ErrorObj e)
  | None => ret reply
  end.

(** Where a handler is once its synchronous part has run: it has answered,
    or it waits for [executeTool]. *)
Inductive RouteCall :=
| route_answered (reply : ToolReply)
| route_awaits (tool : string) (call : Suspended).

(** A handler up to its [await zkToolExecutor.executeTool(...)]; a missing
    [parameters] argument of [executeTool] is the empty object. *)
Definition tool_route_begin (r : ToolRoute) (body : option Params) : M RouteCall :=
  try_catch
    (match route_tool r body with
     | inl e => throw e
     | inr tool =>
         call <- executeTool_begin env tool (default [] body) ;;
         ret (route_awaits tool call)
     end)
    (fun e =>
       t <- gets now ;; ret (route_answered (tool_error (message_or "Unknown error" e) t))).

(** The handler from its [await] on; [rest] is the part of [executeTool]
    that still has to run. *)
Definition tool_route_resume (tool : string) (rest : M ToolExecutionResult) : M ToolReply :=
  try_catch
    (res <- rest ;;
     t <- gets now ;;
     res_json
       (tool_reply (success res) tool (result res) (executionTime res) t
          (match result res with Response d => contractStateBefore d | _ => None end)
          (match result res with Response d => contractStateAfter d | _ => None end)))
    (fun e => t <- gets now ;; ret (tool_error (message_or "Unknown error" e) t)).

End Routes.

(** ** The direct-execution functions of the Corporate Registration and
       EXIM tools

    [executeCorporateRegistrationVerificationDirect] and
    [executeEXIMVerificationDirect] are the same function but for the
    verification they call and for two texts. Of its parameters the function
    reads [companyNames] and [companyName] ([cin] and [typeOfNet] are taken
    from the request and not used). *)

(** Of a verification result what the function reads: the fields [error]
    and [isCompliant], each by its truthiness, and [verificationTime], of
    which the function prints [new Date(Number(...)).toISOString()]:
    [valid_time] says that this is a time that a [Date] holds (a number
    within 8.64e15 milliseconds of the epoch). *)
Record CompanyResult := { has_error : bool; isCompliant : bool; valid_time : bool }.

Record Summary := {
  totalCompanies : nat;
  successfulVerifications : nat;
  failedVerifications : nat;
  compliantCompanies : nat;
  nonCompliantCompanies : nat
}.

(** The object the function returns ([executionMode] is a constant). *)
Record CompanyReply := {
  reply_success : bool;
  verificationResults : list CompanyResult;
  reply_summary : Summary
}.

(** How the verification that the function calls ends: it returns its
    results, it throws a value that has properties, it throws [null] or
    [undefined], or it does not end. *)
Inductive UtilEnd :=
| util_returns (results : list CompanyResult)
| util_throws (e : Thrown)
| util_throws_nullish (is_null : bool)
| util_never.

(** The TypeError of [error.stack] in the [catch] block, for an [error]
    that is [null] or [undefined]. *)
Definition stack_of_nullish (is_null : bool) : Thrown :=
  ErrorObj ("Cannot read properties of " +:+ (if is_null then "null" else "undefined")
            +:+ " (reading 'stack')").

(** The company whose time the status details cannot print: the first
    result without an error whose time is not valid. *)
Definition unprintable (r : CompanyResult) : bool :=
  (negb (has_error r) && negb (valid_time r))%bool.

Section CompanyVerification.

(** [String.prototype.trim]. *)
Variable trim : string -> string.

(** [targetCompanyNames]: [companyNames] is [Some] when the parameter is an
    array (of strings), [companyName] is a string or absent. *)
Definition targetCompanyNames (companyNames : option (list string))
    (companyName : option string) : Thrown + list string :=
  match companyNames with
  | Some names => inr names
  | None =>
      match companyName with
      | Some (String _ _ as name) => inr [name]
      | _ => inl (ErrorObj "Company names are required")
      end
  end.

(** [validCompanyNames], or the error of the validation. *)
Definition validCompanyNames (companyNames : option (list string))
    (companyName : option string) : Thrown + list string :=
  match targetCompanyNames companyNames companyName with
  | inl e => inl e
  | inr target =>
      let valid := List.filter (fun name => Nat.ltb 0 (String.length name)) (map trim target) in
      if Nat.eqb (length valid) 0
      then inl (ErrorObj "At least one company name is required")
      else if Nat.ltb 10 (length valid)
      then inl (ErrorObj "Maximum 10 companies supported in this demo")
      else inr valid
  end.

Definition summary (results : list CompanyResult) : Summary :=
  {| totalCompanies := length results;
     successfulVerifications := length (List.filter (fun r => negb (has_error r)) results);
     failedVerifications := length (List.filter has_error results);
     compliantCompanies := length (List.filter isCompliant results);
     nonCompliantCompanies :=
       length (List.filter (fun r => negb (isCompliant r) && negb (has_error r)) results) |}.

(** The function, given the verification it calls. After the verification
    has returned, the function prints the status of every company, and
    [toISOString] throws the RangeError 'Invalid time value' for a time
    that is not valid. The [catch] block logs the error with its [stack]
    and throws it again. *)
Definition executeCompanyVerificationDirect (util : list string -> UtilEnd)
    (companyNames : option (list string)) (companyName : option string)
    : Promise CompanyReply :=
  match validCompanyNames companyNames companyName with
  | inl e => RejectedWith e
  | inr valid =>
      match util valid with
      | util_returns results =>
          if existsb unprintable results
          then RejectedWith (ErrorObj "Invalid time value")
          else Fulfilled {| reply_success := true; verificationResults := results;
                            reply_summary := summary results |}
      | util_throws e => RejectedWith e
      | util_throws_nullish is_null => RejectedWith (stack_of_nullish is_null)
      | util_never => NeverSettles
      end
  end.

End CompanyVerification.

(** Two lines of the final summary that the function prints, for a count
    [n] in decimal. *)
Definition compliant_line (n : string) : string := "🏆 Compliant Companies: " +:+ n.
Definition non_compliant_line (n : string) : string := "⚠️ Non-Compliant Companies: " +:+ n.

(** ** The direct-execution function of the Stablecoin tool *)

(** The parameters that [executeStablecoinVerificationDirect] reads; a
    number that is 0 and a string that is empty are falsy. *)
Record StablecoinParameters := {
  sp_liquidityThreshold : option Z;
  sp_threshold : option Z;
  sp_actusUrl : option string;
  sp_configFilePath : option string;
  sp_executionMode : option string;
  sp_jurisdiction : option string
}.

(** [operationalThresholds] of a settings file. *)
Record Thresholds := {
  backingRatioThreshold : Z;
  liquidityRatioThreshold : Z;
  concentrationLimit : Z;
  qualityThreshold : Z
}.

(** What reading the settings file of a jurisdiction comes to. *)
Inductive SettingsFile :=
| settings_read (operationalThresholds : Thresholds)
| settings_without_thresholds     (* the file has no [operationalThresholds] *)
| settings_unreadable.            (* [readFile] or [JSON.parse] throws *)

Definition default_thresholds : Thresholds :=
  {| backingRatioThreshold := 100; liquidityRatioThreshold := 20;
     concentrationLimit := 25; qualityThreshold := 80 |}.

(** [processedParameters] of the answer. *)
Record ProcessedParameters := {
  pp_liquidityThreshold : Z;
  pp_actusUrl : string;
  pp_configFile : string;
  pp_executionMode : string;
  pp_jurisdiction : string
}.

(** The object the function returns ([executionMode] is a constant). *)
Inductive StablecoinReply :=
| stablecoin_result (success : bool) (processedParameters : ProcessedParameters)
| stablecoin_failure (error : string).          (* success: false *)

Section Stablecoin.

(** A contract portfolio, as read from a configuration file. *)
Variable Portfolio : Type.

(** Of a configuration file: [parsed.contracts || parsed] and the
    concentration limit of its [portfolioMetadata.complianceTarget]. *)
Record ConfigFile := { contracts : Portfolio; config_concentrationLimit : option Z }.

(** The arguments of the verification. *)
Record StablecoinCall := {
  call_backingRatioThreshold : Z;
  call_liquidityRatioThreshold : Z;
  call_concentrationLimit : Z;
  call_qualityThreshold : Z;
  call_actusUrl : string;
  call_contractPortfolio : option Portfolio;
  call_jurisdiction : string
}.

Inductive VerificationEnd :=
| verification_returns (success : bool)
| verification_throws (e : Thrown)
| verification_never.

Variable ACTUS_SERVER_URL : option string.         (* [process.env.ACTUS_SERVER_URL] *)
Variable projectRoot : string.                     (* [process.cwd()], without [$] *)
Variable toUpperCase : string -> string.           (* [String.prototype.toUpperCase] *)
Variable readConfig : string -> option ConfigFile. (* [None]: reading or parsing throws *)
Variable readSettings : string -> SettingsFile.
Variable verification : StablecoinCall -> VerificationEnd.

(** [a || b] on numbers. *)
Definition num_or (a : option Z) (b : Z) : Z :=
  match a with
  | Some n => if Z.eqb n 0 then b else n
  | None => b
  end.

(** The path of the configuration file. *)
Definition resolveConfigPath (configFilePath jurisdiction : string) : string :=
  if (negb (includes "/" configFilePath) && negb (includes "\" configFilePath))%bool then
    "src/data/RISK/StableCoin/CONFIG/" +:+ toUpperCase jurisdiction +:+ "/" +:+ configFilePath
  else if String.prefix "./" configFilePath then
    replace_first "./" (projectRoot +:+ "/") configFilePath
  else if (negb (String.prefix "/" configFilePath) && negb (includes ":" configFilePath))%bool then
    projectRoot +:+ "/" +:+ configFilePath
  else configFilePath.

(** The function up to its call of the verification: the answer
    parameters and the arguments of the call, or what was thrown. *)
Definition stablecoin_prepare (P : StablecoinParameters)
    : Thrown + ProcessedParameters * StablecoinCall :=
  let liquidityThreshold := num_or (sp_liquidityThreshold P) (num_or (sp_threshold P) 100) in
  let actusUrl :=
    default "http://localhost:8083/eventsBatch"
      (js_or (sp_actusUrl P) (js_or ACTUS_SERVER_URL None)) in
  let configFilePath :=
    default "src/data/RISK/StableCoin/CONFIG/US/StableCoin-VALID-1.json"
      (js_or (sp_configFilePath P) None) in
  let executionMode := default "ultra_strict" (js_or (sp_executionMode P) None) in
  let jurisdiction := default "US" (js_or (sp_jurisdiction P) None) in
  if negb (existsb (String.eqb (toUpperCase jurisdiction)) ["US"; "EU"]) then
    inl (ErrorObj ("Invalid jurisdiction '" +:+ jurisdiction +:+ "'. Must be 'US' or 'EU'."))
  else
    let resolvedConfigPath := resolveConfigPath configFilePath jurisdiction in
    let config :=
      match resolvedConfigPath with
      | EmptyString => None
      | _ => readConfig resolvedConfigPath
      end in
    let contractPortfolio := contracts <$> config in
    let configConcentrationLimit :=
      match config with
      | Some file => num_or (config_concentrationLimit file) 25
      | None => 25
      end in
    let settingsPath :=
      projectRoot +:+ "/src/data/RISK/StableCoin/SETTINGS/" +:+ toUpperCase jurisdiction
        +:+ "-Professional-Thresholds.json" in
    match
      match readSettings settingsPath with
      | settings_read t => Some t
      | settings_without_thresholds => None
      | settings_unreadable => Some default_thresholds
      end
    with
    | None =>
        inl (ErrorObj "Cannot read properties of undefined (reading 'backingRatioThreshold')")
    | Some jurisdictionThresholds =>
        inr ({| pp_liquidityThreshold := liquidityThreshold;
                pp_actusUrl := actusUrl;
                pp_configFile := resolvedConfigPath;
                pp_executionMode := executionMode;
                pp_jurisdiction := jurisdiction |},
             {| call_backingRatioThreshold := backingRatioThreshold jurisdictionThresholds;
                call_liquidityRatioThreshold := liquidityRatioThreshold jurisdictionThresholds;
                call_concentrationLimit :=
                  if Z.eqb configConcentrationLimit 25
                  then concentrationLimit jurisdictionThresholds
                  else configConcentrationLimit;
                call_qualityThreshold := qualityThreshold jurisdictionThresholds;
                call_actusUrl := actusUrl;
                call_contractPortfolio := contractPortfolio;
                call_jurisdiction := toUpperCase jurisdiction |})
    end.

(** [executeStablecoinVerificationDirect]: its [catch] block turns every
    throw into an answer. *)
Definition executeStablecoinVerificationDirect (P : StablecoinParameters)
    : Promise StablecoinReply :=
  match stablecoin_prepare P with
  | inl e => Fulfilled (stablecoin_failure (message_or "Unknown error" e))
  | inr (processed, call) =>
      match verification call with
      | verification_returns success => Fulfilled (stablecoin_result success processed)
      | verification_throws e => Fulfilled (stablecoin_failure (message_or "Unknown error" e))
      | verification_never => NeverSettles
      end
  end.

End Stablecoin.

(** ** The direct-execution functions of the BPI and BSDI tools *)

(** The parameters that [executeBPIVerificationDirect] reads, each a string
    or absent; the empty string is falsy. *)
Record BPIParameters := {
  bp_processType : option string;
  bp_expectedProcessFile : option string;
  bp_actualProcessFile : option string
}.

(** How a call of [parseBpmn] ends: with a path expression or with
    nothing, with a throw, or not at all. *)
Inductive ParseEnd :=
| parse_returns (expression : option string)
| parse_throws (e : Thrown)
| parse_never.

(** The arguments of [runOptimMerkleVerification]; the answer of the
    function repeats them as [processedParameters] and [parsedPaths]. *)
Record BPICall := {
  bpi_processType : string;
  bpi_expectedPath : string;
  bpi_actualPath : string;
  bpi_expectedFile : string;
  bpi_actualFile : string
}.

(** The object [executeBPIVerificationDirect] returns ([executionMode] is a
    constant). *)
Inductive BPIReply :=
| bpi_result (success : bool) (processed : BPICall)
| bpi_failure (error : string).                 (* success: false *)

(** What reading and parsing the bill of lading comes to: the parsed value
    ([None] for a file that holds [null]), or what [readFileSync] or
    [JSON.parse] throws. *)
Inductive BolFile (BillOfLading : Type) :=
| bol_read (blData : option BillOfLading)
| bol_unreadable (e : Thrown).
Arguments bol_read {BillOfLading} blData.
Arguments bol_unreadable {BillOfLading} e.

(** The object [executeBSDIVerificationDirect] returns: [documentInfo] is
    read off [blData]. *)
Inductive BSDIReply (BillOfLading : Type) :=
| bsdi_result (success : bool) (bolFile : string) (blData : BillOfLading)
| bsdi_failure (error : string).                (* success: false *)
Arguments bsdi_result {BillOfLading} success bolFile blData.
Arguments bsdi_failure {BillOfLading} error.

Definition line_feed : string := String "010" "".

Section SupplyChain.

Variable projectRoot : string.                     (* [process.cwd()] *)
Variable isAbsolute : string -> bool.              (* [path.isAbsolute] *)
Variable join : list string -> string.             (* [path.join] *)

(** The path of a data file: a bare file name is looked for in the
    directory of the tool, anything else is taken as it is. *)
Definition resolveDataFile (directory : list string) (file : string) : string :=
  if (negb (isAbsolute file) && negb (includes "/" file) && negb (includes "\" file))%bool
  then join (projectRoot :: directory ++ [file])
  else file.

Variable parseBpmn : string -> ParseEnd.
Variable runOptimMerkleVerification : BPICall -> VerificationEnd.

(** [executeBPIVerificationDirect]: its [catch] block turns every throw into
    an answer. *)
Definition executeBPIVerificationDirect (P : BPIParameters) : Promise BPIReply :=
  let processType := default "SCF" (js_or (bp_processType P) None) in
  let expectedFile := default "SCF-Expected.bpmn" (js_or (bp_expectedProcessFile P) None) in
  let actualFile := default "SCF-Accepted1.bpmn" (js_or (bp_actualProcessFile P) None) in
  let expectedFilePath :=
    resolveDataFile ["src"; "data"; "scf"; "process"; "EXPECTED"] expectedFile in
  let actualFilePath :=
    resolveDataFile ["src"; "data"; "scf"; "process"; "ACTUAL"] actualFile in
  match parseBpmn expectedFilePath with
  | parse_throws e => Fulfilled (bpi_failure (message_or "Unknown error" e))
  | parse_never => NeverSettles
  | parse_returns expected =>
      let expectedPath := default "" (js_or expected None) in
      match parseBpmn actualFilePath with
      | parse_throws e => Fulfilled (bpi_failure (message_or "Unknown error" e))
      | parse_never => NeverSettles
      | parse_returns actual =>
          let actualPath := default "" (js_or actual None) in
          if (String.eqb expectedPath "" || String.eqb actualPath "")%bool then
            Fulfilled (bpi_failure
              ("Failed to parse BPMN files. Please check file paths and content."
               +:+ line_feed +:+ "Expected: " +:+ expectedFilePath
               +:+ line_feed +:+ "Actual: " +:+ actualFilePath))
          else
            let call := {| bpi_processType := processType;
                           bpi_expectedPath := expectedPath;
                           bpi_actualPath := actualPath;
                           bpi_expectedFile := expectedFilePath;
                           bpi_actualFile := actualFilePath |} in
            match runOptimMerkleVerification call with
            | verification_returns success => Fulfilled (bpi_result success call)
            | verification_throws e => Fulfilled (bpi_failure (message_or "Unknown error" e))
            | verification_never => NeverSettles
            end
      end
  end.

Variable BillOfLading : Type.
Variable existsSync : string -> bool.
Variable readBol : string -> BolFile BillOfLading.
Variable runComprehensiveTest : BillOfLading -> VerificationEnd.

(** [executeBSDIVerificationDirect], of whose parameters it reads
    [filePath]. *)
Definition executeBSDIVerificationDirect (filePath : option string)
    : Promise (BSDIReply BillOfLading) :=
  let bolFile := default "BOL-VALID-1.json" (js_or filePath None) in
  let resolvedFilePath := resolveDataFile ["src"; "data"; "scf"; "BILLOFLADING"] bolFile in
  if negb (existsSync resolvedFilePath) then
    Fulfilled (bsdi_failure ("BOL file not found: " +:+ resolvedFilePath))
  else
    match readBol resolvedFilePath with
    | bol_unreadable e => Fulfilled (bsdi_failure (message_or "Unknown error" e))
    | bol_read None =>
        Fulfilled (bsdi_failure
          "Cannot read properties of null (reading 'transportDocumentTypeCode')")
    | bol_read (Some blData) =>
        match runComprehensiveTest blData with
        | verification_returns success =>
            Fulfilled (bsdi_result success resolvedFilePath blData)
        | verification_throws e => Fulfilled (bsdi_failure (message_or "Unknown error" e))
        | verification_never => NeverSettles
        end
    end.

End SupplyChain.

(** ** Execution in a spawned process

    The variant of the executor that runs a compiled script as a child
    process ([executeJavaScriptFile]) and the command line it builds for it
    ([prepareScriptArgs]). *)

(** A field of the request: a string, an integer that the language prints
    digit by digit (one below 10^21 in size), or another value of JSON (a
    fraction, a number that is printed in exponent form, a boolean, [null],
    an array or an object), of which only its truthiness and the text that
    [String] makes of it are kept. The empty string and 0 are falsy. *)
Inductive Value :=
| text (s : string)
| number (n : Z)
| other (truthy : bool) (printed : string).

Definition value_truthy (v : option Value) : bool :=
  match v with
  | Some (text (String _ _)) => true
  | Some (number n) => negb (Z.eqb n 0)
  | Some (other truthy _) => truthy
  | _ => false
  end.

(** [a || b] where [b] may be absent too. *)
Definition value_or (a b : option Value) : option Value :=
  if value_truthy a then a else b.

(** [a || b] where [b] is a literal. *)
Definition or_else (a : option Value) (b : Value) : Value :=
  match a with
  | Some v => if value_truthy a then v else b
  | None => b
  end.

(** [String(v)]. *)
Definition String_of (v : Value) : string :=
  match v with
  | text s => s
  | number n => pretty n
  | other _ printed => printed
  end.

(** [prepareScriptArgs]; [ACTUS_SERVER_URL] is the variable of the
    environment. *)
Definition prepareScriptArgs (ACTUS_SERVER_URL : option string)
    (parameters : gmap string Value) (toolName : option string) : list string :=
  let actusUrl :=
    default "http://3.88.158.37:8083/eventsBatch" (js_or ACTUS_SERVER_URL None) in
  if bool_decide (toolName = Some "get-GLEIF-verification-with-sign") then
    let companyName :=
      or_else (parameters !! "companyName")
        (or_else (parameters !! "legalName")
           (or_else (parameters !! "entityName")
              (text "SREE PALANI ANDAVAR AGROS PRIVATE LIMITED"))) in
    [String_of companyName; "TESTNET"]
  else if bool_decide (toolName = Some "get-Corporate-Registration-verification-with-sign") then
    let cin := parameters !! "cin" in
    match cin with
    | Some v => if value_truthy cin then [String_of v; "TESTNET"] else ["TESTNET"]
    | None => ["TESTNET"]
    end
  else if bool_decide (toolName = Some "get-EXIM-verification-with-sign") then
    let eximCompanyName :=
      value_or (parameters !! "companyName")
        (value_or (parameters !! "legalName") (parameters !! "entityName")) in
    match eximCompanyName with
    | Some v => if value_truthy eximCompanyName then [String_of v; "TESTNET"] else ["TESTNET"]
    | None => ["TESTNET"]
    end
  else if bool_decide
            (toolName = Some "get-RiskLiquidityAdvancedOptimMerkle-verification-with-sign") then
    let advThreshold := or_else (parameters !! "liquidityThreshold") (number 95) in
    let advConfigFilePath :=
      or_else (parameters !! "configFilePath") (text "Advanced-VALID-1.json") in
    let advExecutionMode := or_else (parameters !! "executionMode") (text "ultra_strict") in
    [String_of advThreshold; actusUrl; String_of advConfigFilePath;
     String_of advExecutionMode]
  else if bool_decide
            (toolName = Some "get-RiskLiquidityBasel3Optim-Merkle-verification-with-sign") then
    let lcrThreshold :=
      or_else (parameters !! "lcrThreshold")
        (or_else (parameters !! "liquidityThreshold") (number 100)) in
    let nsfrThreshold := or_else (parameters !! "nsfrThreshold") (number 100) in
    let configFilePath :=
      or_else (parameters !! "configFilePath") (text "basel3-VALID-1.json") in
    [String_of lcrThreshold; String_of nsfrThreshold; actusUrl; String_of configFilePath]
  else if bool_decide
            (toolName = Some "get-StablecoinProofOfReservesRisk-verification-with-sign") then
    let stablecoinThreshold :=
      or_else (parameters !! "liquidityThreshold")
        (or_else (parameters !! "threshold") (number 100)) in
    let stablecoinConfigFilePath :=
      or_else (parameters !! "configFilePath")
        (text "src/data/RISK/StableCoin/CONFIG/US/StableCoin-VALID-1.json") in
    let stablecoinExecutionMode :=
      or_else (parameters !! "executionMode") (text "ultra_strict") in
    let stablecoinJurisdiction := or_else (parameters !! "jurisdiction") (text "US") in
    [String_of stablecoinThreshold; actusUrl; String_of stablecoinConfigFilePath;
     String_of stablecoinExecutionMode; String_of stablecoinJurisdiction]
  else if bool_decide (toolName = Some "get-BPI-compliance-verification") then
    let processType := or_else (parameters !! "processType") (text "SCF") in
    let expectedProcessFile :=
      or_else (parameters !! "expectedProcessFile") (text "SCF-Expected.bpmn") in
    let actualProcessFile :=
      or_else (parameters !! "actualProcessFile") (text "SCF-Accepted1.bpmn") in
    [String_of processType; String_of expectedProcessFile; String_of actualProcessFile]
  else if bool_decide (toolName = Some "get-BSDI-compliance-verification") then
    let bolFilePath := or_else (parameters !! "filePath") (text "BOL-VALID-1.json") in
    [String_of bolFilePath]
  else if bool_decide (toolName = Some "get-RiskLiquidityACTUS-Verifier-Test_adv_zk")
          || bool_decide (toolName = Some "get-RiskLiquidityACTUS-Verifier-Test_Basel3_Withsign")
  then
    let riskThreshold :=
      or_else (parameters !! "threshold")
        (or_else (parameters !! "liquidityThreshold") (number 95)) in
    [String_of riskThreshold; actusUrl]
  else
    let fallbackCompanyName :=
      value_or (parameters !! "legalName")
        (value_or (parameters !! "entityName") (parameters !! "companyName")) in
    match fallbackCompanyName with
    | Some v =>
        if value_truthy fallbackCompanyName then [String_of v; "TESTNET"] else ["TESTNET"]
    | None => ["TESTNET"]
    end.

Module Spawned.

(** [verificationResult] of the response ([zkProofGenerated] is a
    constant). *)
Record VerificationResult := {
  vr_success : bool;
  vr_status : string;
  vr_reason : string
}.

Definition verificationFailed (stdout stderr : string) : bool :=
  includes "Verification failed" stdout || includes "Risk threshold not met" stdout
  || includes "Compliance check failed" stdout || includes "verification failed" stderr.

Definition verificationPassed (stdout : string) : bool :=
  includes "Verification successful" stdout || includes "Proof verified" stdout
  || includes "Compliance check passed" stdout.

Definition verificationResult (stdout stderr : string) : VerificationResult :=
  {| vr_success := verificationPassed stdout && negb (verificationFailed stdout stderr);
     vr_status :=
       if verificationPassed stdout then "verification_passed" else "verification_failed";
     vr_reason :=
       if verificationFailed stdout stderr
       then "Business logic verification failed (this is normal for strict compliance checks)"
       else "Verification completed successfully" |}.

Section Child.

(** What the response takes from the output besides the verdict: the proof
    data found in it and the execution metrics. *)
Variable Extracted : Type.
Variable extract : string -> Extracted.

Variable timeout : Z.                              (* [this.config.timeout] *)

(** The response object; its other fields are constants or times. *)
Record Response := {
  response_verificationResult : VerificationResult;
  response_output : string;
  response_stderr : string;
  response_extracted : Extracted
}.

(** A call of [resolve], with [{ success: true, result: response }], or of
    [reject]. *)
Inductive Settlement :=
| resolve (result : Response)
| reject (error : Thrown).

(** The state that the handlers of a child process share. *)
Record Child := {
  stdout : string;
  stderr : string;
  isResolved : bool;
  timeoutId : bool;               (* the timer is armed: neither fired nor cleared *)
  killed : list string;           (* the signals sent with [nodeProcess.kill] *)
  settled : list Settlement       (* the calls of [resolve] and [reject], oldest first *)
}.

(** The state when [executeJavaScriptFile] has spawned the process. *)
Definition spawned : Child :=
  {| stdout := ""; stderr := ""; isResolved := false; timeoutId := true;
     killed := []; settled := [] |}.

Inductive ChildEvent :=
| stdout_data (output : string)
| stderr_data (output : string)
| close (code : option Z)
| error (message : string)
| timer_fires.

Definition timeout_error : Thrown :=
  ErrorObj ("Script execution timeout after " +:+ pretty timeout +:+ "ms").

(** [`${code}`] for an exit code or [null]. *)
Definition code_text (code : option Z) : string :=
  match code with
  | Some n => pretty n
  | None => "null"
  end.

Definition exit_error (code : option Z) (out err : string) : Thrown :=
  ErrorObj ("Script failed with exit code " +:+ code_text code +:+ ": "
            +:+ default "No output" (js_or (Some err) (js_or (Some out) None))).

Definition response (out err : string) : Response :=
  {| response_verificationResult := verificationResult out err;
     response_output := out;
     response_stderr := err;
     response_extracted := extract out |}.

(** The handlers, and the callback of the timer, which the runtime runs
    only while the timer is armed. *)
Definition handle (c : Child) (ev : ChildEvent) : Child :=
  match ev with
  | stdout_data output =>
      {| stdout := stdout c +:+ output; stderr := stderr c; isResolved := isResolved c;
         timeoutId := timeoutId c; killed := killed c; settled := settled c |}
  | stderr_data output =>
      {| stdout := stdout c; stderr := stderr c +:+ output; isResolved := isResolved c;
         timeoutId := timeoutId c; killed := killed c; settled := settled c |}
  | close code =>
      if isResolved c then c
      else
        {| stdout := stdout c; stderr := stderr c; isResolved := true;
           timeoutId := false; killed := killed c;
           settled :=
             settled c ++
               [match code with
                | Some 0 => resolve (response (stdout c) (stderr c))
                | _ => reject (exit_error code (stdout c) (stderr c))
                end] |}
  | error message =>
      if isResolved c then c
      else
        {| stdout := stdout c; stderr := stderr c; isResolved := true;
           timeoutId := false; killed := killed c;
           settled := settled c ++ [reject (ErrorObj message)] |}
  | timer_fires =>
      if timeoutId c then
        if isResolved c then
          {| stdout := stdout c; stderr := stderr c; isResolved := isResolved c;
             timeoutId := false; killed := killed c; settled := settled c |}
        else
          {| stdout := stdout c; stderr := stderr c; isResolved := true;
             timeoutId := false; killed := killed c ++ ["SIGTERM"];
             settled := settled c ++ [reject timeout_error] |}
      else c
  end.

Definition run (events : list ChildEvent) : Child := fold_left handle events spawned.

(** What the process has written, chunk after chunk. *)
Definition is_data (ev : ChildEvent) : bool :=
  match ev with
  | stdout_data _ | stderr_data _ => true
  | _ => false
  end.

Fixpoint written_out (events : list ChildEvent) : string :=
  match events with
  | [] => ""
  | stdout_data output :: rest => output +:+ written_out rest
  | _ :: rest => written_out rest
  end.

Fixpoint written_err (events : list ChildEvent) : string :=
  match events with
  | [] => ""
  | stderr_data output :: rest => output +:+ written_err rest
  | _ :: rest => written_err rest
  end.

(** Between two events the promise is either untouched, with the timer
    armed, or settled by one call, with the timer gone. *)
Definition coherent (c : Child) : Prop :=
  (isResolved c = false /\ timeoutId c = true /\ killed c = [] /\ settled c = []) \/
  (isResolved c = true /\ timeoutId c = false /\
   exists s, settled c = [s] /\
     (killed c = [] \/ killed c = ["SIGTERM"] /\ s = reject timeout_error)).

End Child.

End Spawned.

(** * Properties *)

(** ** Strings *)

Arguments includes : simpl never.
Arguments match_digits : simpl never.

Lemma prefix_app_l (p q s : string) :
  String.prefix (p +:+ q) s = true -> String.prefix p s = true.
Proof.
  revert s. induction p as [|a p IH]; intros s H; [destruct s; reflexivity|].
  destruct s as [|b s]; simpl in *; [discriminate|].
  destruct (Ascii.ascii_dec a b); [auto | discriminate].
Qed.

Lemma match_here_prefix (label s d : string) :
  match_here label s = Some d -> String.prefix label s = true.
Proof.
  unfold match_here. destruct (String.prefix label s); [reflexivity | discriminate].
Qed.

Lemma includes_here (needle s : string) :
  String.prefix needle s = true -> includes needle s = true.
Proof.
  intros H. destruct s; unfold includes; fold includes; rewrite H; reflexivity.
Qed.

Lemma includes_later (needle : string) (a : ascii) (s : string) :
  includes needle s = true -> includes needle (String a s) = true.
Proof.
  intros H. unfold includes; fold includes. rewrite H. apply orb_true_r.
Qed.

(** A line on which [/label(\d+)/] matches contains every prefix of the
    label. *)
Lemma match_digits_includes (p q s d : string) :
  match_digits (p +:+ q) s = Some d -> includes p s = true.
Proof.
  induction s as [|a s IH]; unfold match_digits; fold match_digits.
  - destruct (match_here (p +:+ q) "") eqn:E; [|discriminate].
    intros _. apply includes_here. eapply prefix_app_l, match_here_prefix, E.
  - destruct (match_here (p +:+ q) (String a s)) eqn:E.
    + intros _. apply includes_here. eapply prefix_app_l, match_here_prefix, E.
    + intros H. apply includes_later, IH, H.
Qed.

(** ** The state extractor *)

Section ExtractorFacts.

Implicit Types (c : Capture) (o : string).

Lemma before_detect marker p o c :
  capturedBeforeState (detect marker p o c) = capturedBeforeState c.
Proof. unfold detect. destruct (includes marker o); reflexivity. Qed.

Lemma phase_detect_off marker p o c :
  includes marker o = false -> detect marker p o c = c.
Proof. unfold detect. intros ->. reflexivity. Qed.

Lemma before_parse_after o c :
  capturedBeforeState (parse_after o c) = capturedBeforeState c.
Proof.
  unfold parse_after, on_total, on_compliant.
  repeat (case_match; simpl); reflexivity.
Qed.

(** Without a match of the first pattern and without a snapshot, the
    before-state parser does nothing at all, whatever else matches. *)
Lemma parse_before_discards o c :
  match_digits "Total Companies: " o = None ->
  capturedBeforeState c = None ->
  parse_before o c = c.
Proof.
  intros Hm Hc. unfold parse_before, on_total, on_compliant.
  rewrite Hm.
  destruct (includes "Total Companies:" o); simpl;
    rewrite Hc;
    destruct (includes "Compliant Companies:" o); simpl;
    try destruct (match_digits "Compliant Companies: " o); simpl;
    destruct (includes "Global Compliance Score:" o); simpl;
    try destruct (match_digits "Global Compliance Score: " o); simpl;
    rewrite ?Hc; reflexivity.
Qed.

Lemma consoleLog_discards o c :
  match_digits "Total Companies: " o = None ->
  capturedBeforeState c = None ->
  capturedBeforeState (consoleLog c o) = None.
Proof.
  intros Hm Hc. unfold consoleLog.
  set (c1 := detect marker_before before_state_capturing o (append_stdout o c)).
  assert (H1 : capturedBeforeState c1 = None)
    by (subst c1; rewrite before_detect; exact Hc).
  assert (H2 : capturedBeforeState
                 (if Phase_eqb (currentPhase c1) before_state_capturing
                  then parse_before o c1 else c1) = None).
  { destruct (Phase_eqb _ _); [rewrite parse_before_discards|]; assumption. }
  destruct (Phase_eqb _ after_state_capturing);
    rewrite ?before_parse_after, before_detect; exact H2.
Qed.

Lemma feed_discards (outputs : list string) c :
  capturedBeforeState c = None ->
  Forall (fun o => match_digits "Total Companies: " o = None) outputs ->
  capturedBeforeState (feed c (Log <$> outputs)) = None.
Proof.
  intros Hc Hall. revert c Hc.
  induction Hall as [|o outputs Ho _ IH]; intros c Hc; [exact Hc|].
  unfold feed. simpl. apply IH, consoleLog_discards; assumption.
Qed.

(** In the capturing phase a match of the first pattern creates the
    snapshot, with the matched digits as its first field. *)
Lemma consoleLog_creates o m c :
  currentPhase c = before_state_capturing ->
  capturedBeforeState c = None ->
  match_digits "Total Companies: " o = Some m ->
  exists snapshot,
    capturedBeforeState (consoleLog c o) = Some snapshot /\
    head snapshot = Some ("totalCompaniesTracked", m).
Proof.
  intros Hp Hc Hm. unfold consoleLog.
  set (c1 := detect marker_before before_state_capturing o (append_stdout o c)).
  assert (Hp1 : currentPhase c1 = before_state_capturing).
  { subst c1. unfold detect. destruct (includes marker_before o); [reflexivity | exact Hp]. }
  assert (Hc1 : capturedBeforeState c1 = None)
    by (subst c1; rewrite before_detect; exact Hc).
  rewrite Hp1. simpl Phase_eqb. cbv iota.
  assert (Hb : exists snapshot,
             capturedBeforeState (parse_before o c1) = Some snapshot /\
             head snapshot = Some ("totalCompaniesTracked", m)).
  { unfold parse_before, on_total, on_compliant.
    rewrite (match_digits_includes "Total Companies:" " " o m Hm), Hm, Hc1. simpl.
    destruct (includes "Compliant Companies:" o); simpl;
      try destruct (match_digits "Compliant Companies: " o); simpl;
      destruct (includes "Global Compliance Score:" o); simpl;
      try destruct (match_digits "Global Compliance Score: " o); simpl;
      eexists; split; reflexivity. }
  destruct Hb as (snapshot & Hs & Hh). exists snapshot. split; [|exact Hh].
  destruct (Phase_eqb _ after_state_capturing);
    rewrite ?before_parse_after, before_detect; exact Hs.
Qed.

(** A line of the second pattern alone: its digits go into the snapshot
    when there is one and nowhere when there is none. *)
Lemma consoleLog_compliant o m c :
  currentPhase c = before_state_capturing ->
  includes marker_before o = false ->
  includes marker_after o = false ->
  includes "Total Companies:" o = false ->
  includes "Global Compliance Score:" o = false ->
  match_digits "Compliant Companies: " o = Some m ->
  capturedBeforeState (consoleLog c o)
  = obj_set "compliantCompaniesCount" m <$> capturedBeforeState c.
Proof.
  intros Hp Hb Ha Ht Hg Hm. unfold consoleLog.
  rewrite (phase_detect_off _ _ _ _ Hb). simpl currentPhase. rewrite Hp.
  simpl Phase_eqb. cbv iota.
  assert (Hpb : parse_before o (append_stdout o c)
                = match capturedBeforeState c with
                  | Some s => set_before (Some (obj_set "compliantCompaniesCount" m s))
                                (append_stdout o c)
                  | None => append_stdout o c
                  end).
  { unfold parse_before, on_total, on_compliant.
    rewrite Ht, Hg, (match_digits_includes "Compliant Companies:" " " o m Hm), Hm.
    simpl. destruct (capturedBeforeState c); reflexivity. }
  rewrite Hpb, (phase_detect_off _ _ _ _ Ha).
  destruct (capturedBeforeState c) eqn:E; simpl; rewrite Hp; simpl; rewrite ?E; reflexivity.
Qed.

(** A line of the last pattern alone: it completes the snapshot when there
    is one and is dropped when there is none. *)
Lemma consoleLog_score o m c :
  currentPhase c = before_state_capturing ->
  includes marker_before o = false ->
  includes marker_after o = false ->
  includes "Total Companies:" o = false ->
  includes "Compliant Companies:" o = false ->
  match_digits "Global Compliance Score: " o = Some m ->
  capturedBeforeState (consoleLog c o)
  = complete m "0" "initial-hash" <$> capturedBeforeState c.
Proof.
  intros Hp Hb Ha Ht Hg Hm. unfold consoleLog.
  rewrite (phase_detect_off _ _ _ _ Hb). simpl currentPhase. rewrite Hp.
  simpl Phase_eqb. cbv iota.
  unfold parse_before, on_total, on_compliant.
  rewrite Ht, Hg, (match_digits_includes "Global Compliance Score:" " " o m Hm), Hm.
  simpl. rewrite (phase_detect_off _ _ _ _ Ha).
  destruct (capturedBeforeState c) eqn:E; simpl; [reflexivity|].
  rewrite Hp. simpl. exact E.
Qed.

(** A line without the markers and without a match of the first pattern,
    met in the capturing phase while there is no snapshot, changes nothing
    but the collected output and broadcasts nothing, whatever later
    patterns it matches. *)
Lemma consoleLog_ignores o c :
  currentPhase c = before_state_capturing ->
  capturedBeforeState c = None ->
  includes marker_before o = false ->
  includes marker_after o = false ->
  match_digits "Total Companies: " o = None ->
  consoleLog c o = append_stdout o c.
Proof.
  intros Hp Hc Hb Ha Hm. unfold consoleLog.
  rewrite (phase_detect_off _ _ _ _ Hb). simpl currentPhase. rewrite Hp.
  simpl Phase_eqb. cbv iota.
  rewrite (parse_before_discards o (append_stdout o c) Hm Hc).
  rewrite (phase_detect_off _ _ _ _ Ha). simpl currentPhase. rewrite Hp.
  reflexivity.
Qed.

End ExtractorFacts.

(** C4. In the before-state capturing phase only a match of the first
    pattern, "Total Companies:", creates the snapshot; a match of a later
    pattern is attached to a snapshot that exists and dropped when there is
    none (the line then leaves no trace but in the collected output), so a
    stream without a first-pattern match never yields a snapshot. The
    example stream yields the six-field snapshot, the same
    stream without its "Total Companies:" line yields none. *)
Theorem C4_snapshot_created_by_first_pattern_only :
  (forall (c : Capture) (outputs : list string),
      capturedBeforeState c = None ->
      Forall (fun o => match_digits "Total Companies: " o = None) outputs ->
      capturedBeforeState (feed c (Log <$> outputs)) = None) /\
  (forall (c : Capture) (o m : string),
      currentPhase c = before_state_capturing ->
      capturedBeforeState c = None ->
      match_digits "Total Companies: " o = Some m ->
      exists snapshot,
        capturedBeforeState (consoleLog c o) = Some snapshot /\
        head snapshot = Some ("totalCompaniesTracked", m)) /\
  (forall (c : Capture) (o m : string),
      currentPhase c = before_state_capturing ->
      includes marker_before o = false ->
      includes marker_after o = false ->
      includes "Total Companies:" o = false ->
      includes "Global Compliance Score:" o = false ->
      match_digits "Compliant Companies: " o = Some m ->
      capturedBeforeState (consoleLog c o)
      = obj_set "compliantCompaniesCount" m <$> capturedBeforeState c) /\
  (forall (c : Capture) (o m : string),
      currentPhase c = before_state_capturing ->
      includes marker_before o = false ->
      includes marker_after o = false ->
      includes "Total Companies:" o = false ->
      includes "Compliant Companies:" o = false ->
      match_digits "Global Compliance Score: " o = Some m ->
      capturedBeforeState (consoleLog c o)
      = complete m "0" "initial-hash" <$> capturedBeforeState c) /\
  (forall (c : Capture) (o : string),
      currentPhase c = before_state_capturing ->
      capturedBeforeState c = None ->
      includes marker_before o = false ->
      includes marker_after o = false ->
      match_digits "Total Companies: " o = None ->
      consoleLog c o = append_stdout o c) /\
  capturedBeforeState (feed initial example_stream)
  = Some [ ("totalCompaniesTracked", "7"); ("compliantCompaniesCount", "5");
           ("globalComplianceScore", "80"); ("totalVerificationsGlobal", "0");
           ("registryVersion", "1"); ("companiesRootHash", "initial-hash") ] /\
  capturedBeforeState (feed initial example_stream_without_total) = None.
Proof.
  split; [exact (fun c outputs => feed_discards outputs c)|].
  split; [exact (fun c o m => consoleLog_creates o m c)|].
  split; [exact (fun c o m => consoleLog_compliant o m c)|].
  split; [exact (fun c o m => consoleLog_score o m c)|].
  split; [exact (fun c o => consoleLog_ignores o c)|].
  split; vm_compute; reflexivity.
Qed.

Lemma C4_witness :
  capturedBeforeState
    (feed (consoleLog initial marker_before)
       (Log <$> ["Compliant Companies: 5"; "Global Compliance Score: 80"])) = None /\
  (exists snapshot,
      capturedBeforeState
        (consoleLog (consoleLog initial marker_before) "Total Companies: 7") = Some snapshot /\
      head snapshot = Some ("totalCompaniesTracked", "7")) /\
  capturedBeforeState
    (consoleLog (consoleLog (consoleLog initial marker_before) "Total Companies: 7")
       "Compliant Companies: 5")
  = Some [ ("totalCompaniesTracked", "7"); ("compliantCompaniesCount", "5") ] /\
  capturedBeforeState
    (consoleLog (consoleLog initial marker_before) "Global Compliance Score: 80") = None /\
  consoleLog (consoleLog initial marker_before) "Compliant Companies: 5"
  = append_stdout "Compliant Companies: 5" (consoleLog initial marker_before).
Proof.
  destruct C4_snapshot_created_by_first_pattern_only as (H1 & H2 & H3 & H4 & H5 & _).
  split.
  { apply H1; [reflexivity|]. repeat constructor. }
  split.
  { apply H2; reflexivity. }
  split.
  { rewrite (H3 _ _ "5"); reflexivity. }
  split.
  { rewrite (H4 _ _ "80"); reflexivity. }
  apply H5; reflexivity.
Defined.

(** ** Broadcasting *)

Lemma forEach_send_spec (message : WireMsg) (cs : list Client) :
  forEach_send message cs = (None, map (deliver message) cs).
Proof.
  induction cs as [|c cs IH]; simpl; [reflexivity|].
  unfold ws_send, deliver, OPEN.
  destruct (Nat.eqb (readyState c) 1); rewrite IH; reflexivity.
Qed.

Lemma send_all_spec (message : WireMsg) (w : World) :
  send_all message w
  = (inr tt, with_clients (map (deliver message) (clients w)) w).
Proof. unfold send_all. rewrite forEach_send_spec. reflexivity. Qed.

Lemma json_error_job_update (j : Job) (t : Z) :
  json_error (job_update (id j) (status j) (progress j) (job_result j) (error j) t)
  = job_json_error j.
Proof. unfold job_json_error. simpl. destruct (job_result j); reflexivity. Qed.

(** A broadcast of a Job: the message goes to the clients, or
    [JSON.stringify] throws and nothing is sent. *)
Lemma broadcastJobUpdate_cases (job : nat) (j : Job) (w : World) :
  heap w !! job = Some j ->
  broadcastJobUpdate job w
  = match job_json_error j with
    | Some e => (inl (ErrorObj e), w)
    | None =>
        (inr tt,
         with_clients
           (map (deliver (job_update (id j) (status j) (progress j) (job_result j)
                            (error j) (now w))) (clients w)) w)
    end.
Proof.
  intros H. unfold broadcastJobUpdate. rewrite H. unfold bind, JSON_stringify.
  rewrite json_error_job_update. destruct (job_json_error j); [reflexivity|].
  apply send_all_spec.
Qed.

Lemma broadcastJobUpdate_spec (job : nat) (j : Job) (w : World) :
  heap w !! job = Some j ->
  job_json_error j = None ->
  broadcastJobUpdate job w
  = (inr tt,
     with_clients
       (map (deliver (job_update (id j) (status j) (progress j) (job_result j)
                        (error j) (now w))) (clients w)) w).
Proof. intros H E. rewrite (broadcastJobUpdate_cases job j w H), E. reflexivity. Qed.

(** A broadcast of the executor: an update that cannot be serialised is
    dropped. *)
Lemma broadcastExecutionUpdate_cases (u : ExecUpdate) (w : World) :
  broadcastExecutionUpdate u w
  = (inr tt,
     match update_json_error u with
     | Some _ => w
     | None => with_clients (map (deliver (execution_update u (now w))) (clients w)) w
     end).
Proof.
  unfold broadcastExecutionUpdate, try_catch, bind, JSON_stringify. simpl.
  destruct (update_json_error u); [reflexivity|]. unfold ret. rewrite send_all_spec.
  reflexivity.
Qed.

Lemma broadcastExecutionUpdate_spec (u : ExecUpdate) (w : World) :
  update_json_error u = None ->
  broadcastExecutionUpdate u w
  = (inr tt, with_clients (map (deliver (execution_update u (now w))) (clients w)) w).
Proof. intros E. rewrite broadcastExecutionUpdate_cases, E. reflexivity. Qed.

Lemma deliveries_deliver (message : WireMsg) (cs : list Client) :
  deliveries (map (deliver message) cs)
  = (deliveries cs + length (List.filter is_open cs))%nat.
Proof.
  unfold deliveries.
  induction cs as [|c cs IH]; simpl; [reflexivity|].
  rewrite IH. unfold deliver, is_open.
  destruct (Nat.eqb (readyState c) OPEN); simpl; [rewrite length_app; simpl|]; lia.
Qed.




(** ** What the executor changes, and that it does not throw *)

Lemma deliver_all_nil (cs : list Client) : map (deliver_all []) cs = cs.
Proof. induction cs as [|c cs IH]; simpl; [|rewrite IH]; reflexivity. Qed.

Lemma deliver_all_app (ms1 ms2 : list WireMsg) (cs : list Client) :
  map (deliver_all ms2) (map (deliver_all ms1) cs) = map (deliver_all (ms1 ++ ms2)) cs.
Proof.
  rewrite map_map. apply map_ext. intros c. unfold deliver_all.
  rewrite fold_left_app. reflexivity.
Qed.

Lemma deliver_all_one (m : WireMsg) (cs : list Client) :
  map (deliver m) cs = map (deliver_all [m]) cs.
Proof. reflexivity. Qed.

Lemma frame_refl (w : World) : executor_frame w w [].
Proof.
  unfold executor_frame. simpl. rewrite deliver_all_nil. repeat split; reflexivity.
Qed.

Lemma frame_trans (w w1 w2 : World) (us1 us2 : list ExecUpdate) :
  executor_frame w w1 us1 -> executor_frame w1 w2 us2 ->
  executor_frame w w2 (us1 ++ us2).
Proof.
  intros (H1 & H2 & H3 & H4 & H5 & H6) (K1 & K2 & K3 & K4 & K5 & K6).
  unfold executor_frame.
  rewrite K1, K2, K3, K4, K5, K6, H6, H4, deliver_all_app, map_app.
  repeat split; assumption.
Qed.

Create HintDb executor discriminated.

Lemma framed_ret {A} (a : A) : framed (ret a).
Proof. intros w. exists []. apply frame_refl. Qed.

Lemma framed_throw {A} (e : Thrown) : framed (@throw A e).
Proof. intros w. exists []. apply frame_refl. Qed.

Lemma framed_gets {A} (f : World -> A) : framed (gets f).
Proof. intros w. exists []. apply frame_refl. Qed.

Lemma framed_bind {A B} (m : M A) (k : A -> M B) :
  framed m -> (forall a, framed (k a)) -> framed (bind m k).
Proof.
  intros Hm Hk w. unfold bind. destruct (Hm w) as [us1 H1].
  destruct (m w) as [[e|a] w1]; simpl in H1.
  - exists us1. exact H1.
  - destruct (Hk a w1) as [us2 H2]. exists (us1 ++ us2).
    eapply frame_trans; eassumption.
Qed.

Lemma framed_try_catch {A} (m : M A) (h : Thrown -> M A) :
  framed m -> (forall e, framed (h e)) -> framed (try_catch m h).
Proof.
  intros Hm Hh w. unfold try_catch. destruct (Hm w) as [us1 H1].
  destruct (m w) as [[e|a] w1]; simpl in H1.
  - destruct (Hh e w1) as [us2 H2]. exists (us1 ++ us2).
    eapply frame_trans; eassumption.
  - exists us1. exact H1.
Qed.

Lemma framed_broadcastExecutionUpdate (u : ExecUpdate) :
  framed (broadcastExecutionUpdate u).
Proof.
  intros w. rewrite broadcastExecutionUpdate_cases. simpl.
  destruct (update_json_error u).
  - exists []. apply frame_refl.
  - exists [u]. unfold executor_frame. simpl. repeat split; reflexivity.
Qed.

Lemma framed_setTimeout (delay : Number) : framed (setTimeout delay).
Proof. intros w. exists []. unfold setTimeout, executor_frame. simpl.
  rewrite deliver_all_nil. repeat split; reflexivity. Qed.

Lemma framed_clearTimeout (h : nat) : framed (clearTimeout h).
Proof. intros w. exists []. unfold clearTimeout, modify, executor_frame. simpl.
  rewrite deliver_all_nil. repeat split; reflexivity. Qed.

Lemma framed_forM_ {A} (xs : list A) (f : A -> M unit) :
  (forall x, framed (f x)) -> framed (forM_ xs f).
Proof.
  intros Hf. induction xs as [|x xs IH]; simpl.
  - apply framed_ret.
  - apply framed_bind; [apply Hf | intros _; exact IH].
Qed.

#[local] Hint Resolve framed_ret framed_throw framed_gets framed_broadcastExecutionUpdate
  framed_setTimeout framed_clearTimeout : executor.
#[local] Hint Extern 2 (framed (bind _ _)) => apply framed_bind; [|intro] : executor.
#[local] Hint Extern 2 (framed (try_catch _ _)) => apply framed_try_catch; [|intro] : executor.
#[local] Hint Extern 2 (framed (forM_ _ _)) => apply framed_forM_; intro : executor.

Lemma total_ret {A} (a : A) : total (ret a).
Proof. intros w. exists a. reflexivity. Qed.

Lemma total_gets {A} (f : World -> A) : total (gets f).
Proof. intros w. exists (f w). reflexivity. Qed.

Lemma total_bind {A B} (m : M A) (k : A -> M B) :
  total m -> (forall a, total (k a)) -> total (bind m k).
Proof.
  intros Hm Hk w. unfold bind. destruct (Hm w) as [a Ha].
  destruct (m w) as [[e|a'] w1]; simpl in Ha; [discriminate|].
  apply Hk.
Qed.

Lemma total_try_catch {A} (m : M A) (h : Thrown -> M A) :
  (forall e, total (h e)) -> total (try_catch m h).
Proof.
  intros Hh w. unfold try_catch. destruct (m w) as [[e|a] w1].
  - apply Hh.
  - exists a. reflexivity.
Qed.

Lemma total_broadcastExecutionUpdate (u : ExecUpdate) :
  total (broadcastExecutionUpdate u).
Proof. intros w. exists tt. rewrite broadcastExecutionUpdate_cases. reflexivity. Qed.

Lemma total_setTimeout (delay : Number) : total (setTimeout delay).
Proof. intros w. eexists. reflexivity. Qed.

Lemma total_forM_ {A} (xs : list A) (f : A -> M unit) :
  (forall x, total (f x)) -> total (forM_ xs f).
Proof.
  intros Hf. induction xs as [|x xs IH]; simpl.
  - apply total_ret.
  - apply total_bind; [apply Hf | intros _; exact IH].
Qed.

#[local] Hint Resolve total_ret total_gets total_broadcastExecutionUpdate
  total_setTimeout : executor.
#[local] Hint Extern 2 (total (bind _ _)) => apply total_bind; [|intro] : executor.
#[local] Hint Extern 2 (total (try_catch _ _)) => apply total_try_catch; intro : executor.
#[local] Hint Extern 2 (total (forM_ _ _)) => apply total_forM_; intro : executor.

Section ExecutorFacts.

Variable env : Env.

Lemma framed_flush (c : Capture) : framed (flush c).
Proof. unfold flush. auto with executor. Qed.

Lemma total_flush (c : Capture) : total (flush c).
Proof. unfold flush. auto with executor. Qed.

Hint Resolve framed_flush total_flush : executor.

Lemma framed_executeDirectly_begin scriptPath parameters tool :
  framed (executeDirectly_begin env scriptPath parameters tool).
Proof. unfold executeDirectly_begin. auto 10 with executor. Qed.

Lemma total_executeDirectly_begin scriptPath parameters tool :
  total (executeDirectly_begin env scriptPath parameters tool).
Proof. unfold executeDirectly_begin. auto 10 with executor. Qed.

Lemma framed_executeIntegratedTool_begin tool parameters :
  framed (executeIntegratedTool_begin env tool parameters).
Proof.
  unfold executeIntegratedTool_begin, executeCompiledScript_begin.
  destruct (obj_get toolScriptMap tool); auto with executor.
  destruct (existsSync env _); auto using framed_executeDirectly_begin with executor.
Qed.

Lemma framed_executeTool_begin tool parameters :
  framed (executeTool_begin env tool parameters).
Proof.
  unfold executeTool_begin.
  auto 10 using framed_executeIntegratedTool_begin with executor.
Qed.

Lemma total_executeTool_begin tool parameters :
  total (executeTool_begin env tool parameters).
Proof. unfold executeTool_begin. auto 10 with executor. Qed.

Lemma framed_executeDirectly_resume startTime c timer ended :
  framed (executeDirectly_resume startTime c timer ended).
Proof.
  unfold executeDirectly_resume. destruct ended; auto 12 with executor.
Qed.

Lemma framed_awaited s rest :
  awaited env s = Some rest -> framed rest.
Proof.
  unfold awaited. destruct (awaiting s) as [e|scriptPath tool parameters c timer].
  - intros [= <-]. auto with executor.
  - destruct (direct_body env scriptPath parameters tool c) as [c1 [r|e|]];
      intros [= <-]; apply framed_executeDirectly_resume.
Qed.

Lemma framed_executeTool_resume s rest :
  executeTool_resume env s = Some rest -> framed rest.
Proof.
  unfold executeTool_resume. destruct (awaited env s) as [k|] eqn:E; [|discriminate].
  intros [= <-]. pose proof (framed_awaited s k E). auto 10 with executor.
Qed.

Lemma total_executeTool_resume s rest :
  executeTool_resume env s = Some rest -> total rest.
Proof.
  unfold executeTool_resume. destruct (awaited env s) as [k|]; [|discriminate].
  intros [= <-]. auto 10 with executor.
Qed.

End ExecutorFacts.

(** ** executeTool *)

Section ExecuteTool.

Variable env : Env.

(** Where the synchronous part of [executeTool] leaves the call. *)
Lemma executeTool_begin_awaiting (tool : string) (parameters : Params) (w : World) :
  exists s w1,
    executeTool_begin env tool parameters w = (inr s, w1) /\
    tool_startTime s = now w /\
    match obj_get toolScriptMap tool with
    | Undefined => awaiting s = AwaitRejected (ErrorObj (unknown_tool_message tool))
    | Inherited => awaiting s = AwaitRejected (path_join_type_error env tool)
    | Own scriptFile =>
        if existsSync env (compiledScriptPath env scriptFile)
        then exists c timer,
            awaiting s = AwaitImport (compiledScriptPath env scriptFile) tool parameters c timer
        else awaiting s
             = AwaitRejected (ErrorObj (not_found_message (compiledScriptPath env scriptFile)))
    end.
Proof.
  unfold executeTool_begin, executeIntegratedTool_begin, executeCompiledScript_begin,
    compiledScriptPath.
  destruct (obj_get toolScriptMap tool) as [scriptFile| |].
  - destruct (existsSync env _) eqn:E.
    + unfold executeDirectly_begin, bind, gets, try_catch, setTimeout.
      rewrite broadcastExecutionUpdate_spec by reflexivity.
      match goal with |- context [flush ?c ?w'] =>
        destruct (total_flush c w') as [c1 Hc1];
        destruct (flush c w') as [[e|c1'] w2]; simpl in Hc1; [discriminate|]
      end.
      simpl. do 2 eexists. split; [reflexivity|]. split; [reflexivity|].
      simpl. eauto.
    + unfold bind, gets, try_catch, throw, ret. simpl.
      do 2 eexists. repeat split; reflexivity.
  - unfold bind, gets, try_catch, throw, ret. simpl.
    do 2 eexists. repeat split; reflexivity.
  - unfold bind, gets, try_catch, throw, ret. simpl.
    do 2 eexists. repeat split; reflexivity.
Qed.

(** How the awaited call ends does not depend on the console capture. *)
Lemma direct_body_end (scriptPath : string) (parameters : Params) (tool : string)
    (c c' : Capture) :
  snd (direct_body env scriptPath parameters tool c)
  = snd (direct_body env scriptPath parameters tool c').
Proof.
  unfold direct_body.
  destruct (import env _) as [m|e|]; try reflexivity.
  destruct (assoc tool direct_cases) as [dc|]; [|reflexivity].
  destruct (assoc (fn_name dc) m) as [f|].
  - destruct (cap_end (f parameters)); reflexivity.
  - destruct (announce dc); reflexivity.
Qed.

Lemma direct_body_throws (scriptPath : string) (parameters : Params) (tool : string)
    (c : Capture) (m : ScriptModule) (dc : DirectCase) (f : Params -> CapRun) (e : Thrown) :
  import env (pathToFileURL_href env scriptPath) = Fulfilled m ->
  assoc tool direct_cases = Some dc ->
  assoc (fn_name dc) m = Some f ->
  cap_end (f parameters) = CapThrows e ->
  snd (direct_body env scriptPath parameters tool c) = RejectedWith e.
Proof.
  intros Hi Hd Hf He. unfold direct_body. rewrite Hi, Hd, Hf, He. reflexivity.
Qed.

Lemma framed_now {A} (m : M A) (w : World) :
  framed m -> now (snd (m w)) = now w.
Proof. intros H. destruct (H w) as (us & _ & _ & _ & Hnow & _). exact Hnow. Qed.

Lemma executeDirectly_resume_throws (startTime : Z) (c1 : Capture) (timer : nat)
    (e : Thrown) (w : World) :
  fst (executeDirectly_resume startTime c1 timer (inl e) w) = inl e.
Proof.
  unfold executeDirectly_resume, bind.
  destruct (total_flush c1 w) as [c2 H].
  destruct (flush c1 w) as [[e1|c2'] w1]; simpl in H; [discriminate|].
  unfold try_catch, throw, bind. rewrite broadcastExecutionUpdate_spec by reflexivity. reflexivity.
Qed.

(** A rejected awaited promise ends [executeTool] in its [catch] block. *)
Lemma executeTool_resume_rejected (s : Suspended) (e : Thrown) (w : World) :
  rejection env s = Some e ->
  exists rest w',
    executeTool_resume env s = Some rest /\
    rest w = (inr (failure_record e (tool_startTime s) (now w)), w').
Proof.
  unfold rejection, executeTool_resume, awaited.
  destruct (awaiting s) as [e0|scriptPath tool parameters c timer].
  - intros [= ->]. do 2 eexists. split; [reflexivity|].
    unfold try_catch, bind, throw, gets, ret. reflexivity.
  - destruct (direct_body env scriptPath parameters tool c) as [c1 [r|e0|]];
      simpl; try discriminate.
    intros [= ->].
    pose proof (executeDirectly_resume_throws (direct_startTime s) c1 timer e w) as Hthrow.
    pose proof (framed_now _ w
                  (framed_executeDirectly_resume (direct_startTime s) c1 timer (inl e)))
      as Hnow.
    destruct (executeDirectly_resume (direct_startTime s) c1 timer (inl e) w)
      as [[e1|a] w1] eqn:K; simpl in Hthrow, Hnow; [|discriminate].
    injection Hthrow as ->.
    do 2 eexists. split; [reflexivity|].
    unfold try_catch, bind. rewrite K. unfold gets, ret, failure_record. simpl.
    rewrite Hnow. reflexivity.
Qed.

End ExecuteTool.




(** ** The job manager, statement by statement *)

Lemma bind_eq {A B} (m : M A) (k : A -> M B) (w : World) (a : A) (w1 : World) :
  m w = (inr a, w1) -> bind m k w = k a w1.
Proof. intros H. unfold bind. rewrite H. reflexivity. Qed.

Lemma try_catch_eq {A} (m : M A) (h : Thrown -> M A) (w : World) (a : A) (w1 : World) :
  m w = (inr a, w1) -> try_catch m h w = (inr a, w1).
Proof. intros H. unfold try_catch. rewrite H. reflexivity. Qed.

Lemma alter_alter {A} (f g : A -> A) (i : nat) (l : list A) :
  alter f i (alter g i l) = alter (fun x => f (g x)) i l.
Proof.
  revert i. induction l as [|x l IH]; intros [|i]; simpl; try reflexivity.
  f_equal. apply IH.
Qed.

Lemma update_job_spec (job : nat) (f : Job -> Job) (w : World) :
  update_job job f w = (inr tt, with_heap (alter f job (heap w)) w).
Proof. reflexivity. Qed.

Section JobManagerFacts.

Variable env : Env.

Lemma createJob_spec (jobId tool : string) (params : Params) (w : World) :
  createJob jobId tool params w
  = (inr (length (heap w)),
     with_clients
       (map (deliver (job_update_of (new_job jobId tool params (now w)) (now w)))
          (clients w))
       (with_jobs (<[jobId := length (heap w)]> (jobs w))
          (with_heap (heap w ++ [new_job jobId tool params (now w)]) w))).
Proof.
  unfold createJob, bind, gets, modify, ret. simpl.
  erewrite broadcastJobUpdate_spec
    by (first [simpl; apply list_lookup_middle; reflexivity | reflexivity]).
  reflexivity.
Qed.

Lemma processJob_begin_spec (job : nat) (j : Job) (w : World) :
  heap w !! job = Some j ->
  job_json_error j = None ->
  exists call us w2,
    processJob_begin env job w = (inr tt, w2) /\
    heap w2 = alter started job (heap w) /\
    jobs w2 = jobs w /\
    tasks w2 = tasks w ++ [ {| task_job := job; task_startTime := now w; task_call := call |} ] /\
    now w2 = now w /\
    crashed w2 = crashed w /\
    clients w2
    = map (deliver_all
             ([ job_update_of (set_progress 0 (set_status running j)) (now w);
                job_update_of (started j) (now w) ]
              ++ map (fun u => execution_update u (now w)) us))
        (clients w).
Proof.
  intros Hj Hser. unfold processJob_begin.
  unfold bind at 1. unfold try_catch at 1.
  erewrite bind_eq by apply update_job_spec.
  erewrite bind_eq by apply update_job_spec.
  erewrite bind_eq
    by (apply broadcastJobUpdate_spec;
        [simpl; rewrite !list_lookup_alter_eq, Hj; reflexivity|exact Hser]).
  erewrite bind_eq by apply update_job_spec.
  erewrite bind_eq
    by (apply broadcastJobUpdate_spec;
        [simpl; rewrite !list_lookup_alter_eq, Hj; reflexivity|exact Hser]).
  erewrite bind_eq by reflexivity.
  erewrite bind_eq by reflexivity.
  simpl. rewrite !list_lookup_alter_eq, Hj. simpl.
  match goal with |- context [bind (executeTool_begin env ?t ?p) _ ?w1] =>
    destruct (total_executeTool_begin env t p w1) as [call Hcall];
    destruct (framed_executeTool_begin env t p w1) as [us Hfr];
    destruct (executeTool_begin env t p w1) as [[e|call'] w2] eqn:E;
      simpl in Hcall; [discriminate|];
    rewrite (bind_eq _ _ w1 call' w2 E)
  end.
  injection Hcall as ->. simpl in Hfr.
  destruct Hfr as (H1 & H2 & H3 & H4 & H5 & H6).
  erewrite bind_eq by reflexivity.
  unfold ret. simpl.
  exists call, us. eexists. split; [reflexivity|]. simpl.
  rewrite H1, H2, H3, H4, H5, H6. simpl.
  rewrite !alter_alter.
  repeat split; try reflexivity.
  rewrite !deliver_all_one, !deliver_all_app. reflexivity.
Qed.

Lemma processJob_resume_spec (t : Task) (rest : M ToolExecutionResult) (j : Job)
    (w : World) :
  framed rest ->
  heap w !! task_job t = Some j ->
  exists j' us w2,
    processJob_resume t rest w
    = (match job_json_error j' with
       | Some e => inl (ErrorObj e)
       | None => inr tt
       end, w2) /\
    j' = match fst (rest w) with
         | inr r => finished r (task_startTime t) (now w) j
         | inl e => caught e (now w) j
         end /\
    heap w2 = <[task_job t := j']> (heap w) /\
    jobs w2 = jobs w /\
    tasks w2 = tasks w /\
    now w2 = now w /\
    crashed w2 = crashed w /\
    clients w2
    = map (deliver_all (map (fun u => execution_update u (now w)) us
                        ++ match job_json_error j' with
                           | Some _ => []
                           | None => [job_update_of j' (now w)]
                           end))
        (clients w).
Proof.
  intros Hfr Hj. destruct (Hfr w) as [us (H1 & H2 & H3 & H4 & H5 & H6)].
  assert (Hins : forall f : Job -> Job,
             alter f (task_job t) (heap w) = <[task_job t := f j]> (heap w)).
  { intros f. apply list_eq. intros i.
    destruct (decide (task_job t = i)) as [<-|Hne].
    - rewrite list_lookup_alter_eq, Hj. simpl.
      symmetry. apply list_lookup_insert_eq. eapply lookup_lt_Some, Hj.
    - rewrite list_lookup_alter_ne, list_lookup_insert_ne by exact Hne. reflexivity. }
  unfold processJob_resume.
  destruct (rest w) as [[e|r] w1] eqn:R; simpl in H1, H2, H3, H4, H5, H6; simpl fst.
  - exists (caught e (now w) j), us.
    unfold bind at 1. unfold try_catch at 1. unfold bind at 1. rewrite R.
    unfold processJob_catch.
    erewrite bind_eq by apply update_job_spec.
    erewrite bind_eq by apply update_job_spec.
    erewrite bind_eq by reflexivity.
    rewrite update_job_spec.
    erewrite broadcastJobUpdate_cases
      by (simpl; rewrite !list_lookup_alter_eq, H1, Hj; reflexivity).
    match goal with |- context [job_json_error ?x] =>
      change (job_json_error x) with (job_json_error (caught e (now w) j))
    end.
    destruct (job_json_error (caught e (now w) j)) as [e'|].
    + eexists. split; [reflexivity|]. simpl.
      rewrite !alter_alter, H1, H2, H3, H4, H5, H6, Hins, app_nil_r.
      repeat split; reflexivity.
    + eexists. split; [reflexivity|]. simpl.
      rewrite !alter_alter, H1, H2, H3, H4, H5, H6, Hins.
      repeat split; try reflexivity.
      rewrite deliver_all_one, deliver_all_app. reflexivity.
  - exists (finished r (task_startTime t) (now w) j), us.
    unfold bind at 1. unfold try_catch at 1.
    erewrite bind_eq by exact R.
    erewrite bind_eq by reflexivity.
    erewrite bind_eq by apply update_job_spec.
    erewrite bind_eq by apply update_job_spec.
    erewrite bind_eq by apply update_job_spec.
    rewrite update_job_spec.
    erewrite broadcastJobUpdate_cases
      by (simpl; rewrite !list_lookup_alter_eq, H1, Hj; reflexivity).
    match goal with |- context [job_json_error ?x] =>
      change (job_json_error x)
        with (job_json_error (finished r (task_startTime t) (now w) j))
    end.
    destruct (job_json_error (finished r (task_startTime t) (now w) j)) as [e'|].
    + eexists. split; [reflexivity|]. simpl.
      rewrite !alter_alter, H1, H2, H3, H4, H5, H6, Hins, app_nil_r.
      repeat split; reflexivity.
    + eexists. split; [reflexivity|]. simpl.
      rewrite !alter_alter, H1, H2, H3, H4, H5, H6, Hins.
      repeat split; try reflexivity.
      rewrite deliver_all_one, deliver_all_app. reflexivity.
Qed.

Lemma startJob_spec (jobId tool : string) (params : Params) (w : World) :
  exists call us w2,
    startJob env jobId tool params w = (inr (length (heap w)), w2) /\
    heap w2 = heap w ++ [started (new_job jobId tool params (now w))] /\
    jobs w2 = <[jobId := length (heap w)]> (jobs w) /\
    tasks w2 = tasks w ++ [ {| task_job := length (heap w); task_startTime := now w;
                               task_call := call |} ] /\
    now w2 = now w /\
    crashed w2 = crashed w /\
    clients w2
    = map (deliver_all
             ([ job_update_of (new_job jobId tool params (now w)) (now w);
                job_update_of (set_progress 0 (set_status running
                                 (new_job jobId tool params (now w)))) (now w);
                job_update_of (started (new_job jobId tool params (now w))) (now w) ]
              ++ map (fun u => execution_update u (now w)) us))
        (clients w).
Proof.
  unfold startJob.
  erewrite bind_eq by apply createJob_spec.
  match goal with |- context [bind (try_catch (processJob_begin env ?job) ?h) _ ?w1] =>
    destruct (processJob_begin_spec job (new_job jobId tool params (now w)) w1)
      as (call & us & w2 & Hb & H1 & H2 & H3 & H4 & H5 & H6);
      [simpl; apply list_lookup_middle; reflexivity|reflexivity|];
    erewrite bind_eq by (apply try_catch_eq; exact Hb)
  end.
  exists call, us, w2. split; [reflexivity|].
  rewrite H1, H2, H3, H4, H5, H6. simpl.
  repeat split; try reflexivity.
  - rewrite alter_app_r_alt by lia. rewrite Nat.sub_diag. reflexivity.
  - rewrite deliver_all_one, deliver_all_app. reflexivity.
Qed.

Lemma snd_bind_ret {A B} (m : M A) (b : B) (w : World) :
  snd (bind m (fun _ => ret b) w) = snd (m w).
Proof. unfold bind, ret. destruct (m w) as [[e|a] w1]; reflexivity. Qed.

Lemma find_task_Some (job : nat) (ts : list Task) (t : Task) :
  find_task job ts = Some t -> In t ts /\ task_job t = job.
Proof.
  unfold find_task. intros H. apply find_some in H as [Hin Heq].
  split; [exact Hin|]. apply Nat.eqb_eq, Heq.
Qed.

(** What a turn does to the Job objects, the registry and the suspended
    calls, event by event. *)
Lemma turn_cases (w : World) (ev : Event) (ws : list World) :
  lifecycle_ok w ->
  turn env w ev = Some ws ->
  crashed w = None /\
  ((exists jobId tool params call w1 w2,
       ev = StartJob jobId tool params /\ ws = [w1; w2] /\
       createJob jobId tool params w = (inr (length (heap w)), w1) /\
       startJob env jobId tool params w = (inr (length (heap w)), w2) /\
       heap w1 = heap w ++ [new_job jobId tool params (now w)] /\
       heap w2 = heap w ++ [started (new_job jobId tool params (now w))] /\
       jobs w1 = <[jobId := length (heap w)]> (jobs w) /\
       jobs w2 = <[jobId := length (heap w)]> (jobs w) /\
       tasks w1 = tasks w /\
       tasks w2 = tasks w ++ [ {| task_job := length (heap w); task_startTime := now w;
                                  task_call := call |} ] /\
       crashed w2 = None) \/
   (exists job t rest r j w2,
       ev = Resume job /\ ws = [w2] /\
       find_task job (tasks w) = Some t /\
       executeTool_resume env (task_call t) = Some rest /\
       heap w !! job = Some j /\ status j = running /\
       heap w2 = <[job := finished r (task_startTime t) (now w) j]> (heap w) /\
       jobs w2 = jobs w /\
       tasks w2 = remove_task job (tasks w) /\
       crashed w2 = ErrorObj <$> tool_json_error r /\
       fst (rest (with_tasks (remove_task job (tasks w)) w)) = inr r) \/
   (exists w',
       ws = [w'] /\ heap w' = heap w /\ tasks w' = tasks w /\
       (jobs w' = jobs w \/ (ev = ClearCompletedJobs /\ w' = clearCompletedJobs w)))).
Proof.
  intros [Hjobs Htasks]. unfold turn.
  destruct (crashed w) as [e|] eqn:Hc; [discriminate|].
  intros Hturn. split; [reflexivity|].
  destruct ev as [jobId tool params|job|timer| |ms| |client state].
  - left.
    destruct (startJob_spec jobId tool params w)
      as (call & us & w2 & Hs & H1 & H2 & H3 & H4 & H5 & H6).
    rewrite createJob_spec in Hturn. injection Hturn as <-.
    exists jobId, tool, params, call. do 2 eexists.
    split; [reflexivity|]. split; [reflexivity|].
    split; [apply createJob_spec|].
    assert (Hw2 : snd (try_catch (processJob_begin env (length (heap w))) unhandledRejection
                         (snd (createJob jobId tool params w))) = w2).
    { unfold startJob in Hs. unfold bind at 1 in Hs.
      destruct (createJob jobId tool params w) as [[e|job] w1] eqn:Hcj; [discriminate|].
      rewrite createJob_spec in Hcj. injection Hcj as <- <-.
      rewrite <- snd_bind_ret with (b := length (heap w)).
      simpl. rewrite Hs. reflexivity. }
    rewrite createJob_spec in Hw2. simpl in Hw2. rewrite Hw2.
    rewrite Hs, H1, H2, H3, H5, Hc. repeat split; reflexivity.
  - right. left.
    destruct (find_task job (tasks w)) as [t|] eqn:Hfind; [|discriminate].
    destruct (executeTool_resume env (task_call t)) as [rest|] eqn:Hrest; [|discriminate].
    injection Hturn as <-.
    destruct (find_task_Some _ _ _ Hfind) as [Hin Hjob].
    destruct (Htasks t Hin) as (j & Hj & Hrun). rewrite Hjob in Hj.
    set (w0 := with_tasks (remove_task job (tasks w)) w).
    destruct (processJob_resume_spec t rest j w0
                (framed_executeTool_resume env _ _ Hrest))
      as (j' & us & w2 & Hp & Hj' & H1 & H2 & H3 & H4 & H5 & H6).
    { rewrite Hjob. exact Hj. }
    destruct (total_executeTool_resume env _ _ Hrest w0) as [r Hr].
    rewrite Hr in Hj'. rewrite Hp.
    subst w0. simpl in H1, H2, H3, H4, H5, Hj'.
    exists job, t, rest, r, j.
    exists (finish (match job_json_error j' with
                    | Some e => inl (ErrorObj e)
                    | None => inr tt
                    end, w2)).
    assert (Hje : job_json_error j' = tool_json_error r) by (rewrite Hj'; reflexivity).
    rewrite Hje.
    destruct (tool_json_error r) as [e|]; simpl;
      rewrite H1, H2, H3, ?H5, Hj', Hjob, ?Hc;
      repeat split; try reflexivity; try assumption;
      rewrite <- Hjob; exact Hr.
  - right. right.
    destruct (assoc_nat timer (timers w)) as [deadline|]; [|discriminate].
    destruct (deadline <=? now w); [|discriminate].
    injection Hturn as <-. eexists. split; [reflexivity|]. simpl. auto.
  - right. right. injection Hturn as <-. eexists. split; [reflexivity|]. simpl. auto.
  - right. right. destruct (0 <=? ms); [|discriminate].
    injection Hturn as <-. eexists. split; [reflexivity|]. simpl. auto.
  - right. right. injection Hturn as <-. eexists. split; [reflexivity|]. simpl. auto.
  - right. right. injection Hturn as <-. eexists. split; [reflexivity|]. simpl. auto.
Qed.

Lemma status_started (j : Job) : status (started j) = running.
Proof. reflexivity. Qed.

Lemma lifecycle_ok_initial (t : Z) : lifecycle_ok (initial_world t).
Proof.
  split.
  - intros job j H. simpl in H. rewrite lookup_nil in H. discriminate.
  - intros t0 [].
Qed.

Lemma lifecycle_ok_turn (w : World) (ev : Event) (ws : list World) :
  lifecycle_ok w ->
  turn env w ev = Some ws ->
  lifecycle_ok (List.last ws w).
Proof.
  intros Hok Hturn. pose proof Hok as [Hjobs Htasks].
  destruct (turn_cases w ev ws Hok Hturn) as [_ [Hcase|[Hcase|Hcase]]].
  - destruct Hcase as (jobId & tool & params & call & w1 & w2 & -> & -> & _ & _ & _ &
                       Hh & _ & _ & _ & Ht & _).
    simpl. split.
    + intros job j. rewrite Hh, lookup_app_Some. intros [Hold|[_ Hnew]].
      * eapply Hjobs, Hold.
      * destruct (job - length (heap w))%nat; simpl in Hnew; [|discriminate].
        injection Hnew as <-. left. split; reflexivity.
    + intros t. rewrite Ht, Hh, in_app_iff. intros [Hold|[<-|[]]].
      * destruct (Htasks t Hold) as (j & Hj & Hrun). exists j.
        split; [apply lookup_app_l_Some, Hj | exact Hrun].
      * simpl. eexists. split; [apply list_lookup_middle; reflexivity | reflexivity].
  - destruct Hcase as (job & t & rest & r & j & w2 & -> & -> & _ & _ & Hj & _ &
                       Hh & _ & Ht & _).
    simpl. split.
    + intros job' j'. rewrite Hh, list_lookup_insert_Some.
      intros [(-> & <- & _)|[_ Hold]].
      * right. split; [reflexivity | eexists; reflexivity].
      * eapply Hjobs, Hold.
    + intros t'. rewrite Ht, Hh. unfold remove_task. rewrite filter_In.
      intros [Hin Hne]. apply negb_true_iff, Nat.eqb_neq in Hne.
      destruct (Htasks t' Hin) as (j' & Hj' & Hrun). exists j'.
      split; [|exact Hrun]. rewrite list_lookup_insert_ne by auto. exact Hj'.
  - destruct Hcase as (w' & -> & Hh & Ht & _). simpl. split.
    + intros job j. rewrite Hh. apply Hjobs.
    + intros t. rewrite Ht, Hh. apply Htasks.
Qed.

Lemma step_turn (w : World) (ev : Event) (w' : World) :
  step env w ev = Some w' ->
  exists ws, turn env w ev = Some ws /\ w' = List.last ws w.
Proof.
  unfold step. destruct (turn env w ev) as [ws|]; [|discriminate].
  intros [= <-]. eauto.
Qed.

Lemma lifecycle_ok_reachable (w : World) : reachable env w -> lifecycle_ok w.
Proof.
  induction 1 as [t|w ev w' _ IH Hstep].
  - apply lifecycle_ok_initial.
  - destruct (step_turn _ _ _ Hstep) as (ws & Hturn & ->).
    eapply lifecycle_ok_turn; eassumption.
Qed.

Lemma registry_ok_initial (t : Z) : registry_ok (initial_world t).
Proof.
  split; simpl; intros *; rewrite lookup_empty; discriminate.
Qed.

Lemma registry_ok_insert (w w' : World) (jobId : string) (j : Job) :
  registry_ok w ->
  jobs w' = <[jobId := length (heap w)]> (jobs w) ->
  heap w' = heap w ++ [j] ->
  registry_ok w'.
Proof.
  intros [Hvalid Hinj] Hj Hh. split.
  - intros k r. rewrite Hj, Hh, length_app, lookup_insert_Some. simpl.
    intros [[_ <-]|[_ Hold]]; [lia|]. apply Hvalid in Hold. lia.
  - intros k1 k2 r. rewrite Hj, !lookup_insert_Some.
    intros [[<- <-]|[Hn1 H1]] [[<- Heq]|[Hn2 H2]].
    + reflexivity.
    + apply Hvalid in H2. lia.
    + subst r. apply Hvalid in H1. lia.
    + eapply Hinj; eassumption.
Qed.

Lemma registry_ok_turn (w : World) (ev : Event) (ws : list World) :
  lifecycle_ok w ->
  registry_ok w ->
  turn env w ev = Some ws ->
  registry_ok (List.last ws w).
Proof.
  intros Hok Hreg Hturn. pose proof Hreg as [Hvalid Hinj].
  destruct (turn_cases w ev ws Hok Hturn) as [_ [Hcase|[Hcase|Hcase]]].
  - destruct Hcase as (jobId & tool & params & call & w1 & w2 & -> & -> & _ & _ & _ &
                       Hh & _ & Hj & _).
    simpl. eapply registry_ok_insert; eassumption.
  - destruct Hcase as (job & t & rest & r & j & w2 & -> & -> & _ & _ & _ & _ &
                       Hh & Hj & _).
    simpl. split.
    + intros k r0. rewrite Hj, Hh, length_insert. apply Hvalid.
    + intros k1 k2 r0. rewrite Hj. apply Hinj.
  - destruct Hcase as (w' & -> & Hh & _ & [Hj|[_ ->]]); simpl.
    + split.
      * intros k r. rewrite Hj, Hh. apply Hvalid.
      * intros k1 k2 r. rewrite Hj. apply Hinj.
    + split; simpl.
      * intros k r. rewrite map_lookup_filter_Some. intros [H _]. eapply Hvalid, H.
      * intros k1 k2 r. rewrite !map_lookup_filter_Some.
        intros [H1 _] [H2 _]. eapply Hinj; eassumption.
Qed.

Lemma registry_ok_reachable (w : World) : reachable env w -> registry_ok w.
Proof.
  induction 1 as [t|w ev w' Hw IH Hstep].
  - apply registry_ok_initial.
  - destruct (step_turn _ _ _ Hstep) as (ws & Hturn & ->).
    eapply registry_ok_turn; try eassumption. apply lifecycle_ok_reachable, Hw.
Qed.

End JobManagerFacts.

Lemma deliver_all_open (ms : list WireMsg) (c : Client) :
  is_open c = true ->
  deliver_all ms c = {| readyState := readyState c; inbox := inbox c ++ ms |}.
Proof.
  unfold deliver_all. revert c. induction ms as [|m ms IH]; intros c Hc; simpl.
  - rewrite app_nil_r. destruct c; reflexivity.
  - rewrite IH.
    + unfold deliver. fold (is_open c). rewrite Hc. simpl.
      rewrite <- app_assoc. reflexivity.
    + unfold deliver. fold (is_open c). rewrite Hc. exact Hc.
Qed.

(** ** startJob *)

(** C5, as the claim states it, fails: the Job that [startJob] returns has
    the status 'running' (and the progress 10) when [startJob] returns,
    because [processJob] has run up to its [await] on the same object. *)
Lemma C5_counterexample :
  exists job w,
    startJob (demo_env (gleif_module (CapReturns None)) true) "j1" gleif []
      (initial_world 1000) = (inr job, w) /\
    status_of w job = Some running /\
    status_of w job <> Some pending.
Proof.
  eexists _, _. split; [vm_compute; reflexivity|].
  split; [reflexivity | discriminate].
Qed.

(** C5, amended. [startJob] creates the Job with the status 'pending',
    registers it under its id and broadcasts it so: every client whose
    socket is open is handed the [job_update] with the status 'pending'. It
    then runs [processJob] up to its [await] and returns without waiting
    for the tool: the Job it returns is registered and not in a terminal
    state, its status is already 'running', its progress 10, it has neither
    [endTime] nor result, and its [processJob] is suspended. *)
Theorem C5_startJob_returns_the_running_job
    (env : Env) (jobId tool : string) (params : Params) (w : World) :
  exists job w1 w2 j,
    createJob jobId tool params w = (inr job, w1) /\
    status_of w1 job = Some pending /\
    getJob w1 jobId = Some job /\
    clients w1
    = map (deliver (job_update jobId pending None None None (now w))) (clients w) /\
    startJob env jobId tool params w = (inr job, w2) /\
    getJob w2 jobId = Some job /\
    (forall i c,
        clients w !! i = Some c -> is_open c = true ->
        exists c' later,
          clients w2 !! i = Some c' /\
          inbox c' = inbox c ++ job_update jobId pending None None None (now w) :: later) /\
    heap w2 !! job = Some j /\
    status j = running /\ progress j = Some 10 /\
    endTime j = None /\ job_result j = None /\ error j = None /\
    (exists t, In t (tasks w2) /\ task_job t = job).
Proof.
  destruct (startJob_spec env jobId tool params w)
    as (call & us & w2 & Hs & Hh & Hj & Ht & _ & _ & Hc).
  exists (length (heap w)). eexists. exists w2. eexists.
  split; [apply createJob_spec|].
  split; [unfold status_of; simpl; rewrite list_lookup_middle by reflexivity; reflexivity|].
  split; [apply lookup_insert_eq|].
  split; [reflexivity|].
  split; [exact Hs|].
  split; [unfold getJob; rewrite Hj; apply lookup_insert_eq|].
  split.
  { intros i c Hi Hopen. eexists. eexists.
    split; [rewrite Hc, list_lookup_fmap, Hi; cbn [fmap option_fmap option_map];
            rewrite (deliver_all_open _ c Hopen); reflexivity|].
    reflexivity. }
  split; [rewrite Hh; apply list_lookup_middle; reflexivity|].
  repeat (split; [reflexivity|]).
  eexists. rewrite Ht, in_app_iff. split; [right; left; reflexivity | reflexivity].
Qed.

(** C10. A [startJob] with the id of a Job that is in the registry ends
    normally and puts the new Job, created pending, in the place of the old
    one: [getJob] then answers with the new Job, and no id and no listing
    leads to the old Job any more. *)
Theorem C10_startJob_replaces_the_job_of_the_same_id
    (env : Env) (w : World) (jobId tool : string) (params : Params) (old : nat) :
  reachable env w ->
  getJob w jobId = Some old ->
  exists new w1 w2,
    createJob jobId tool params w = (inr new, w1) /\
    getJob w1 jobId = Some new /\
    heap w1 !! new = Some (new_job jobId tool params (now w)) /\
    startJob env jobId tool params w = (inr new, w2) /\
    new <> old /\
    getJob w2 jobId = Some new /\
    id <$> heap w2 !! new = Some jobId /\
    (forall k, getJob w2 k <> Some old) /\
    ~ In old (getAllJobs w2).
Proof.
  intros Hreach Hold. destruct (registry_ok_reachable env w Hreach) as [Hvalid Hinj].
  destruct (startJob_spec env jobId tool params w)
    as (call & us & w2 & Hs & Hh & Hj & _).
  pose proof (Hvalid _ _ Hold) as Hlt. unfold getJob in *.
  assert (Hnone : forall k, jobs w2 !! k <> Some old).
  { intros k. rewrite Hj, lookup_insert_Some. intros [[_ Heq]|[Hne Hk]]; [lia|].
    apply Hne. eapply Hinj; eassumption. }
  exists (length (heap w)). eexists. exists w2.
  split; [apply createJob_spec|]. simpl.
  split; [apply lookup_insert_eq|].
  split; [apply list_lookup_middle; reflexivity|].
  split; [exact Hs|].
  split; [lia|].
  split; [rewrite Hj; apply lookup_insert_eq|].
  split; [rewrite Hh, list_lookup_middle by reflexivity; reflexivity|].
  split; [exact Hnone|].
  unfold getAllJobs. rewrite <- list_elem_of_In, list_elem_of_fmap.
  intros ([k r] & -> & Hin). apply elem_of_map_to_list in Hin. eapply Hnone, Hin.
Qed.

Lemma C10_witness :
  exists new w2,
    startJob (demo_env (gleif_module (CapReturns None)) true) "j1" gleif []
      (snd (startJob (demo_env (gleif_module (CapReturns None)) true) "j1" gleif []
              (initial_world 1000)))
    = (inr new, w2) /\
    new <> 0%nat /\ getJob w2 "j1" = Some new /\ ~ In 0%nat (getAllJobs w2).
Proof.
  destruct (C10_startJob_replaces_the_job_of_the_same_id
              (demo_env (gleif_module (CapReturns None)) true)
              (snd (startJob (demo_env (gleif_module (CapReturns None)) true) "j1" gleif []
                      (initial_world 1000)))
              "j1" gleif [] 0%nat)
    as (new & w1 & w2 & _ & _ & _ & Hs & Hne & Hget & _ & _ & Hall).
  - apply (reachable_step _ (initial_world 1000) (StartJob "j1" gleif []));
      [apply reachable_initial | vm_compute; reflexivity].
  - vm_compute. reflexivity.
  - exists new, w2. auto.
Defined.

(** ** Unknown tools *)

Lemma prefix_refl_app (a b : string) : String.prefix a (a +:+ b) = true.
Proof.
  induction a as [|c a IH]; simpl; [destruct b; reflexivity|].
  destruct (Ascii.ascii_dec c c); [exact IH | congruence].
Qed.

Lemma includes_app_r (needle a b : string) :
  includes needle b = true -> includes needle (a +:+ b) = true.
Proof.
  intros H. induction a as [|c a IH]; simpl; [exact H|].
  apply includes_later, IH.
Qed.

Lemma catalog_names : map fst toolScriptMap = getAvailableTools.
Proof. reflexivity. Qed.

(** The message of the unknown-tool error names every tool of the catalog. *)
Lemma unknown_tool_message_enumerates (tool : string) :
  Forall (fun name => includes name (unknown_tool_message tool) = true) getAvailableTools.
Proof.
  unfold unknown_tool_message.
  rewrite Forall_forall. intros name Hin.
  do 3 apply includes_app_r. revert name Hin. rewrite <- Forall_forall.
  repeat constructor; vm_compute; reflexivity.
Qed.

(** ** The life of a Job *)

Section Lifecycle.

Variable env : Env.

Lemma changes_same {A} `{EqDecision A} (prev : option A) (seen : list (option A)) :
  changes prev (prev :: seen) = changes prev seen.
Proof.
  destruct prev as [a|]; simpl; [|reflexivity].
  destruct (decide (Some a = Some a)); [reflexivity | congruence].
Qed.

Lemma status_of_app_old (w w' : World) (job : nat) (extra : list Job) :
  heap w' = heap w ++ extra ->
  (job < length (heap w))%nat ->
  status_of w' job = status_of w job.
Proof. intros Hh Hlt. unfold status_of. rewrite Hh, lookup_app_l by exact Hlt. reflexivity. Qed.

Lemma status_of_absent (w : World) (job : nat) :
  (length (heap w) <= job)%nat -> status_of w job = None.
Proof. intros H. unfold status_of. rewrite lookup_ge_None_2 by exact H. reflexivity. Qed.

(** The statuses a Job goes through from a state between two turns on. *)
Lemma exec_history (job : nat) (evs : list Event) :
  forall (w : World) (ws : list World),
    lifecycle_ok w ->
    exec env w evs = Some ws ->
    let h := changes (status_of w job) (map (fun w' => status_of w' job) ws) in
    match status_of w job with
    | None => h `prefix_of` [pending; running; completed]
    | Some running => h `prefix_of` [completed]
    | Some _ => h = []
    end.
Proof.
  induction evs as [|ev evs IH]; intros w ws Hok Hexec.
  { injection Hexec as <-. simpl. destruct (status_of w job) as [[]|];
      try reflexivity; apply prefix_nil. }
  simpl in Hexec.
  destruct (turn env w ev) as [ws1|] eqn:Hturn; [|discriminate].
  destruct (exec env (List.last ws1 w) evs) as [ws2|] eqn:Hrest; [|discriminate].
  injection Hexec as <-.
  pose proof (lifecycle_ok_turn env w ev ws1 Hok Hturn) as Hok'.
  specialize (IH _ _ Hok' Hrest). cbv zeta in IH.
  destruct (turn_cases env w ev ws1 Hok Hturn) as [_ [Hcase|[Hcase|Hcase]]].
  - destruct Hcase as (jobId & tool & params & call & w1 & w2 & _ & -> & _ & _ &
                       Hh1 & Hh2 & _).
    cbn [List.last] in IH. cbv zeta. cbn [app map].
    destruct (lt_eq_lt_dec job (length (heap w))) as [[Hlt|Heq]|Hgt].
    + rewrite (status_of_app_old w w1 job _ Hh1 Hlt),
        (status_of_app_old w w2 job _ Hh2 Hlt), !changes_same.
      rewrite (status_of_app_old w w2 job _ Hh2 Hlt) in IH. exact IH.
    + assert (H1 : status_of w1 job = Some pending)
        by (unfold status_of; rewrite Hh1, Heq, list_lookup_middle by reflexivity;
            reflexivity).
      assert (H2 : status_of w2 job = Some running)
        by (unfold status_of; rewrite Hh2, Heq, list_lookup_middle by reflexivity;
            reflexivity).
      rewrite (status_of_absent w job) by lia. rewrite H1, H2. rewrite H2 in IH.
      simpl. apply prefix_cons, prefix_cons, IH.
    + assert (H1 : status_of w1 job = None)
        by (apply status_of_absent; rewrite Hh1, length_app; simpl; lia).
      assert (H2 : status_of w2 job = None)
        by (apply status_of_absent; rewrite Hh2, length_app; simpl; lia).
      rewrite (status_of_absent w job) by lia. rewrite H1, H2. rewrite H2 in IH.
      exact IH.
  - destruct Hcase as (job0 & t & rest & r & j & w2 & _ & -> & _ & _ & Hj & Hrun &
                       Hh & _).
    cbn [List.last] in IH. cbv zeta. cbn [app map].
    destruct (decide (job0 = job)) as [->|Hne].
    + assert (H0 : status_of w job = Some running)
        by (unfold status_of; rewrite Hj; simpl; congruence).
      assert (H2 : status_of w2 job = Some completed).
      { unfold status_of. rewrite Hh, list_lookup_insert_eq; [reflexivity|].
        eapply lookup_lt_Some, Hj. }
      rewrite H0, H2. rewrite H2 in IH. simpl. rewrite IH. reflexivity.
    + assert (H2 : status_of w2 job = status_of w job)
        by (unfold status_of; rewrite Hh, list_lookup_insert_ne by exact Hne; reflexivity).
      rewrite H2, changes_same. rewrite H2 in IH. exact IH.
  - destruct Hcase as (w' & -> & Hh & _).
    cbn [List.last] in IH. cbv zeta. cbn [app map].
    assert (H2 : status_of w' job = status_of w job)
      by (unfold status_of; rewrite Hh; reflexivity).
    rewrite H2, changes_same. rewrite H2 in IH. exact IH.
Qed.

Lemma lifecycle_ok_endTime (w : World) (job : nat) (j : Job) :
  lifecycle_ok w ->
  heap w !! job = Some j ->
  (is_Some (endTime j) <-> is_terminal (status j) = true).
Proof.
  intros [Hjobs _] Hj. destruct (Hjobs job j Hj) as [[-> ->]|[Ht He]].
  - simpl. split; [intros [x Hx]; discriminate | discriminate].
  - split; auto.
Qed.

(** In every state a run passes through, also inside a turn, a Job has
    its [endTime] exactly when its status is terminal. *)
Lemma exec_endTime (evs : list Event) :
  forall (w0 : World) (ws : list World) (w : World) (job : nat) (j : Job),
    lifecycle_ok w0 ->
    exec env w0 evs = Some ws ->
    In w ws ->
    heap w !! job = Some j ->
    (is_Some (endTime j) <-> is_terminal (status j) = true).
Proof.
  induction evs as [|ev evs IH]; intros w0 ws w job j Hok Hexec Hin Hj.
  { injection Hexec as <-. destruct Hin. }
  simpl in Hexec.
  destruct (turn env w0 ev) as [ws1|] eqn:Hturn; [|discriminate].
  destruct (exec env (List.last ws1 w0) evs) as [ws2|] eqn:Hrest; [|discriminate].
  injection Hexec as <-.
  pose proof (lifecycle_ok_turn env w0 ev ws1 Hok Hturn) as Hok'.
  apply in_app_iff in Hin as [Hin|Hin]; [|eapply IH; eassumption].
  destruct (turn_cases env w0 ev ws1 Hok Hturn) as [_ [Hcase|[Hcase|Hcase]]].
  - destruct Hcase as (jobId & tool & params & call & w1 & w2 & _ & -> & _ & _ &
                       Hh1 & _).
    destruct Hin as [<-|[<-|[]]].
    + rewrite Hh1, lookup_app_Some in Hj. destruct Hj as [Hold|[_ Hnew]].
      * exact (lifecycle_ok_endTime w0 job j Hok Hold).
      * destruct (job - length (heap w0))%nat; simpl in Hnew; [|discriminate].
        injection Hnew as <-. simpl.
        split; [intros [x Hx]; discriminate | discriminate].
    + exact (lifecycle_ok_endTime _ job j Hok' Hj).
  - destruct Hcase as (job0 & t & rest & r & j0 & w2 & _ & -> & _).
    destruct Hin as [<-|[]]. exact (lifecycle_ok_endTime _ job j Hok' Hj).
  - destruct Hcase as (w' & -> & _).
    destruct Hin as [<-|[]]. exact (lifecycle_ok_endTime _ job j Hok' Hj).
Qed.

(** No turn changes a Job that is completed or failed. *)
Lemma terminal_job_is_final (w : World) (ev : Event) (w' : World) (job : nat) (j : Job) :
  lifecycle_ok w ->
  heap w !! job = Some j ->
  is_terminal (status j) = true ->
  step env w ev = Some w' ->
  heap w' !! job = Some j.
Proof.
  intros Hok Hj Hterm Hstep.
  destruct (step_turn env _ _ _ Hstep) as (ws & Hturn & ->).
  destruct (turn_cases env w ev ws Hok Hturn) as [_ [Hcase|[Hcase|Hcase]]].
  - destruct Hcase as (jobId & tool & params & call & w1 & w2 & _ & -> & _ & _ &
                       _ & Hh2 & _).
    simpl. rewrite Hh2. apply lookup_app_l_Some, Hj.
  - destruct Hcase as (job0 & t & rest & r & j0 & w2 & _ & -> & _ & _ & Hj0 & Hrun &
                       Hh & _).
    simpl. rewrite Hh, list_lookup_insert_ne; [exact Hj|].
    intros ->. rewrite Hj in Hj0. injection Hj0 as ->. rewrite Hrun in Hterm.
    discriminate.
  - destruct Hcase as (w2 & -> & Hh & _). simpl. rewrite Hh. exact Hj.
Qed.

End Lifecycle.

(** C6. The status values a Job takes over its life are a prefix of
    [pending, running, completed] or of [pending, running, failed]; a Job
    that is completed or failed is never changed again; and in every state
    the process passes through a Job has its [endTime] exactly when its
    status is completed or failed. *)
Theorem C6_job_lifecycle (env : Env) :
  (forall (t0 : Z) (evs : list Event) (ws : list World) (job : nat),
      exec env (initial_world t0) evs = Some ws ->
      status_history job ws `prefix_of` [pending; running; completed] \/
      status_history job ws `prefix_of` [pending; running; failed]) /\
  (forall (w : World) (ev : Event) (w' : World) (job : nat) (j : Job),
      reachable env w ->
      heap w !! job = Some j ->
      is_terminal (status j) = true ->
      step env w ev = Some w' ->
      heap w' !! job = Some j) /\
  (forall (t0 : Z) (evs : list Event) (ws : list World) (w : World) (job : nat) (j : Job),
      exec env (initial_world t0) evs = Some ws ->
      In w ws ->
      heap w !! job = Some j ->
      (is_Some (endTime j) <-> is_terminal (status j) = true)).
Proof.
  split.
  { intros t0 evs ws job Hexec. left.
    exact (exec_history env job evs _ _ (lifecycle_ok_initial t0) Hexec). }
  split.
  { intros w ev w' job j Hreach. apply (terminal_job_is_final env).
    apply (lifecycle_ok_reachable env), Hreach. }
  intros t0 evs ws w job j Hexec. eapply exec_endTime; [|exact Hexec].
  apply lifecycle_ok_initial.
Qed.

Lemma demo_started_reachable : reachable demo_returns demo_started.
Proof.
  apply (reachable_step _ demo_connected (StartJob "j1" gleif [])).
  - apply (reachable_step _ (initial_world 1000) Connect);
      [apply reachable_initial | vm_compute; reflexivity].
  - vm_compute. reflexivity.
Qed.

Lemma demo_resumed_reachable : reachable demo_returns demo_resumed.
Proof.
  apply (reachable_step _ demo_started (Resume 0)).
  - apply demo_started_reachable.
  - vm_compute. reflexivity.
Qed.

Lemma C6_witness :
  let env := demo_env (gleif_module (CapReturns None)) true in
  let ws := default [] (exec env (initial_world 1000)
                          [StartJob "j1" gleif []; Tick 5; Resume 0]) in
  (status_history 0 ws `prefix_of` [pending; running; completed] \/
   status_history 0 ws `prefix_of` [pending; running; failed]) /\
  (forall w j, In w ws -> heap w !! 0%nat = Some j ->
               (is_Some (endTime j) <-> is_terminal (status j) = true)) /\
  (forall w', step demo_returns demo_resumed ClearCompletedJobs = Some w' ->
              heap w' !! 0%nat = heap demo_resumed !! 0%nat).
Proof.
  intros env ws.
  destruct (C6_job_lifecycle env) as (H1 & H2 & H3).
  split; [|split].
  - apply (H1 1000 [StartJob "j1" gleif []; Tick 5; Resume 0%nat]).
    vm_compute. reflexivity.
  - intros w j. apply (H3 1000 [StartJob "j1" gleif []; Tick 5; Resume 0%nat]).
    vm_compute. reflexivity.
  - intros w' Hstep.
    destruct (heap demo_resumed !! 0%nat) as [j|] eqn:Hj; [|vm_compute in Hj; discriminate].
    apply (H2 demo_resumed ClearCompletedJobs w' 0%nat j demo_resumed_reachable Hj);
      [|exact Hstep].
    vm_compute in Hj. injection Hj as <-. reflexivity.
Defined.

(** ** What the clients are told about a Job *)

Lemma job_statuses_app (ms1 ms2 : list WireMsg) :
  job_statuses (ms1 ++ ms2) = job_statuses ms1 ++ job_statuses ms2.
Proof. apply omap_app. Qed.

Lemma job_statuses_execution_updates (us : list ExecUpdate) (t : Z) :
  job_statuses (map (fun u => execution_update u t) us) = [].
Proof. induction us as [|u us IH]; simpl; [reflexivity | exact IH]. Qed.

Section Publishing.

Variable env : Env.

(** The turn in which a suspended [processJob] resumes. *)
Lemma resume_step_spec (w : World) (job : nat) (w' : World) :
  lifecycle_ok w ->
  step env w (Resume job) = Some w' ->
  exists t r j us,
    find_task job (tasks w) = Some t /\
    heap w !! job = Some j /\ status j = running /\
    heap w' = <[job := finished r (task_startTime t) (now w) j]> (heap w) /\
    clients w'
    = map (deliver_all
             (map (fun u => execution_update u (now w)) us
              ++ match tool_json_error r with
                 | Some _ => []
                 | None => [job_update_of (finished r (task_startTime t) (now w) j) (now w)]
                 end))
        (clients w) /\
    crashed w' = ErrorObj <$> tool_json_error r.
Proof.
  intros [_ Htasks]. unfold step, turn.
  destruct (crashed w) eqn:Hcr; [discriminate|].
  destruct (find_task job (tasks w)) as [t|] eqn:Hfind; [|discriminate].
  destruct (executeTool_resume env (task_call t)) as [rest|] eqn:Hrest; [|discriminate].
  intros [= <-].
  destruct (find_task_Some _ _ _ Hfind) as [Hin Hjob].
  destruct (Htasks t Hin) as (j & Hj & Hrun). rewrite Hjob in Hj.
  set (w0 := with_tasks (remove_task job (tasks w)) w).
  destruct (processJob_resume_spec t rest j w0
              (framed_executeTool_resume env _ _ Hrest))
    as (j' & us & w2 & Hp & Hj' & H1 & _ & _ & _ & H5 & H6).
  { rewrite Hjob. exact Hj. }
  destruct (total_executeTool_resume env _ _ Hrest w0) as [r Hr].
  rewrite Hr in Hj'. rewrite Hp. subst w0. simpl in Hj', H1, H5, H6.
  assert (Hje : job_json_error j' = tool_json_error r) by (rewrite Hj'; reflexivity).
  rewrite Hje in H6 |- *.
  exists t, r, j, us.
  destruct (tool_json_error r) as [e|]; simpl;
    rewrite H1, H6, ?H5, Hj', Hjob, ?Hcr; auto 10.
Qed.

End Publishing.




(** ** Failures of the tool *)

Section Failures.

Variable env : Env.

(** Whatever the record that [executeTool] returns says, the turn that
    resumes [processJob] ends the Job as 'completed'. *)
Lemma resumed_job_is_completed (w : World) (job : nat) (w' : World) :
  reachable env w ->
  step env w (Resume job) = Some w' ->
  status_of w' job = Some completed.
Proof.
  intros Hreach Hstep.
  destruct (resume_step_spec env w job w' (lifecycle_ok_reachable env w Hreach) Hstep)
    as (t & r & j & us & _ & Hj & _ & Hh & _).
  unfold status_of. rewrite Hh, list_lookup_insert_eq; [reflexivity|].
  eapply lookup_lt_Some, Hj.
Qed.

Lemma find_task_app (job : nat) (ts ts' : list Task) (t : Task) :
  find_task job ts = Some t -> find_task job (ts ++ ts') = Some t.
Proof.
  unfold find_task. induction ts as [|x ts IH]; simpl; [discriminate|].
  destruct (Nat.eqb (task_job x) job); [auto | exact IH].
Qed.

Lemma find_task_remove (job job0 : nat) (ts : list Task) (t : Task) :
  job0 <> job ->
  find_task job ts = Some t -> find_task job (remove_task job0 ts) = Some t.
Proof.
  intros Hne. unfold find_task, remove_task.
  induction ts as [|x ts IH]; simpl; [discriminate|].
  destruct (Nat.eqb (task_job x) job) eqn:E.
  - intros [= ->].
    destruct (Nat.eqb (task_job t) job0) eqn:E0.
    + apply Nat.eqb_eq in E0, E. congruence.
    + simpl. rewrite E. reflexivity.
  - intros H. destruct (Nat.eqb (task_job x) job0); simpl; [|rewrite E]; auto.
Qed.

(** A Job whose [processJob] waits for a call that never settles stays
    'running' whatever else happens. *)
Lemma hung_job_stays_running (job : nat) (t : Task) (evs : list Event) :
  forall (w : World) (ws : list World),
    lifecycle_ok w ->
    find_task job (tasks w) = Some t ->
    executeTool_resume env (task_call t) = None ->
    status_of w job = Some running ->
    exec env w evs = Some ws ->
    Forall (fun w' => status_of w' job = Some running) ws.
Proof.
  induction evs as [|ev evs IH]; intros w ws Hok Hfind Hhung Hrun Hexec.
  { injection Hexec as <-. constructor. }
  simpl in Hexec.
  destruct (turn env w ev) as [ws1|] eqn:Hturn; [|discriminate].
  destruct (exec env (List.last ws1 w) evs) as [ws2|] eqn:Hrest; [|discriminate].
  injection Hexec as <-.
  pose proof (lifecycle_ok_turn env w ev ws1 Hok Hturn) as Hok'.
  assert (Hlt : (job < length (heap w))%nat).
  { unfold status_of in Hrun. destruct (heap w !! job) eqn:E; [|discriminate].
    eapply lookup_lt_Some, E. }
  apply Forall_app.
  destruct (turn_cases env w ev ws1 Hok Hturn) as [_ [Hcase|[Hcase|Hcase]]].
  - destruct Hcase as (jobId & tool & params & call & w1 & w2 & _ & -> & _ & _ &
                       Hh1 & Hh2 & _ & _ & _ & Ht2 & _).
    assert (H1 : status_of w1 job = Some running)
      by (rewrite (status_of_app_old w w1 job _ Hh1 Hlt); exact Hrun).
    assert (H2 : status_of w2 job = Some running)
      by (rewrite (status_of_app_old w w2 job _ Hh2 Hlt); exact Hrun).
    split; [repeat constructor; assumption|].
    apply (IH w2); try assumption.
    simpl. rewrite Ht2. apply find_task_app, Hfind.
  - destruct Hcase as (job0 & t0 & rest & r & j & w2 & _ & -> & Hfind0 & Hrest0 & _ & _ &
                       Hh & _ & Ht2 & _).
    assert (Hne : job0 <> job).
    { intros ->. rewrite Hfind in Hfind0. injection Hfind0 as <-.
      rewrite Hhung in Hrest0. discriminate. }
    assert (H2 : status_of w2 job = Some running)
      by (unfold status_of; rewrite Hh, list_lookup_insert_ne by exact Hne; exact Hrun).
    split; [repeat constructor; assumption|].
    apply (IH w2); try assumption.
    simpl. rewrite Ht2. apply find_task_remove; assumption.
  - destruct Hcase as (w' & -> & Hh & Ht & _).
    assert (H2 : status_of w' job = Some running)
      by (unfold status_of; rewrite Hh; exact Hrun).
    split; [repeat constructor; assumption|].
    apply (IH w'); try assumption.
    simpl. rewrite Ht. exact Hfind.
Qed.

End Failures.

(** C1, on the code: a tool whose function throws, or whose compiled script
    is missing, does not end its Job as 'failed'. [executeTool] turns the
    error into a record with [success = false], [processJob] takes any
    record for a success, and the Job ends 'completed' with the error
    message inside its result and no [error] of its own. *)
Theorem C1_failed_tool_ends_the_job_completed :
  (let env := demo_env (gleif_module (CapThrows (ErrorObj "boom"))) true in
   exists w1 w2 w3 j,
     step env (with_clients [open_client] (initial_world 1000)) (StartJob "j1" gleif [])
     = Some w1 /\
     step env w1 (Tick 5) = Some w2 /\
     step env w2 (Resume 0) = Some w3 /\
     heap w3 !! 0%nat = Some j /\
     status j = completed /\ error j = None /\ endTime j = Some 1005 /\
     tool_result <$> job_result j = Some (failure_record (ErrorObj "boom") 1000 1005) /\
     (inbox <$> clients w3 !! 0%nat)
     = Some [ job_update "j1" pending None None None 1000;
              job_update "j1" running (Some 0) None None 1000;
              job_update "j1" running (Some 10) None None 1000;
              execution_update (execution_started gleif) 1000;
              execution_update (execution_failed "boom") 1005;
              job_update "j1" completed (Some 100) (job_result j) None 1005 ]) /\
  (let env := demo_env NeverSettles false in
   exists w1 w2 j,
     step env (initial_world 1000) (StartJob "j1" gleif []) = Some w1 /\
     step env w1 (Resume 0) = Some w2 /\
     heap w2 !! 0%nat = Some j /\
     status j = completed /\ error j = None /\
     tool_result <$> job_result j
     = Some (failure_record
               (ErrorObj (not_found_message
                            "/app/build/src/tests/with-sign/GLEIFOptimMultiCompanyVerificationTestWithSign.js"))
               1000 1000)).
Proof.
  split.
  - eexists _, _, _, _.
    split; [vm_compute; reflexivity|].
    split; [vm_compute; reflexivity|].
    split; [vm_compute; reflexivity|].
    split; [vm_compute; reflexivity|].
    repeat split; vm_compute; reflexivity.
  - eexists _, _, _.
    split; [vm_compute; reflexivity|].
    split; [vm_compute; reflexivity|].
    split; [vm_compute; reflexivity|].
    repeat split; vm_compute; reflexivity.
Qed.

(** C3, on the code: a tool that does not return does not end its Job as
    'failed'. The callback of the timer throws into the event loop, where
    nothing catches it: no promise is rejected, [processJob] cannot resume,
    the Job stays 'running' whatever happens next, and when the timer
    fires the process ends with the timeout error. *)
Theorem C3_timeout_does_not_fail_the_job :
  let env := demo_env (gleif_module CapNeverReturns) true in
  exists w1 w2 w3,
    step env (initial_world 1000) (StartJob "j1" gleif []) = Some w1 /\
    timers w1 = [(0%nat, 1000 + timer_delay (timeout (config env)))] /\
    step env w1 (Tick (timer_delay (timeout (config env)))) = Some w2 /\
    step env w2 (Resume 0) = None /\
    step env w2 (TimerFires 0) = Some w3 /\
    crashed w3 = Some (ErrorObj "Direct execution timeout after 1800000ms") /\
    status_of w3 0 = Some running /\
    (forall ev, step env w3 ev = None) /\
    (forall evs ws,
        exec env w1 evs = Some ws ->
        Forall (fun w => status_of w 0 = Some running) ws).
Proof.
  intros env.
  eexists _, _, _.
  split; [vm_compute; reflexivity|].
  split; [vm_compute; reflexivity|].
  split; [vm_compute; reflexivity|].
  split; [vm_compute; reflexivity|].
  split; [vm_compute; reflexivity|].
  split; [vm_compute; reflexivity|].
  split; [vm_compute; reflexivity|].
  split; [intros ev; reflexivity|].
  intros evs ws Hexec.
  eapply (hung_job_stays_running env 0); [| | | |exact Hexec].
  - apply (lifecycle_ok_reachable env).
    apply (reachable_step _ (initial_world 1000) (StartJob "j1" gleif []));
      [apply reachable_initial | vm_compute; reflexivity].
  - vm_compute. reflexivity.
  - vm_compute. reflexivity.
  - vm_compute. reflexivity.
Qed.

(** * Further properties of the code *)

(** ** Statements that leave the clock and the timers alone *)

Lemma same_clock_refl (w : World) : same_clock w w.
Proof. repeat split. Qed.

Lemma same_clock_trans (w w1 w2 : World) :
  same_clock w w1 -> same_clock w1 w2 -> same_clock w w2.
Proof.
  intros (H1 & H2 & H3) (K1 & K2 & K3). repeat split; congruence.
Qed.

Create HintDb clock discriminated.

Lemma quiet_ret {A} (a : A) : quiet (ret a).
Proof. intros w. apply same_clock_refl. Qed.

Lemma quiet_throw {A} (e : Thrown) : quiet (@throw A e).
Proof. intros w. apply same_clock_refl. Qed.

Lemma quiet_gets {A} (f : World -> A) : quiet (gets f).
Proof. intros w. apply same_clock_refl. Qed.

Lemma bind_same_clock {A B} (m : M A) (k : A -> M B) (w : World) :
  (forall a, quiet (k a)) -> same_clock (snd (m w)) (snd (bind m k w)).
Proof.
  intros Hk. unfold bind. destruct (m w) as [[e|a] w1]; simpl.
  - apply same_clock_refl.
  - apply Hk.
Qed.

Lemma try_catch_same_clock {A} (m : M A) (h : Thrown -> M A) (w : World) :
  (forall e, quiet (h e)) -> same_clock (snd (m w)) (snd (try_catch m h w)).
Proof.
  intros Hh. unfold try_catch. destruct (m w) as [[e|a] w1]; simpl.
  - apply Hh.
  - apply same_clock_refl.
Qed.

Lemma quiet_bind {A B} (m : M A) (k : A -> M B) :
  quiet m -> (forall a, quiet (k a)) -> quiet (bind m k).
Proof.
  intros Hm Hk w. eapply same_clock_trans; [apply Hm|]. apply bind_same_clock, Hk.
Qed.

Lemma quiet_try_catch {A} (m : M A) (h : Thrown -> M A) :
  quiet m -> (forall e, quiet (h e)) -> quiet (try_catch m h).
Proof.
  intros Hm Hh w. eapply same_clock_trans; [apply Hm|]. apply try_catch_same_clock, Hh.
Qed.

Lemma quiet_send_all (message : WireMsg) : quiet (send_all message).
Proof.
  intros w. unfold send_all. destruct (forEach_send message (clients w)) as [r cs].
  repeat split.
Qed.

Lemma quiet_JSON_stringify (message : WireMsg) : quiet (JSON_stringify message).
Proof.
  unfold JSON_stringify. destruct (json_error message); [apply quiet_throw|apply quiet_ret].
Qed.

Lemma quiet_broadcastJobUpdate (job : nat) : quiet (broadcastJobUpdate job).
Proof.
  intros w. unfold broadcastJobUpdate. destruct (heap w !! job) as [j|].
  - apply quiet_bind; [apply quiet_JSON_stringify|intros m; apply quiet_send_all].
  - apply same_clock_refl.
Qed.

Lemma quiet_broadcastExecutionUpdate (u : ExecUpdate) : quiet (broadcastExecutionUpdate u).
Proof.
  unfold broadcastExecutionUpdate. apply quiet_try_catch.
  - intros w. apply quiet_bind; [apply quiet_JSON_stringify|intros m; apply quiet_send_all].
  - intros e. apply quiet_ret.
Qed.

Lemma quiet_update_job (job : nat) (f : Job -> Job) : quiet (update_job job f).
Proof. intros w. repeat split. Qed.

Lemma quiet_forM_ {A} (xs : list A) (f : A -> M unit) :
  (forall x, quiet (f x)) -> quiet (forM_ xs f).
Proof.
  intros Hf. induction xs as [|x xs IH]; simpl.
  - apply quiet_ret.
  - apply quiet_bind; [apply Hf | intros _; exact IH].
Qed.

#[local] Hint Resolve quiet_ret quiet_throw quiet_gets quiet_broadcastJobUpdate
  quiet_broadcastExecutionUpdate quiet_update_job : clock.
#[local] Hint Extern 2 (quiet (bind _ _)) => apply quiet_bind; [|intro] : clock.
#[local] Hint Extern 2 (quiet (try_catch _ _)) => apply quiet_try_catch; [|intro] : clock.
#[local] Hint Extern 2 (quiet (forM_ _ _)) => apply quiet_forM_; intro : clock.

Lemma quiet_flush (c : Capture) : quiet (flush c).
Proof. unfold flush. auto with clock. Qed.

#[local] Hint Resolve quiet_flush : clock.

Lemma quiet_processJob_catch (job : nat) (e : Thrown) : quiet (processJob_catch job e).
Proof. unfold processJob_catch. auto 10 with clock. Qed.

#[local] Hint Resolve quiet_processJob_catch : clock.

(** ** The timer of [executeDirectly] *)

Section Timers.

Variable env : Env.

(** The synchronous part of [executeTool]: the timer is armed exactly when
    the call gets as far as [executeDirectly]. *)
Lemma executeTool_begin_full (tool : string) (parameters : Params) (w : World) :
  exists s w1 us,
    executeTool_begin env tool parameters w = (inr s, w1) /\
    executor_frame w w1 us /\
    tool_startTime s = now w /\
    if arms env tool then
      timers w1 = timers w ++ [(timer_seq w, now w + timer_delay (timeout (config env)))] /\
      timer_seq w1 = S (timer_seq w) /\
      exists scriptFile c,
        obj_get toolScriptMap tool = Own scriptFile /\
        awaiting s
        = AwaitImport (compiledScriptPath env scriptFile) tool parameters c (timer_seq w)
    else
      timers w1 = timers w /\ timer_seq w1 = timer_seq w /\
      exists e, awaiting s = AwaitRejected e.
Proof.
  destruct (framed_executeTool_begin env tool parameters w) as [us Hfr].
  assert (exists s w1,
    executeTool_begin env tool parameters w = (inr s, w1) /\
    tool_startTime s = now w /\
    if arms env tool then
      timers w1 = timers w ++ [(timer_seq w, now w + timer_delay (timeout (config env)))] /\
      timer_seq w1 = S (timer_seq w) /\
      exists scriptFile c,
        obj_get toolScriptMap tool = Own scriptFile /\
        awaiting s
        = AwaitImport (compiledScriptPath env scriptFile) tool parameters c (timer_seq w)
    else
      timers w1 = timers w /\ timer_seq w1 = timer_seq w /\
      exists e, awaiting s = AwaitRejected e) as (s & w1 & Hb & Ht & Hrest).
  { unfold arms, executeTool_begin, executeIntegratedTool_begin, executeCompiledScript_begin,
      compiledScriptPath.
    destruct (obj_get toolScriptMap tool) as [scriptFile| |].
    - destruct (existsSync env _) eqn:E.
      + unfold executeDirectly_begin, bind, gets, try_catch, setTimeout.
        rewrite broadcastExecutionUpdate_spec by reflexivity.
        match goal with |- context [flush ?c ?w'] =>
          destruct (total_flush c w') as [c1 Hc1];
          pose proof (quiet_flush c w') as (Hq1 & Hq2 & Hq3);
          destruct (flush c w') as [[e|c1'] w2]; simpl in Hc1; [discriminate|]
        end.
        simpl in Hq1, Hq2, Hq3. simpl. do 2 eexists.
        split; [reflexivity|]. split; [reflexivity|].
        split; [exact Hq2|]. split; [exact Hq3|]. eauto.
      + unfold bind, gets, try_catch, throw, ret. simpl.
        do 2 eexists. repeat split; eauto.
    - unfold bind, gets, try_catch, throw, ret. simpl.
      do 2 eexists. repeat split; eauto.
    - unfold bind, gets, try_catch, throw, ret. simpl.
      do 2 eexists. repeat split; eauto. }
  exists s, w1, us. rewrite Hb in Hfr. auto.
Qed.

(** [executeDirectly] after its awaited calls: the timer is cleared when
    the tool's function has returned and left armed when something threw. *)
Lemma executeDirectly_resume_clock (startTime : Z) (c1 : Capture) (timer : nat)
    (ended : Thrown + option CapValue) (w : World) :
  let w' := snd (executeDirectly_resume startTime c1 timer ended w) in
  now w' = now w /\ timer_seq w' = timer_seq w /\
  timers w' = match ended with
              | inr _ => without_timer timer (timers w)
              | inl _ => timers w
              end.
Proof.
  cbv zeta. unfold executeDirectly_resume, bind.
  destruct (total_flush c1 w) as [c2 Hc2].
  pose proof (quiet_flush c1 w) as (Hq1 & Hq2 & Hq3).
  destruct (flush c1 w) as [[e|c2'] w1]; simpl in Hc2; [discriminate|].
  simpl in Hq1, Hq2, Hq3.
  destruct ended as [e|r].
  - unfold try_catch, throw. rewrite broadcastExecutionUpdate_spec by reflexivity. simpl. auto.
  - unfold try_catch, clearTimeout, modify, gets, ret.
    rewrite broadcastExecutionUpdate_cases. simpl.
    destruct (value_json_error r); simpl; rewrite Hq1, Hq2, Hq3; auto.
Qed.

Lemma executeTool_resume_clock (s : Suspended) (rest : M ToolExecutionResult) (w : World) :
  executeTool_resume env s = Some rest ->
  let w' := snd (rest w) in
  now w' = now w /\ timer_seq w' = timer_seq w /\
  timers w' = match awaiting s with
              | AwaitImport scriptPath tool parameters c timer =>
                  match snd (direct_body env scriptPath parameters tool c) with
                  | Fulfilled _ => without_timer timer (timers w)
                  | _ => timers w
                  end
              | AwaitRejected _ => timers w
              end.
Proof.
  unfold executeTool_resume, awaited.
  destruct (awaiting s) as [e|scriptPath tool parameters c timer].
  - intros [= <-]. unfold try_catch, bind, throw, gets, ret. simpl. auto.
  - destruct (direct_body env scriptPath parameters tool c) as [c1 [r|e|]];
      simpl; [| |discriminate]; intros [= <-]; cbv zeta.
    + pose proof (executeDirectly_resume_clock (direct_startTime s) c1 timer (inr r) w)
        as (H1 & H2 & H3).
      unfold try_catch, bind, gets, ret.
      destruct (executeDirectly_resume (direct_startTime s) c1 timer (inr r) w)
        as [[e|a] w1]; simpl in *; auto.
    + pose proof (executeDirectly_resume_clock (direct_startTime s) c1 timer (inl e) w)
        as (H1 & H2 & H3).
      unfold try_catch, bind, gets, ret.
      destruct (executeDirectly_resume (direct_startTime s) c1 timer (inl e) w)
        as [[e'|a] w1]; simpl in *; auto.
Qed.

End Timers.

(** ** The clock and the timers, turn by turn *)

Section Clock.

Variable env : Env.

Lemma processJob_begin_full (job : nat) (j : Job) (w : World) :
  heap w !! job = Some j ->
  job_json_error j = None ->
  exists call w2,
    processJob_begin env job w = (inr tt, w2) /\
    tasks w2
    = tasks w ++ [ {| task_job := job; task_startTime := now w; task_call := call |} ] /\
    now w2 = now w /\
    tool_startTime call = now w /\
    if arms env (toolName j) then
      timers w2 = timers w ++ [(timer_seq w, now w + timer_delay (timeout (config env)))] /\
      timer_seq w2 = S (timer_seq w) /\
      exists scriptFile c,
        obj_get toolScriptMap (toolName j) = Own scriptFile /\
        awaiting call
        = AwaitImport (compiledScriptPath env scriptFile) (toolName j) (parameters j) c
            (timer_seq w)
    else
      timers w2 = timers w /\ timer_seq w2 = timer_seq w /\
      exists e, awaiting call = AwaitRejected e.
Proof.
  intros Hj Hser. unfold processJob_begin.
  unfold bind at 1. unfold try_catch at 1.
  erewrite bind_eq by apply update_job_spec.
  erewrite bind_eq by apply update_job_spec.
  erewrite bind_eq
    by (apply broadcastJobUpdate_spec;
        [simpl; rewrite !list_lookup_alter_eq, Hj; reflexivity|exact Hser]).
  erewrite bind_eq by apply update_job_spec.
  erewrite bind_eq
    by (apply broadcastJobUpdate_spec;
        [simpl; rewrite !list_lookup_alter_eq, Hj; reflexivity|exact Hser]).
  erewrite bind_eq by reflexivity.
  erewrite bind_eq by reflexivity.
  simpl. rewrite !list_lookup_alter_eq, Hj. simpl.
  match goal with |- context [bind (executeTool_begin env ?t ?p) _ ?w1] =>
    destruct (executeTool_begin_full env t p w1)
      as (call & w2 & us & E & (_ & _ & H3 & H4 & _) & Ht & Hrest);
    rewrite (bind_eq _ _ w1 call w2 E)
  end.
  erewrite bind_eq by reflexivity.
  unfold ret. simpl in *.
  exists call. eexists. split; [reflexivity|]. simpl.
  rewrite H3, H4. repeat split; try reflexivity; assumption.
Qed.

Lemma startJob_full (jobId tool : string) (params : Params) (w : World) :
  exists call w1 w2,
    createJob jobId tool params w = (inr (length (heap w)), w1) /\
    same_clock w w1 /\
    try_catch (processJob_begin env (length (heap w))) unhandledRejection w1 = (inr tt, w2) /\
    tasks w2
    = tasks w ++ [ {| task_job := length (heap w); task_startTime := now w;
                      task_call := call |} ] /\
    now w2 = now w /\
    tool_startTime call = now w /\
    if arms env tool then
      timers w2 = timers w ++ [(timer_seq w, now w + timer_delay (timeout (config env)))] /\
      timer_seq w2 = S (timer_seq w) /\
      exists scriptFile c,
        obj_get toolScriptMap tool = Own scriptFile /\
        awaiting call
        = AwaitImport (compiledScriptPath env scriptFile) tool params c (timer_seq w)
    else
      timers w2 = timers w /\ timer_seq w2 = timer_seq w /\
      exists e, awaiting call = AwaitRejected e.
Proof.
  rewrite createJob_spec.
  match goal with |- context [(inr ?job, ?w1)] =>
    destruct (processJob_begin_full job (new_job jobId tool params (now w)) w1)
      as (call & w2 & Hb & H1 & H2 & H3 & H4);
      [simpl; apply list_lookup_middle; reflexivity|reflexivity|];
    exists call, w1, w2
  end.
  split; [reflexivity|]. split; [repeat split|].
  split; [apply try_catch_eq, Hb|].
  simpl in H1, H2, H3, H4. auto.
Qed.

Lemma processJob_resume_clock (t : Task) (rest : M ToolExecutionResult) (w : World) :
  same_clock (snd (rest w)) (snd (processJob_resume t rest w)).
Proof.
  unfold processJob_resume.
  eapply same_clock_trans; [|apply bind_same_clock; auto with clock].
  eapply same_clock_trans; [|apply try_catch_same_clock; auto with clock].
  apply bind_same_clock. auto 10 with clock.
Qed.

Lemma finish_same_clock (r : (Thrown + unit) * World) : same_clock (snd r) (finish r).
Proof. destruct r as [[e|u] w]; repeat split. Qed.

(** What a turn does to the clock and the timers, event by event. *)
Lemma turn_clock (w : World) (ev : Event) (ws : list World) :
  lifecycle_ok w ->
  turn env w ev = Some ws ->
  match ev with
  | StartJob jobId tool params =>
      exists call w1 w2,
        ws = [w1; w2] /\ same_clock w w1 /\ now w2 = now w /\
        tasks w2
        = tasks w ++ [ {| task_job := length (heap w); task_startTime := now w;
                          task_call := call |} ] /\
        tool_startTime call = now w /\
        if arms env tool then
          timers w2 = timers w ++ [(timer_seq w, now w + timer_delay (timeout (config env)))] /\
          timer_seq w2 = S (timer_seq w) /\
          exists scriptFile c,
            obj_get toolScriptMap tool = Own scriptFile /\
            awaiting call
            = AwaitImport (compiledScriptPath env scriptFile) tool params c (timer_seq w)
        else
          timers w2 = timers w /\ timer_seq w2 = timer_seq w /\
          exists e, awaiting call = AwaitRejected e
  | Resume job =>
      exists t rest w2,
        ws = [w2] /\ find_task job (tasks w) = Some t /\
        executeTool_resume env (task_call t) = Some rest /\
        now w2 = now w /\ timer_seq w2 = timer_seq w /\
        timers w2 = match awaiting (task_call t) with
                    | AwaitImport scriptPath tool parameters c timer =>
                        match snd (direct_body env scriptPath parameters tool c) with
                        | Fulfilled _ => without_timer timer (timers w)
                        | _ => timers w
                        end
                    | AwaitRejected _ => timers w
                    end
  | TimerFires timer =>
      exists w' deadline,
        ws = [w'] /\ assoc_nat timer (timers w) = Some deadline /\ deadline <= now w /\
        now w' = now w /\ timer_seq w' = timer_seq w /\
        timers w' = without_timer timer (timers w) /\
        crashed w' = Some (ErrorObj (timeout_message (timeout (config env))))
  | Tick ms =>
      exists w',
        ws = [w'] /\ 0 <= ms /\ now w' = now w + ms /\
        timers w' = timers w /\ timer_seq w' = timer_seq w
  | _ => exists w', ws = [w'] /\ same_clock w w'
  end.
Proof.
  intros [Hjobs Htasks]. unfold turn.
  destruct (crashed w) as [e|] eqn:Hc; [discriminate|].
  intros Hturn.
  destruct ev as [jobId tool params|job|timer| |ms| |client state].
  - destruct (startJob_full jobId tool params w)
      as (call & w1 & w2 & Hcj & Hsame & Hb & H1 & H2 & H3 & H4).
    rewrite Hcj, Hb in Hturn. injection Hturn as <-.
    exists call, w1, w2. auto 10.
  - destruct (find_task job (tasks w)) as [t|] eqn:Hfind; [|discriminate].
    destruct (executeTool_resume env (task_call t)) as [rest|] eqn:Hrest; [|discriminate].
    injection Hturn as <-.
    destruct (find_task_Some _ _ _ Hfind) as [Hin Hjob].
    destruct (Htasks t Hin) as (j & Hj & Hrun).
    set (w0 := with_tasks (remove_task job (tasks w)) w).
    pose proof (processJob_resume_clock t rest w0) as (K1 & K2 & K3).
    pose proof (executeTool_resume_clock env _ rest w0 Hrest) as (L1 & L2 & L3).
    destruct (finish_same_clock (processJob_resume t rest w0)) as (F1 & F2 & F3).
    exists t, rest, (finish (processJob_resume t rest w0)).
    split; [reflexivity|]. split; [reflexivity|].
    split; [exact Hrest|].
    rewrite F1, F2, F3, K1, K2, K3, L1, L2, L3. subst w0. simpl. auto.
  - destruct (assoc_nat timer (timers w)) as [deadline|]; [|discriminate].
    destruct (deadline <=? now w) eqn:Hle; [|discriminate].
    injection Hturn as <-. do 2 eexists. split; [reflexivity|]. simpl.
    repeat split; try reflexivity. apply Z.leb_le, Hle.
  - injection Hturn as <-. eexists. split; [reflexivity|]. repeat split.
  - destruct (0 <=? ms) eqn:Hle; [|discriminate].
    injection Hturn as <-. eexists. split; [reflexivity|]. simpl.
    repeat split; try reflexivity. apply Z.leb_le, Hle.
  - injection Hturn as <-. eexists. split; [reflexivity|]. repeat split.
  - injection Hturn as <-. eexists. split; [reflexivity|]. repeat split.
Qed.

End Clock.

(** ** The Job objects between two turns *)

Lemma NoDup_map_filter {A B} (f : A -> B) (p : A -> bool) (l : list A) :
  NoDup (map f l) -> NoDup (map f (List.filter p l)).
Proof.
  induction l as [|x l IH]; simpl; [auto|].
  rewrite NoDup_cons. intros [Hx Hl].
  destruct (p x); simpl; [|auto].
  apply NoDup_cons. split; [|auto].
  intros Hin. apply Hx.
  apply list_elem_of_In, in_map_iff in Hin as (y & Hy & Hin).
  apply list_elem_of_In, in_map_iff. exists y. split; [exact Hy|].
  apply filter_In in Hin. tauto.
Qed.

Section JobInvariants.

Variable env : Env.

Lemma turn_now_le (w : World) (ev : Event) (ws : list World) :
  lifecycle_ok w -> turn env w ev = Some ws -> now w <= now (List.last ws w).
Proof.
  intros Hok Hturn. pose proof (turn_clock env w ev ws Hok Hturn) as H.
  destruct ev.
  - destruct H as (call & w1 & w2 & -> & _ & E & _). simpl. lia.
  - destruct H as (t & rest & w2 & -> & _ & _ & E & _). simpl. lia.
  - destruct H as (w' & d & -> & _ & _ & E & _). simpl. lia.
  - destruct H as (w' & -> & E & _). simpl. lia.
  - destruct H as (w' & -> & Hms & E & _). simpl. lia.
  - destruct H as (w' & -> & E & _). simpl. lia.
  - destruct H as (w' & -> & E & _). simpl. lia.
Qed.

Lemma jobs_ok_initial (t : Z) : jobs_ok (initial_world t).
Proof.
  split; [|split; [|split]]; simpl.
  - intros job j H. rewrite lookup_nil in H. discriminate.
  - intros t0 [].
  - constructor.
  - intros k ref H. rewrite lookup_empty in H. discriminate.
Qed.

Lemma jobs_ok_turn (w : World) (ev : Event) (ws : list World) :
  lifecycle_ok w ->
  jobs_ok w ->
  turn env w ev = Some ws ->
  jobs_ok (List.last ws w).
Proof.
  intros Hok (Hjobs & Htasks & Hnodup & Hreg) Hturn.
  pose proof (turn_now_le w ev ws Hok Hturn) as Hnow.
  destruct (turn_cases env w ev ws Hok Hturn) as [_ [Hcase|[Hcase|Hcase]]].
  - destruct Hcase as (jobId & tool & params & call & w1 & w2 & -> & -> & _ & _ & _ &
                       Hh & _ & Hj & _ & Ht & _).
    simpl in *. split; [|split; [|split]].
    + intros job j. rewrite Hh, lookup_app_Some. intros [Hold|[Hlen Hnew]].
      * destruct (Hjobs job j Hold) as (H1 & H2 & H3 & H4).
        split; [exact H1|]. split; [lia|].
        split; [intros t Ht'; specialize (H3 t Ht'); lia|].
        intros Hrun. destruct (H4 Hrun) as (t & Hin & Hjob).
        exists t. rewrite Ht, in_app_iff. auto.
      * destruct (job - length (heap w))%nat eqn:Hd; simpl in Hnew; [|discriminate].
        injection Hnew as <-. split; [repeat split|]. simpl.
        split; [lia|]. split; [discriminate|]. intros _.
        eexists. rewrite Ht, in_app_iff. split; [right; left; reflexivity|].
        simpl. lia.
    + intros t. rewrite Ht, Hh, in_app_iff. intros [Hold|[<-|[]]].
      * destruct (Htasks t Hold) as (j & Hj' & Hrun & Hst). exists j.
        split; [apply lookup_app_l_Some, Hj'|]. split; [exact Hrun|lia].
      * simpl. eexists. split; [apply list_lookup_middle; reflexivity|].
        split; [reflexivity|]. simpl. lia.
    + rewrite Ht, map_app. simpl. apply NoDup_app. split; [exact Hnodup|].
      split; [|apply NoDup_singleton].
      intros x Hx. rewrite list_elem_of_singleton. intros ->.
      apply list_elem_of_In, in_map_iff in Hx as (t & Hjob & Hin).
      destruct (Htasks t Hin) as (j & Hj' & _). apply lookup_lt_Some in Hj'. lia.
    + intros k ref. rewrite Hj, Hh, lookup_insert_Some.
      intros [[<- <-]|[_ Hold]].
      * eexists. split; [apply list_lookup_middle; reflexivity|]. reflexivity.
      * destruct (Hreg k ref Hold) as (j & Hj' & Hid). exists j.
        split; [apply lookup_app_l_Some, Hj' | exact Hid].
  - destruct Hcase as (job & t & rest & r & j & w2 & -> & -> & Hfind & _ & Hj & Hrun &
                       Hh & Hjb & Ht & _).
    simpl in *.
    destruct (find_task_Some _ _ _ Hfind) as [Hin Hjob].
    destruct (Htasks t Hin) as (j0 & Hj0 & _ & Hst).
    rewrite Hjob, Hj in Hj0. injection Hj0 as <-.
    destruct (Hjobs job j Hj) as (Hco & Hs & _ & _).
    unfold job_coherent in Hco. rewrite Hrun in Hco. destruct Hco as (_ & _ & Herr & _).
    split; [|split; [|split]].
    + intros job' j'. rewrite Hh, list_lookup_insert_Some.
      intros [(-> & <- & _)|[Hne Hold]].
      * split.
        { unfold job_coherent. simpl. split; [reflexivity|]. split; [exact Herr|].
          do 2 eexists. split; [reflexivity|]. split; [reflexivity|]. simpl.
          split; [reflexivity|]. lia. }
        simpl. split; [lia|]. split; [intros t0 [= <-]; lia|]. discriminate.
      * destruct (Hjobs job' j' Hold) as (H1 & H2 & H3 & H4).
        split; [exact H1|]. split; [lia|].
        split; [intros t0 Ht0; specialize (H3 t0 Ht0); lia|].
        intros Hrun'. destruct (H4 Hrun') as (t' & Hin' & Hjob').
        exists t'. split; [|exact Hjob']. rewrite Ht. unfold remove_task.
        apply filter_In. split; [exact Hin'|].
        apply negb_true_iff, Nat.eqb_neq. lia.
    + intros t'. rewrite Ht, Hh. unfold remove_task. rewrite filter_In.
      intros [Hin' Hne]. apply negb_true_iff, Nat.eqb_neq in Hne.
      destruct (Htasks t' Hin') as (j' & Hj' & Hrun' & Hst'). exists j'.
      split; [rewrite list_lookup_insert_ne by auto; exact Hj'|].
      split; [exact Hrun'|lia].
    + rewrite Ht. apply NoDup_map_filter, Hnodup.
    + intros k ref. rewrite Hjb, Hh. intros Hk.
      destruct (Hreg k ref Hk) as (j' & Hj' & Hid).
      destruct (decide (job = ref)) as [<-|Hne].
      * rewrite Hj in Hj'. injection Hj' as <-.
        eexists. split; [apply list_lookup_insert_eq; eapply lookup_lt_Some, Hj|].
        exact Hid.
      * exists j'. rewrite list_lookup_insert_ne by exact Hne. auto.
  - destruct Hcase as (w' & -> & Hh & Ht & Hjb). simpl in *.
    split; [|split; [|split]].
    + intros job j. rewrite Hh, Ht. intros Hj.
      destruct (Hjobs job j Hj) as (H1 & H2 & H3 & H4).
      split; [exact H1|]. split; [lia|].
      split; [intros t0 Ht0; specialize (H3 t0 Ht0); lia|exact H4].
    + intros t. rewrite Ht, Hh. intros Hin.
      destruct (Htasks t Hin) as (j & Hj & Hrun & Hst). exists j.
      split; [exact Hj|]. split; [exact Hrun|lia].
    + rewrite Ht. exact Hnodup.
    + intros k ref. rewrite Hh. destruct Hjb as [->|[_ ->]].
      * apply Hreg.
      * simpl. rewrite map_lookup_filter_Some. intros [Hk _]. apply Hreg, Hk.
Qed.

Lemma jobs_ok_reachable (w : World) : reachable env w -> jobs_ok w.
Proof.
  induction 1 as [t|w ev w' Hw IH Hstep].
  - apply jobs_ok_initial.
  - destruct (step_turn _ _ _ _ Hstep) as (ws & Hturn & ->).
    eapply jobs_ok_turn; try eassumption. apply (lifecycle_ok_reachable env), Hw.
Qed.

End JobInvariants.

Lemma demo_cleared_reachable : reachable demo_returns demo_cleared.
Proof.
  apply (reachable_step _ demo_resumed ClearCompletedJobs).
  - apply demo_resumed_reachable.
  - vm_compute. reflexivity.
Qed.

(** X1. Between two turns of the event loop, the fields of every Job object
    agree with its status: a Job is running, with the progress 10 and
    neither result, error nor [endTime], or it is completed, with the
    progress 100, no error, its [endTime], and a result that carries its own
    id, an execution time between 0 and the Job's duration, and a
    completion time between its start and its end. No Job is left pending,
    and none is ever failed. *)
Theorem X1_job_fields_agree_with_the_status
    (env : Env) (w : World) (job : nat) (j : Job) :
  reachable env w ->
  heap w !! job = Some j ->
  startTime j <= now w /\
  ((status j = running /\ progress j = Some 10 /\ job_result j = None /\
    error j = None /\ endTime j = None) \/
   (status j = completed /\ progress j = Some 100 /\ error j = None /\
    exists r t,
      job_result j = Some r /\ endTime j = Some t /\ t <= now w /\
      result_jobId r = id j /\
      0 <= executionTimeMs r <= t - startTime j /\
      startTime j <= completedAt r <= t)).
Proof.
  intros Hreach Hj.
  destruct (jobs_ok_reachable env w Hreach) as (Hjobs & _).
  destruct (Hjobs job j Hj) as (Hco & Hstart & Hend & _).
  split; [exact Hstart|].
  unfold job_coherent in Hco. destruct (status j); try contradiction.
  - left. tauto.
  - right. destruct Hco as (Hp & He & r & t & Hr & Ht & Hid & Hx & Hc).
    split; [reflexivity|]. split; [exact Hp|]. split; [exact He|].
    exists r, t. auto 10.
Qed.

Lemma X1_witness :
  exists j,
    heap demo_resumed !! 0%nat = Some j /\
    status j = completed /\ progress j = Some 100 /\ error j = None /\
    exists r t,
      job_result j = Some r /\ endTime j = Some t /\ result_jobId r = id j /\
      0 <= executionTimeMs r <= t - startTime j.
Proof.
  destruct (heap demo_resumed !! 0%nat) as [j|] eqn:Hj; [|vm_compute in Hj; discriminate].
  exists j. split; [reflexivity|].
  destruct (X1_job_fields_agree_with_the_status demo_returns demo_resumed 0%nat j
              demo_resumed_reachable Hj) as [_ [H|H]].
  - vm_compute in Hj. injection Hj as <-. destruct H as [H _]. discriminate H.
  - destruct H as (H1 & H2 & H3 & r & t & H4 & H5 & _ & H6 & H7 & _).
    split; [exact H1|]. split; [exact H2|]. split; [exact H3|].
    exists r, t. auto.
Defined.

(** X2. Between two turns, the running Jobs are exactly the Jobs with a
    suspended [processJob]: every running Job has one call waiting for its
    [executeTool], no Job has two, and a call that waits belongs to a
    running Job. *)
Theorem X2_running_jobs_are_the_suspended_calls (env : Env) (w : World) :
  reachable env w ->
  NoDup (map task_job (tasks w)) /\
  (forall job, status_of w job = Some running <->
               exists t, In t (tasks w) /\ task_job t = job).
Proof.
  intros Hreach.
  destruct (jobs_ok_reachable env w Hreach) as (Hjobs & Htasks & Hnodup & _).
  split; [exact Hnodup|].
  intros job. unfold status_of. split.
  - destruct (heap w !! job) as [j|] eqn:Hj; simpl; [|discriminate].
    intros [= Hrun]. destruct (Hjobs job j Hj) as (_ & _ & _ & H). auto.
  - intros (t & Hin & <-). destruct (Htasks t Hin) as (j & Hj & Hrun & _).
    rewrite Hj. simpl. rewrite Hrun. reflexivity.
Qed.

Lemma X2_witness :
  (status_of demo_started 0 = Some running <->
   exists t, In t (tasks demo_started) /\ task_job t = 0%nat) /\
  (status_of demo_resumed 0 = Some running <->
   exists t, In t (tasks demo_resumed) /\ task_job t = 0%nat).
Proof.
  split.
  - apply (X2_running_jobs_are_the_suspended_calls demo_returns demo_started
             demo_started_reachable).
  - apply (X2_running_jobs_are_the_suspended_calls demo_returns demo_resumed
             demo_resumed_reachable).
Defined.

(** X3. The registry files every Job under its own id: what [getJob] finds
    under an id is a Job object that exists and whose [id] field is that
    id. *)
Theorem X3_getJob_finds_the_job_of_that_id
    (env : Env) (w : World) (jobId : string) (job : nat) :
  reachable env w ->
  getJob w jobId = Some job ->
  exists j, heap w !! job = Some j /\ id j = jobId.
Proof.
  intros Hreach Hget.
  destruct (jobs_ok_reachable env w Hreach) as (_ & _ & _ & Hreg).
  apply Hreg, Hget.
Qed.

Lemma X3_witness :
  exists j, heap demo_started !! 0%nat = Some j /\ id j = "j1".
Proof.
  apply (X3_getJob_finds_the_job_of_that_id demo_returns demo_started "j1" 0%nat
           demo_started_reachable).
  vm_compute. reflexivity.
Defined.

Lemma last_In {A} (l : list A) (d : A) : In (List.last l d) (d :: l).
Proof.
  destruct l as [|x l]; [left; reflexivity|]. right.
  revert x. induction l as [|y l IH]; intros x; [left; reflexivity|].
  right. apply IH.
Qed.

Section JobIdentity.

Variable env : Env.

Lemma turn_identity (w : World) (ev : Event) (ws : list World) (job : nat) (j : Job) :
  lifecycle_ok w ->
  turn env w ev = Some ws ->
  heap w !! job = Some j ->
  forall w', In w' (w :: ws) ->
    exists j', heap w' !! job = Some j' /\ id j' = id j /\ toolName j' = toolName j /\
               parameters j' = parameters j /\ startTime j' = startTime j.
Proof.
  intros Hok Hturn Hj w' [<-|Hin]; [eauto 10|].
  destruct (turn_cases env w ev ws Hok Hturn) as [_ [Hcase|[Hcase|Hcase]]].
  - destruct Hcase as (jobId & tool & params & call & w1 & w2 & -> & -> & _ & _ & Hh1 &
                       Hh2 & _).
    exists j. destruct Hin as [<-|[<-|[]]].
    + rewrite Hh1. split; [apply lookup_app_l_Some, Hj|auto].
    + rewrite Hh2. split; [apply lookup_app_l_Some, Hj|auto].
  - destruct Hcase as (job0 & t & rest & r & j0 & w2 & -> & -> & _ & _ & Hj0 & _ &
                       Hh & _).
    destruct Hin as [<-|[]]. rewrite Hh.
    destruct (decide (job0 = job)) as [->|Hne].
    + rewrite Hj in Hj0. injection Hj0 as <-.
      eexists. split; [apply list_lookup_insert_eq; eapply lookup_lt_Some, Hj|].
      repeat split.
    + exists j. rewrite list_lookup_insert_ne by exact Hne. auto.
  - destruct Hcase as (w0 & -> & Hh & _). destruct Hin as [<-|[]].
    exists j. rewrite Hh. auto.
Qed.

Lemma exec_identity (evs : list Event) :
  forall (w : World) (ws : list World) (job : nat) (j : Job),
    lifecycle_ok w ->
    exec env w evs = Some ws ->
    heap w !! job = Some j ->
    forall w', In w' ws ->
      exists j', heap w' !! job = Some j' /\ id j' = id j /\ toolName j' = toolName j /\
                 parameters j' = parameters j /\ startTime j' = startTime j.
Proof.
  induction evs as [|ev evs IH]; intros w ws job j Hok Hexec Hj w' Hin.
  - injection Hexec as <-. destruct Hin.
  - simpl in Hexec.
    destruct (turn env w ev) as [ws1|] eqn:Hturn; [|discriminate].
    destruct (exec env (List.last ws1 w) evs) as [ws2|] eqn:Hrest; [|discriminate].
    injection Hexec as <-.
    apply in_app_iff in Hin as [Hin|Hin].
    + apply (turn_identity w ev ws1 job j Hok Hturn Hj). right. exact Hin.
    + pose proof (last_In ws1 w) as Hlast.
      destruct (turn_identity w ev ws1 job j Hok Hturn Hj _ Hlast)
        as (j1 & Hj1 & E1 & E2 & E3 & E4).
      destruct (IH _ _ job j1 (lifecycle_ok_turn env _ _ _ Hok Hturn) Hrest Hj1 w' Hin)
        as (j' & Hj' & F1 & F2 & F3 & F4).
      exists j'. split; [exact Hj'|]. repeat split; congruence.
Qed.

End JobIdentity.

(** X4. A Job object keeps its identity: whatever happens after its
    creation (its own completion, other jobs, a replacement under the same
    id, the clearing of the registry), its [id], [toolName], [parameters]
    and [startTime] stay what they were, and the object stays where it
    is. *)
Theorem X4_job_identity_never_changes
    (env : Env) (w : World) (evs : list Event) (ws : list World) (job : nat) (j : Job) :
  reachable env w ->
  exec env w evs = Some ws ->
  heap w !! job = Some j ->
  forall w', In w' ws ->
    exists j', heap w' !! job = Some j' /\ id j' = id j /\ toolName j' = toolName j /\
               parameters j' = parameters j /\ startTime j' = startTime j.
Proof.
  intros Hreach. apply exec_identity, (lifecycle_ok_reachable env), Hreach.
Qed.

Lemma X4_witness :
  Forall (fun w' =>
            exists j', heap w' !! 0%nat = Some j' /\ id j' = "j1" /\ toolName j' = gleif /\
                       parameters j' = [] /\ startTime j' = 1000)
    (default [] (exec demo_returns demo_started
                   [Tick 5; Resume 0; StartJob "j1" "other-tool" []])).
Proof.
  apply Forall_forall. intros w' Hin. apply list_elem_of_In in Hin.
  assert (Hj : heap demo_started !! 0%nat = Some (started (new_job "j1" gleif [] 1000)))
    by (vm_compute; reflexivity).
  assert (E : exec demo_returns demo_started
                [Tick 5; Resume 0%nat; StartJob "j1" "other-tool" []]
              = Some (default [] (exec demo_returns demo_started
                                    [Tick 5; Resume 0%nat; StartJob "j1" "other-tool" []])))
    by (vm_compute; reflexivity).
  destruct (X4_job_identity_never_changes demo_returns demo_started
              [Tick 5; Resume 0%nat; StartJob "j1" "other-tool" []] _ 0%nat _
              demo_started_reachable E Hj w' Hin)
    as (j' & Hj' & H1 & H2 & H3 & H4).
  clear E Hj Hin.
  exists j'. split; [exact Hj'|]. split; [exact H1|]. split; [exact H2|].
  split; [exact H3 | exact H4].
Defined.

Section Unregistered.

Variable env : Env.

Lemma turn_unregistered (w : World) (ev : Event) (ws : list World) (job : nat) :
  lifecycle_ok w ->
  turn env w ev = Some ws ->
  (job < length (heap w))%nat ->
  (forall k, jobs w !! k <> Some job) ->
  forall w', In w' (w :: ws) ->
    (job < length (heap w'))%nat /\ forall k, jobs w' !! k <> Some job.
Proof.
  intros Hok Hturn Hlt Hnone w' [<-|Hin]; [auto|].
  destruct (turn_cases env w ev ws Hok Hturn) as [_ [Hcase|[Hcase|Hcase]]].
  - destruct Hcase as (jobId & tool & params & call & w1 & w2 & -> & -> & _ & _ & Hh1 &
                       Hh2 & Hj1 & Hj2 & _).
    assert (Hins : forall k, <[jobId := length (heap w)]> (jobs w) !! k <> Some job).
    { intros k. rewrite lookup_insert_Some. intros [[_ Heq]|[_ Hk]]; [lia|].
      eapply Hnone, Hk. }
    destruct Hin as [<-|[<-|[]]].
    + rewrite Hh1, Hj1, length_app. split; [lia|exact Hins].
    + rewrite Hh2, Hj2, length_app. split; [lia|exact Hins].
  - destruct Hcase as (job0 & t & rest & r & j0 & w2 & -> & -> & _ & _ & _ & _ &
                       Hh & Hj & _).
    destruct Hin as [<-|[]]. rewrite Hh, Hj, length_insert. auto.
  - destruct Hcase as (w0 & -> & Hh & _ & Hj). destruct Hin as [<-|[]].
    rewrite Hh. split; [exact Hlt|].
    destruct Hj as [->|[_ ->]]; [exact Hnone|].
    intros k. simpl. rewrite map_lookup_filter_Some. intros [Hk _]. eapply Hnone, Hk.
Qed.

Lemma exec_unregistered (evs : list Event) :
  forall (w : World) (ws : list World) (job : nat),
    lifecycle_ok w ->
    exec env w evs = Some ws ->
    (job < length (heap w))%nat ->
    (forall k, jobs w !! k <> Some job) ->
    forall w', In w' ws -> forall k, jobs w' !! k <> Some job.
Proof.
  induction evs as [|ev evs IH]; intros w ws job Hok Hexec Hlt Hnone w' Hin.
  - injection Hexec as <-. destruct Hin.
  - simpl in Hexec.
    destruct (turn env w ev) as [ws1|] eqn:Hturn; [|discriminate].
    destruct (exec env (List.last ws1 w) evs) as [ws2|] eqn:Hrest; [|discriminate].
    injection Hexec as <-.
    apply in_app_iff in Hin as [Hin|Hin].
    + apply (turn_unregistered w ev ws1 job Hok Hturn Hlt Hnone). right. exact Hin.
    + destruct (turn_unregistered w ev ws1 job Hok Hturn Hlt Hnone _ (last_In ws1 w))
        as [Hlt' Hnone'].
      exact (IH _ _ job (lifecycle_ok_turn env _ _ _ Hok Hturn) Hrest Hlt' Hnone' w' Hin).
Qed.

End Unregistered.

(** X5. A Job object that the registry has lost, because it was cleared or
    because another Job took its id, is never found again: in every later
    state, no id leads to it and no listing contains it. *)
Theorem X5_a_job_out_of_the_registry_stays_out
    (env : Env) (w : World) (evs : list Event) (ws : list World) (job : nat) :
  reachable env w ->
  (job < length (heap w))%nat ->
  (forall jobId, getJob w jobId <> Some job) ->
  exec env w evs = Some ws ->
  forall w', In w' ws ->
    (forall jobId, getJob w' jobId <> Some job) /\
    ~ In job (getAllJobs w') /\ ~ In job (getActiveJobs w').
Proof.
  intros Hreach Hlt Hnone Hexec w' Hin.
  assert (H : forall k, jobs w' !! k <> Some job).
  { eapply (exec_unregistered env); try eassumption.
    apply (lifecycle_ok_reachable env), Hreach. }
  assert (Hall : ~ In job (getAllJobs w')).
  { unfold getAllJobs. rewrite <- list_elem_of_In, list_elem_of_fmap.
    intros ([k r] & -> & Hk). apply elem_of_map_to_list in Hk. eapply H, Hk. }
  split; [exact H|]. split; [exact Hall|].
  unfold getActiveJobs. rewrite <- list_elem_of_In, list_elem_of_filter.
  intros [_ Hk]. apply Hall, list_elem_of_In, Hk.
Qed.

Lemma X5_witness :
  Forall (fun w' =>
            (forall jobId, getJob w' jobId <> Some 0%nat) /\
            ~ In 0%nat (getAllJobs w') /\ ~ In 0%nat (getActiveJobs w'))
    (default [] (exec demo_returns demo_cleared
                   [StartJob "j1" gleif []; Tick 7; Resume 1])).
Proof.
  apply Forall_forall. intros w' Hin. apply list_elem_of_In in Hin. revert w' Hin.
  apply (X5_a_job_out_of_the_registry_stays_out demo_returns demo_cleared
           [StartJob "j1" gleif []; Tick 7; Resume 1%nat] _ 0%nat demo_cleared_reachable).
  - vm_compute. lia.
  - intros jobId. unfold getJob.
    replace (jobs demo_cleared) with (∅ : gmap string nat) by (vm_compute; reflexivity).
    rewrite lookup_empty. discriminate.
  - vm_compute. reflexivity.
Defined.

Lemma filter_all {A} (P : A -> Prop) `{forall x, Decision (P x)} (l : list A) :
  Forall P l -> filter P l = l.
Proof.
  induction 1 as [|x l Hx Hl IH]; [reflexivity|].
  rewrite filter_cons_True by exact Hx. f_equal. exact IH.
Qed.

(** X6. [clearCompletedJobs] removes the finished Jobs from the registry
    and nothing else: it leaves the Job objects, the clients and the
    suspended calls as they are, an id is still known afterwards exactly
    when its Job is running, so that the list of all jobs then is the list
    of the active ones, and a second call changes nothing. *)
Theorem X6_clearCompletedJobs_keeps_exactly_the_running_jobs (env : Env) (w : World) :
  reachable env w ->
  heap (clearCompletedJobs w) = heap w /\
  clients (clearCompletedJobs w) = clients w /\
  tasks (clearCompletedJobs w) = tasks w /\
  (forall jobId job,
      getJob (clearCompletedJobs w) jobId = Some job <->
      getJob w jobId = Some job /\ status_of w job = Some running) /\
  getActiveJobs (clearCompletedJobs w) = getAllJobs (clearCompletedJobs w) /\
  clearCompletedJobs (clearCompletedJobs w) = clearCompletedJobs w.
Proof.
  intros Hreach.
  destruct (jobs_ok_reachable env w Hreach) as (Hjobs & _ & _ & Hreg).
  assert (Hget : forall jobId job,
             getJob (clearCompletedJobs w) jobId = Some job <->
             getJob w jobId = Some job /\ status_of w job = Some running).
  { intros jobId job. unfold getJob, clearCompletedJobs. simpl.
    rewrite map_lookup_filter_Some. simpl. split.
    - intros [Hk [Hc Hf]]. split; [exact Hk|].
      destruct (Hreg _ _ Hk) as (j & Hj & _).
      destruct (Hjobs _ _ Hj) as (Hco & _).
      unfold status_of in *. rewrite Hj in *. simpl in *.
      unfold job_coherent in Hco. destruct (status j); try contradiction; congruence.
    - intros [Hk Hr]. split; [exact Hk|]. rewrite Hr. split; discriminate. }
  split; [reflexivity|]. split; [reflexivity|]. split; [reflexivity|].
  split; [exact Hget|]. split.
  - unfold getActiveJobs. apply filter_all. rewrite Forall_forall.
    intros job Hin. right.
    unfold getAllJobs in Hin. apply list_elem_of_fmap in Hin as ([k r] & -> & Hk).
    apply elem_of_map_to_list in Hk. apply Hget in Hk as [_ Hr]. exact Hr.
  - unfold clearCompletedJobs at 1 3. unfold with_jobs. simpl. f_equal.
    apply map_eq. intros k. apply option_eq. intros r.
    rewrite !map_lookup_filter_Some. simpl. tauto.
Qed.

Lemma X6_witness :
  getJob demo_resumed "j1" = Some 0%nat /\
  getJob (clearCompletedJobs demo_resumed) "j1" = None /\
  getAllJobs (clearCompletedJobs demo_resumed) = [] /\
  getJob (clearCompletedJobs demo_started) "j1" = Some 0%nat.
Proof.
  destruct (X6_clearCompletedJobs_keeps_exactly_the_running_jobs demo_returns demo_resumed
              demo_resumed_reachable) as (_ & _ & _ & H1 & _).
  destruct (X6_clearCompletedJobs_keeps_exactly_the_running_jobs demo_returns demo_started
              demo_started_reachable) as (_ & _ & _ & H2 & _).
  split; [vm_compute; reflexivity|].
  split; [|split].
  - destruct (getJob (clearCompletedJobs demo_resumed) "j1") as [job|] eqn:E;
      [|reflexivity].
    apply H1 in E as [_ E]. vm_compute in E. destruct job; discriminate E.
  - vm_compute. reflexivity.
  - apply H2. split; vm_compute; reflexivity.
Defined.

(** ** What [executeTool] returns *)

Section Outcome.

Variable env : Env.

Lemma flush_value (c : Capture) (w : World) :
  exists c2 w1,
    flush c w = (inr c2, w1) /\
    capturedBeforeState c2 = capturedBeforeState c /\
    capturedAfterState c2 = capturedAfterState c /\
    stdout c2 = stdout c /\ stderr c2 = stderr c.
Proof.
  unfold flush, bind.
  destruct (total_forM_ (sent c) broadcastExecutionUpdate
              total_broadcastExecutionUpdate w) as [a Ha].
  destruct (forM_ (sent c) broadcastExecutionUpdate w) as [[e|u] w1];
    simpl in Ha; [discriminate|].
  unfold ret. do 2 eexists. split; [reflexivity|]. repeat split.
Qed.

Lemma executeDirectly_resume_returns (startTime : Z) (c1 : Capture) (timer : nat)
    (value : option CapValue) (w : World) :
  exists w1,
    executeDirectly_resume startTime c1 timer (inr value) w
    = (inr {| ir_success := true;
              ir_result := Some (direct_response value c1 startTime (now w));
              ir_output := None |}, w1) /\
    now w1 = now w.
Proof.
  unfold executeDirectly_resume. unfold bind at 1.
  destruct (flush_value c1 w) as (c2 & w1 & Hf & H1 & H2 & H3 & H4).
  pose proof (quiet_flush c1 w) as (Hq & _). rewrite Hf in *. simpl in Hq.
  unfold try_catch, bind, clearTimeout, modify, gets, ret.
  rewrite broadcastExecutionUpdate_cases. simpl.
  destruct (value_json_error value); simpl;
    (eexists; split;
     [unfold direct_response; rewrite H1, H2, H3, H4, Hq; reflexivity|simpl; exact Hq]).
Qed.

(** The record that [executeTool] returns, by what the call it awaited
    came to. *)
Lemma executeTool_resume_outcome (s : Suspended) (rest : M ToolExecutionResult)
    (w : World) :
  executeTool_resume env s = Some rest ->
  exists w',
    match awaiting s with
    | AwaitRejected e =>
        rest w = (inr (failure_record e (tool_startTime s) (now w)), w')
    | AwaitImport scriptPath tool parameters c timer =>
        match direct_body env scriptPath parameters tool c with
        | (c1, Fulfilled value) =>
            rest w
            = (inr {| success := true;
                      result := Response
                                  (direct_response value c1 (direct_startTime s) (now w));
                      executionTime := now w - tool_startTime s |}, w')
        | (_, RejectedWith e) =>
            rest w = (inr (failure_record e (tool_startTime s) (now w)), w')
        | (_, NeverSettles) => False
        end
    end.
Proof.
  intros Hrest.
  destruct (awaiting s) as [e|scriptPath tool parameters c timer] eqn:Ha.
  - destruct (executeTool_resume_rejected env s e w) as (rest' & w' & Hr & Hw).
    { unfold rejection. rewrite Ha. reflexivity. }
    rewrite Hrest in Hr. injection Hr as <-. eauto.
  - destruct (direct_body env scriptPath parameters tool c) as [c1 [value|e|]] eqn:Hd.
    + unfold executeTool_resume, awaited in Hrest. rewrite Ha, Hd in Hrest.
      injection Hrest as <-.
      destruct (executeDirectly_resume_returns (direct_startTime s) c1 timer value w)
        as (w1 & Hr & Hnow).
      unfold try_catch, bind. rewrite Hr. unfold gets, ret. simpl.
      rewrite Hnow. eauto.
    + destruct (executeTool_resume_rejected env s e w) as (rest' & w' & Hr & Hw).
      { unfold rejection. rewrite Ha, Hd. reflexivity. }
      rewrite Hrest in Hr. injection Hr as <-. eauto.
    + unfold executeTool_resume, awaited in Hrest. rewrite Ha, Hd in Hrest. discriminate.
Qed.

End Outcome.

(** X7. The [success] flag of the record that [executeTool] returns says
    that the tool's function returned, not that the verification passed:
    the record is either the failure record of the [catch] block, with
    [success = false], or it has [success = true] and carries the
    [response] object of [executeDirectly], which holds the value that the
    function returned, as it is, and whose [success] field is the verdict
    of the tool ([false] also when the function returned nothing). The
    fallback object built from [result.output] never occurs. (Of the
    response, the fields taken from the console capture are not spoken
    of.) *)
Theorem X7_success_says_that_the_function_returned
    (env : Env) (s : Suspended) (rest : M ToolExecutionResult) (w w' : World)
    (r : ToolExecutionResult) :
  executeTool_resume env s = Some rest ->
  rest w = (inr r, w') ->
  (success r = false /\
   exists e, rejection env s = Some e /\
             r = failure_record e (tool_startTime s) (now w)) \/
  (success r = true /\
   exists scriptPath tool parameters c timer value d,
     awaiting s = AwaitImport scriptPath tool parameters c timer /\
     snd (direct_body env scriptPath parameters tool c) = Fulfilled value /\
     result r = Response d /\
     direct_result d = value /\
     verification_success d = match value with Some v => cv_success v | None => false end /\
     direct_timestamp d = now w /\
     direct_executionTime d = now w - direct_startTime s /\
     executionTime r = now w - tool_startTime s).
Proof.
  intros Hrest Hr.
  destruct (executeTool_resume_outcome env s rest w Hrest) as [w1 H].
  unfold rejection.
  destruct (awaiting s) as [e|scriptPath tool parameters c timer] eqn:Ha.
  - rewrite Hr in H. injection H as -> _. left. split; [reflexivity|]. eauto.
  - destruct (direct_body env scriptPath parameters tool c) as [c1 [value|e|]] eqn:Hd;
      [| |contradiction].
    + rewrite Hr in H. injection H as -> _. right. split; [reflexivity|].
      exists scriptPath, tool, parameters, c, timer, value.
      eexists. split; [reflexivity|]. split; [rewrite Hd; reflexivity|].
      split; [reflexivity|]. repeat split.
    + rewrite Hr in H. injection H as -> _. left. split; [reflexivity|]. eauto.
Qed.

Lemma X7_witness :
  exists s w1 rest r w',
    executeTool_begin demo_refuted gleif [] (initial_world 1000) = (inr s, w1) /\
    executeTool_resume demo_refuted s = Some rest /\
    rest w1 = (inr r, w') /\
    success r = true /\
    exists d, result r = Response d /\ verification_success d = false.
Proof.
  destruct (executeTool_begin demo_refuted gleif [] (initial_world 1000))
    as [[e|s] w1] eqn:Hb; [vm_compute in Hb; discriminate|].
  destruct (executeTool_resume demo_refuted s) as [rest|] eqn:Hrest.
  2: { vm_compute in Hb. injection Hb as <- <-. vm_compute in Hrest. discriminate. }
  destruct (rest w1) as [[e|r] w'] eqn:Hw.
  { destruct (total_executeTool_resume demo_refuted s rest Hrest w1) as [a Ha].
    rewrite Hw in Ha. discriminate. }
  exists s, w1, rest, r, w'.
  split; [reflexivity|]. split; [exact Hrest|]. split; [exact Hw|].
  destruct (X7_success_says_that_the_function_returned demo_refuted s rest w1 w' r
              Hrest Hw)
    as [[_ (e & He & _)]|[Hs (p & t & ps & c & timer & value & d & Ha & Hd & Hr & _ & Hv & _)]].
  - vm_compute in Hb. injection Hb as <- <-. vm_compute in He. discriminate.
  - split; [exact Hs|]. exists d. split; [exact Hr|]. rewrite Hv.
    vm_compute in Hb. injection Hb as <- <-. simpl in Ha.
    injection Ha as <- <- <- <- <-. vm_compute in Hd. injection Hd as <-.
    reflexivity.
Defined.

(** X8. Seven of the fifteen tools that [getAvailableTools] lists can never
    succeed: [executeDirectly] has no case for them, so whenever
    [executeTool] returns for one of them it returns a failure record; when
    their compiled script is there and loads, the message is that direct
    execution is not implemented for the tool. *)
Theorem X8_a_tool_without_a_direct_case_never_succeeds (env : Env) :
  tools_without_direct_case
  = [ "get-Composed-Compliance-verification-with-sign";
      "get-RiskLiquidityACTUS-Verifier-Test_adv_zk";
      "get-RiskLiquidityACTUS-Verifier-Test_Basel3_Withsign";
      "execute-composed-proof-full-kyc";
      "execute-composed-proof-financial-risk";
      "execute-composed-proof-business-integrity";
      "execute-composed-proof-comprehensive" ] /\
  forall tool parameters w s w1 rest w2 r w3,
    In tool tools_without_direct_case ->
    executeTool_begin env tool parameters w = (inr s, w1) ->
    executeTool_resume env s = Some rest ->
    rest w2 = (inr r, w3) ->
    success r = false /\
    (exists e, r = failure_record e (now w) (now w2)) /\
    (forall scriptFile m,
        obj_get toolScriptMap tool = Own scriptFile ->
        existsSync env (compiledScriptPath env scriptFile) = true ->
        import env (pathToFileURL_href env (compiledScriptPath env scriptFile))
        = Fulfilled m ->
        r = failure_record
              (ErrorObj ("Direct execution not implemented for tool: " +:+ tool))
              (now w) (now w2)).
Proof.
  split; [reflexivity|].
  intros tool parameters w s w1 rest w2 r w3 Hin Hb Hrest Hr.
  assert (Hnone : assoc tool direct_cases = None).
  { unfold tools_without_direct_case in Hin. apply filter_In in Hin as [_ H].
    destruct (assoc tool direct_cases); [discriminate|reflexivity]. }
  destruct (executeTool_begin_awaiting env tool parameters w) as (s' & w1' & Hb' & Ht & Ha).
  rewrite Hb in Hb'. injection Hb' as <- <-.
  destruct (executeTool_resume_outcome env s rest w2 Hrest) as [w' Ho].
  assert (Hbody : forall scriptFile c,
             direct_body env (compiledScriptPath env scriptFile) parameters tool c
             = (c, match import env (pathToFileURL_href env
                                       (compiledScriptPath env scriptFile)) with
                   | Fulfilled _ =>
                       RejectedWith
                         (ErrorObj ("Direct execution not implemented for tool: " +:+ tool))
                   | RejectedWith e => RejectedWith e
                   | NeverSettles => NeverSettles
                   end)).
  { intros scriptFile c. unfold direct_body. rewrite Hnone.
    destruct (import env _); reflexivity. }
  destruct (obj_get toolScriptMap tool) as [scriptFile| |] eqn:Hobj.
  - destruct (existsSync env (compiledScriptPath env scriptFile)) eqn:Hex.
    + destruct Ha as (c & timer & Ha). rewrite Ha, Hbody in Ho.
      destruct (import env _) as [m|e|] eqn:Him; [| |contradiction].
      * rewrite Hr in Ho. injection Ho as -> _. rewrite Ht.
        split; [reflexivity|]. split; [eauto|].
        intros scriptFile' m' [= <-] _ _. reflexivity.
      * rewrite Hr in Ho. injection Ho as -> _. rewrite Ht.
        split; [reflexivity|]. split; [eauto|].
        intros scriptFile' m' [= <-] _ Him'. rewrite Him in Him'. discriminate.
    + rewrite Ha in Ho. rewrite Hr in Ho. injection Ho as -> _. rewrite Ht.
      split; [reflexivity|]. split; [eauto|].
      intros scriptFile' m' [= <-] Hex'. rewrite Hex in Hex'. discriminate.
  - rewrite Ha in Ho. rewrite Hr in Ho. injection Ho as -> _. rewrite Ht.
    split; [reflexivity|]. split; [eauto|]. discriminate.
  - rewrite Ha in Ho. rewrite Hr in Ho. injection Ho as -> _. rewrite Ht.
    split; [reflexivity|]. split; [eauto|]. discriminate.
Qed.

Lemma X8_witness :
  exists s w1 rest w3,
    executeTool_begin demo_returns "execute-composed-proof-full-kyc" [] (initial_world 1000)
    = (inr s, w1) /\
    executeTool_resume demo_returns s = Some rest /\
    rest w1
    = (inr (failure_record
              (ErrorObj "Direct execution not implemented for tool: execute-composed-proof-full-kyc")
              1000 1000), w3).
Proof.
  destruct (executeTool_begin demo_returns "execute-composed-proof-full-kyc" []
              (initial_world 1000)) as [[e|s] w1] eqn:Hb; [vm_compute in Hb; discriminate|].
  destruct (executeTool_resume demo_returns s) as [rest|] eqn:Hrest.
  2: { vm_compute in Hb. injection Hb as <- <-. vm_compute in Hrest. discriminate. }
  destruct (rest w1) as [[e|r] w3] eqn:Hw.
  { destruct (total_executeTool_resume demo_returns s rest Hrest w1) as [a Ha].
    rewrite Hw in Ha. discriminate. }
  exists s, w1, rest, w3.
  split; [reflexivity|]. split; [exact Hrest|]. rewrite Hw.
  destruct (X8_a_tool_without_a_direct_case_never_succeeds demo_returns) as [_ H].
  destruct (H "execute-composed-proof-full-kyc" [] (initial_world 1000) s w1 rest w1 r w3)
    as (_ & _ & Hmsg); [vm_compute; tauto | exact Hb | exact Hrest | exact Hw |].
  rewrite (Hmsg "ComposedRecursiveOptim3LevelVerificationTestWithSign.js"
             [ ("executeGLEIFVerificationDirect",
                fun _ => {| cap_log := [Log "GLEIF verification"];
                            cap_end := CapReturns None |}) ]
             eq_refl eq_refl eq_refl).
  replace (now w1) with 1000; [reflexivity|].
  vm_compute in Hb. injection Hb as _ <-. reflexivity.
Defined.

(** X9. [executeDirectly] arms its timer when the compiled script is
    there, and [clearTimeout] is reached only when the tool's function has
    returned: after a call of [executeTool] that ends with [success = true]
    the timer is gone, and after one that ends with [success = false] the
    armed timers are what they were, the timer of this call among them. The
    timer is due after the delay that Node makes of the configured timeout:
    the timeout itself when it is a number from 1 to 2^31 - 1, and 1
    millisecond otherwise. *)
Theorem X9_the_timer_is_cleared_only_when_the_function_returns
    (env : Env) (tool : string) (parameters : Params) (w w1 : World) (s : Suspended) :
  executeTool_begin env tool parameters w = (inr s, w1) ->
  (if arms env tool
   then timers w1 = timers w ++ [(timer_seq w, now w + timer_delay (timeout (config env)))] /\
        timer_seq w1 = S (timer_seq w)
   else timers w1 = timers w /\ timer_seq w1 = timer_seq w) /\
  forall rest w2 r w3,
    executeTool_resume env s = Some rest ->
    rest w2 = (inr r, w3) ->
    timer_seq w3 = timer_seq w2 /\
    timers w3 = if arms env tool && success r
                then without_timer (timer_seq w) (timers w2)
                else timers w2.
Proof.
  intros Hb.
  destruct (executeTool_begin_full env tool parameters w)
    as (s' & w1' & us & Hb' & _ & _ & Harm).
  rewrite Hb in Hb'. injection Hb' as <- <-.
  split.
  { destruct (arms env tool); tauto. }
  intros rest w2 r w3 Hrest Hr.
  pose proof (executeTool_resume_clock env s rest w2 Hrest) as Hclock.
  destruct (executeTool_resume_outcome env s rest w2 Hrest) as [w' Ho].
  rewrite Hr in Hclock. simpl in Hclock. destruct Hclock as (_ & Hseq & Htimers).
  split; [exact Hseq|]. rewrite Htimers.
  destruct (arms env tool).
  - destruct Harm as (_ & _ & scriptFile & c & _ & Ha). rewrite Ha in Ho |- *.
    destruct (direct_body env _ parameters tool c) as [c1 [value|e|]];
      [| |contradiction]; rewrite Hr in Ho; injection Ho as -> _; reflexivity.
  - destruct Harm as (_ & _ & e & Ha). rewrite Ha. reflexivity.
Qed.

Lemma X9_witness :
  exists s w1 rest r w3,
    executeTool_begin demo_throws gleif [] (initial_world 1000) = (inr s, w1) /\
    timers w1 = [(0%nat, 1801000)] /\
    executeTool_resume demo_throws s = Some rest /\
    rest w1 = (inr r, w3) /\
    success r = false /\ timers w3 = [(0%nat, 1801000)].
Proof.
  destruct (executeTool_begin demo_throws gleif [] (initial_world 1000))
    as [[e|s] w1] eqn:Hb; [vm_compute in Hb; discriminate|].
  destruct (executeTool_resume demo_throws s) as [rest|] eqn:Hrest.
  2: { vm_compute in Hb. injection Hb as <- <-. vm_compute in Hrest. discriminate. }
  destruct (rest w1) as [[e|r] w3] eqn:Hw.
  { destruct (total_executeTool_resume demo_throws s rest Hrest w1) as [a Ha].
    rewrite Hw in Ha. discriminate. }
  destruct (X9_the_timer_is_cleared_only_when_the_function_returns demo_throws gleif []
              (initial_world 1000) w1 s Hb) as [H1 H2].
  destruct (H2 rest w1 r w3 Hrest Hw) as [_ H3].
  destruct (executeTool_resume_outcome demo_throws s rest w1 Hrest) as [w' Ho].
  assert (Hs : success r = false).
  { vm_compute in Hb. injection Hb as <- <-. vm_compute in Ho.
    rewrite Hw in Ho. injection Ho as -> _. reflexivity. }
  exists s, w1, rest, r, w3.
  split; [reflexivity|]. split; [exact (proj1 H1)|].
  split; [exact Hrest|]. split; [exact Hw|]. split; [exact Hs|].
  rewrite H3, Hs. exact (proj1 H1).
Defined.

(** ** The timers, turn by turn *)

Lemma assoc_nat_fresh {A} (ts : list (nat * A)) (n : nat) (d : A) :
  (forall h x, In (h, x) ts -> (h < n)%nat) ->
  assoc_nat n (ts ++ [(n, d)]) = Some d.
Proof.
  induction ts as [|[h x] ts IH]; simpl; intros Hlt.
  - rewrite Nat.eqb_refl. reflexivity.
  - destruct (Nat.eqb n h) eqn:E.
    + apply Nat.eqb_eq in E. specialize (Hlt h x (or_introl eq_refl)). lia.
    + apply IH. intros h' x' Hin. eapply Hlt. right. exact Hin.
Qed.

Lemma find_task_new (job : nat) (ts : list Task) (t : Task) :
  (forall t', In t' ts -> task_job t' <> job) ->
  task_job t = job ->
  find_task job (ts ++ [t]) = Some t.
Proof.
  intros Hne Hjob. unfold find_task.
  induction ts as [|x ts IH]; simpl.
  - rewrite Hjob, Nat.eqb_refl. reflexivity.
  - destruct (Nat.eqb (task_job x) job) eqn:E.
    + apply Nat.eqb_eq in E. exfalso. eapply Hne; [left; reflexivity | exact E].
    + apply IH. intros t' Hin. apply Hne. right. exact Hin.
Qed.

(** ** Unknown tools, through a job *)

Section UnknownTool.

Variable env : Env.

(** The call of [executeTool] that [processJob] leaves suspended. *)
Lemma processJob_begin_awaiting (job : nat) (j : Job) (w : World) :
  heap w !! job = Some j ->
  job_json_error j = None ->
  exists call w2,
    processJob_begin env job w = (inr tt, w2) /\
    tasks w2 = tasks w ++ [ {| task_job := job; task_startTime := now w;
                               task_call := call |} ] /\
    tool_startTime call = now w /\
    (obj_get toolScriptMap (toolName j) = Undefined ->
     awaiting call = AwaitRejected (ErrorObj (unknown_tool_message (toolName j)))).
Proof.
  intros Hj Hser. unfold processJob_begin.
  unfold bind at 1. unfold try_catch at 1.
  erewrite bind_eq by apply update_job_spec.
  erewrite bind_eq by apply update_job_spec.
  erewrite bind_eq
    by (apply broadcastJobUpdate_spec;
        [simpl; rewrite !list_lookup_alter_eq, Hj; reflexivity|exact Hser]).
  erewrite bind_eq by apply update_job_spec.
  erewrite bind_eq
    by (apply broadcastJobUpdate_spec;
        [simpl; rewrite !list_lookup_alter_eq, Hj; reflexivity|exact Hser]).
  erewrite bind_eq by reflexivity.
  erewrite bind_eq by reflexivity.
  simpl. rewrite !list_lookup_alter_eq, Hj. simpl.
  match goal with |- context [bind (executeTool_begin env ?t ?p) _ ?w1] =>
    destruct (executeTool_begin_awaiting env t p w1) as (call & w2 & E & Ht & Ha);
    destruct (framed_executeTool_begin env t p w1) as [us Hfr];
    rewrite E in Hfr; simpl in Hfr;
    rewrite (bind_eq _ _ w1 call w2 E)
  end.
  destruct Hfr as (_ & _ & H3 & _).
  erewrite bind_eq by reflexivity.
  unfold ret. simpl.
  exists call. eexists. split; [reflexivity|]. simpl.
  rewrite H3. split; [reflexivity|]. split; [exact Ht|].
  intros Hu. rewrite Hu in Ha. exact Ha.
Qed.

(** The call of [executeTool] that [startJob] leaves suspended. *)
Lemma startJob_awaiting (jobId tool : string) (params : Params) (w : World) :
  exists call w2,
    startJob env jobId tool params w = (inr (length (heap w)), w2) /\
    tasks w2 = tasks w ++ [ {| task_job := length (heap w); task_startTime := now w;
                               task_call := call |} ] /\
    tool_startTime call = now w /\
    (obj_get toolScriptMap tool = Undefined ->
     awaiting call = AwaitRejected (ErrorObj (unknown_tool_message tool))).
Proof.
  unfold startJob.
  erewrite bind_eq by apply createJob_spec.
  match goal with |- context [bind (try_catch (processJob_begin env ?job) ?h) _ ?w1] =>
    destruct (processJob_begin_awaiting job (new_job jobId tool params (now w)) w1)
      as (call & w2 & Hb & H1 & H2 & H3);
      [simpl; apply list_lookup_middle; reflexivity|reflexivity|];
    erewrite bind_eq by (apply try_catch_eq; exact Hb)
  end.
  exists call, w2. split; [reflexivity|]. simpl in H1, H2, H3. auto.
Qed.

End UnknownTool.




Section TimersInvariant.

Variable env : Env.

Lemma timers_ok_turn (w : World) (ev : Event) (ws : list World) :
  lifecycle_ok w ->
  timers_ok w ->
  turn env w ev = Some ws ->
  timers_ok (List.last ws w).
Proof.
  intros Hok Htok Hturn. pose proof (turn_clock env w ev ws Hok Hturn) as H.
  assert (Hsub : forall h d timer,
             In (h, d) (without_timer timer (timers w)) -> (h < timer_seq w)%nat).
  { intros h d timer Hin. apply filter_In in Hin as [Hin _]. eapply Htok, Hin. }
  unfold timers_ok in *.
  destruct ev.
  - destruct H as (call & w1 & w2 & -> & _ & _ & _ & _ & Harm). simpl.
    destruct (arms env tool).
    + destruct Harm as (Ht & Hs & _). rewrite Ht, Hs. intros h d. rewrite in_app_iff.
      intros [Hin|[[= <- <-]|[]]]; [apply Htok in Hin|]; lia.
    + destruct Harm as (Ht & Hs & _). rewrite Ht, Hs. exact Htok.
  - destruct H as (t & rest & w2 & -> & _ & _ & _ & Hs & Ht). simpl. rewrite Hs, Ht.
    destruct (awaiting (task_call t)) as [e|scriptPath tool parameters c timer];
      [exact Htok|].
    destruct (snd (direct_body env scriptPath parameters tool c)); eauto.
  - destruct H as (w' & d & -> & _ & _ & _ & Hs & Ht & _). simpl. rewrite Hs, Ht. eauto.
  - destruct H as (w' & -> & _ & Ht & Hs). simpl. rewrite Hs, Ht. exact Htok.
  - destruct H as (w' & -> & _ & _ & Ht & Hs). simpl. rewrite Hs, Ht. exact Htok.
  - destruct H as (w' & -> & _ & Ht & Hs). simpl. rewrite Hs, Ht. exact Htok.
  - destruct H as (w' & -> & _ & Ht & Hs). simpl. rewrite Hs, Ht. exact Htok.
Qed.

Lemma timers_ok_reachable (w : World) : reachable env w -> timers_ok w.
Proof.
  induction 1 as [t|w ev w' Hw IH Hstep].
  - intros h d [].
  - destruct (step_turn _ _ _ _ Hstep) as (ws & Hturn & ->).
    eapply timers_ok_turn; try eassumption. apply (lifecycle_ok_reachable env), Hw.
Qed.

End TimersInvariant.

(** X10. A direct execution that fails after its timer was armed (the
    import or the tool's function throws) takes the server down later: the
    Job ends 'completed' in the turn that resumes it, the timer stays
    armed, and once its delay has passed (the configured timeout when that
    is a number from 1 to 2^31 - 1, and 1 millisecond otherwise) its
    callback throws outside every handler, which ends the process. When
    the delay has passed before the execution is resumed, the callback
    ends the process while the Job is still 'running'. *)
Theorem X10_a_failed_direct_execution_ends_the_process_later
    (env : Env) (w : World) (jobId tool : string) (params : Params)
    (scriptFile : string) (e : Thrown) (ms : Z) :
  reachable env w ->
  crashed w = None ->
  obj_get toolScriptMap tool = Own scriptFile ->
  existsSync env (compiledScriptPath env scriptFile) = true ->
  snd (direct_body env (compiledScriptPath env scriptFile) params tool initial)
  = RejectedWith e ->
  0 <= ms ->
  timer_delay (timeout (config env)) <= ms ->
  exists w2 w3 w4 w5,
    step env w (StartJob jobId tool params) = Some w2 /\
    step env w2 (Resume (length (heap w))) = Some w3 /\
    status_of w3 (length (heap w)) = Some completed /\
    crashed w3 = None /\
    In (timer_seq w, now w + timer_delay (timeout (config env))) (timers w3) /\
    step env w3 (Tick ms) = Some w4 /\
    step env w4 (TimerFires (timer_seq w)) = Some w5 /\
    crashed w5 = Some (ErrorObj (timeout_message (timeout (config env)))) /\
    exists w4' w5',
      step env w2 (Tick ms) = Some w4' /\
      step env w4' (TimerFires (timer_seq w)) = Some w5' /\
      status_of w5' (length (heap w)) = Some running /\
      crashed w5' = Some (ErrorObj (timeout_message (timeout (config env)))).
Proof.
  intros Hreach Hc Hobj Hex Hbody Hms Hto.
  pose proof (lifecycle_ok_reachable env w Hreach) as Hok.
  pose proof (timers_ok_reachable env w Hreach) as Htok.
  set (job := length (heap w)).
  (* the turn of [startJob] *)
  destruct (turn env w (StartJob jobId tool params)) as [ws1|] eqn:Hturn1.
  2: { unfold turn in Hturn1. rewrite Hc in Hturn1.
       destruct (createJob jobId tool params w) as [[?|?] ?]; discriminate. }
  pose proof (turn_clock env w _ ws1 Hok Hturn1) as Hclock1.
  destruct Hclock1 as (call & w1 & w2 & -> & _ & Hnow2 & Htasks2 & _ & Harm).
  assert (Ha : arms env tool = true) by (unfold arms; rewrite Hobj; exact Hex).
  rewrite Ha in Harm. destruct Harm as (Htimers2 & Hseq2 & scriptFile' & c & Hobj' & Hcall).
  rewrite Hobj in Hobj'. injection Hobj' as <-.
  destruct (turn_cases env w _ _ Hok Hturn1) as [_ [Hcase|[Hcase|Hcase]]].
  2: { destruct Hcase as (? & ? & ? & ? & ? & ? & ? & _). discriminate. }
  2: { destruct Hcase as (? & ? & _). discriminate. }
  destruct Hcase as (jobId' & tool' & params' & call' & w1' & w2' & [= <- <- <-] &
                     [= <- <-] & _ & _ & _ & Hheap2 & _ & _ & _ & _ & Hc2).
  pose proof (lifecycle_ok_turn env w _ _ Hok Hturn1) as Hok2. simpl in Hok2.
  (* the turn that resumes [processJob] *)
  set (t := {| task_job := job; task_startTime := now w; task_call := call |}) in *.
  assert (Hfind : find_task job (tasks w2) = Some t).
  { rewrite Htasks2. apply find_task_new; [|reflexivity].
    intros t' Hin. destruct Hok as [_ Htasks].
    destruct (Htasks t' Hin) as (j & Hj & _). apply lookup_lt_Some in Hj.
    unfold job. lia. }
  assert (Hend : snd (direct_body env (compiledScriptPath env scriptFile) params tool c)
                 = RejectedWith e).
  { rewrite <- Hbody. apply direct_body_end. }
  destruct (executeTool_resume env call) as [rest|] eqn:Hrest.
  2: { unfold executeTool_resume, awaited in Hrest. rewrite Hcall in Hrest.
       destruct (direct_body env (compiledScriptPath env scriptFile) params tool c)
         as [c1 p]. simpl in Hend. subst p. discriminate. }
  destruct (turn env w2 (Resume job)) as [ws2|] eqn:Hturn2.
  2: { unfold turn in Hturn2. rewrite Hc2, Hfind in Hturn2. simpl in Hturn2.
       rewrite Hrest in Hturn2. discriminate. }
  pose proof (turn_clock env w2 _ ws2 Hok2 Hturn2) as Hclock2.
  destruct Hclock2 as (t' & rest' & w3 & -> & Hfind' & _ & Hnow3 & Hseq3 & Htimers3).
  rewrite Hfind in Hfind'. injection Hfind' as <-. simpl in Htimers3.
  rewrite Hcall, Hend in Htimers3.
  destruct (turn_cases env w2 _ _ Hok2 Hturn2) as [_ [Hcase|[Hcase|Hcase]]].
  1: { destruct Hcase as (? & ? & ? & ? & ? & ? & ? & _). discriminate. }
  2: { destruct Hcase as (w' & [= <-] & Hh & _).
       assert (Hstep : step env w2 (Resume job) = Some w3)
         by (unfold step; rewrite Hturn2; reflexivity).
       destruct (resume_step_spec env w2 job w3 Hok2 Hstep)
         as (t0 & r & j & us & _ & Hj & Hrun & Hh3 & _).
       exfalso.
       assert (Hf : heap w2 !! job
                    = Some (finished r (task_startTime t0) (now w2) j)).
       { rewrite <- Hh, Hh3. apply list_lookup_insert_eq. eapply lookup_lt_Some, Hj. }
       rewrite Hj in Hf. injection Hf as Hf. rewrite Hf in Hrun. discriminate Hrun. }
  destruct Hcase as (job' & t' & rest'' & r & j & w3' & [= <-] & [= <-] & Hfind'' &
                     Hrest'' & Hj & _ & Hheap3 & _ & _ & Hc3 & Hr).
  rewrite Hfind in Hfind''. injection Hfind'' as <-.
  unfold t in Hrest''. simpl in Hrest''.
  rewrite Hrest in Hrest''. injection Hrest'' as <-.
  destruct (executeTool_resume_rejected env call e
              (with_tasks (remove_task job (tasks w2)) w2))
    as (rest0 & w0' & Hrest0 & Hw0).
  { unfold rejection. rewrite Hcall, Hend. reflexivity. }
  rewrite Hrest in Hrest0. injection Hrest0 as <-.
  rewrite Hw0 in Hr. injection Hr as <-. simpl in Hc3.
  exists w2, w3, (with_now (now w3 + ms) w3).
  eexists.
  split; [unfold step; rewrite Hturn1; reflexivity|].
  split; [unfold step; rewrite Hturn2; reflexivity|].
  split.
  { unfold status_of. rewrite Hheap3, list_lookup_insert_eq; [reflexivity|].
    eapply lookup_lt_Some, Hj. }
  split; [exact Hc3|].
  split.
  { rewrite Htimers3, Htimers2. apply in_app_iff. right. left. reflexivity. }
  split.
  { unfold step, turn. rewrite Hc3.
    destruct (0 <=? ms) eqn:E; [reflexivity|]. apply Z.leb_gt in E. lia. }
  assert (Hassoc : assoc_nat (timer_seq w) (timers w3) = Some (now w + timer_delay (timeout (config env)))).
  { rewrite Htimers3, Htimers2. apply assoc_nat_fresh. exact Htok. }
  assert (Hassoc2 : assoc_nat (timer_seq w) (timers w2)
                    = Some (now w + timer_delay (timeout (config env)))).
  { rewrite Htimers2. apply assoc_nat_fresh. exact Htok. }
  split.
  { unfold step, turn. simpl. rewrite Hc3, Hassoc.
    destruct (now w + timer_delay (timeout (config env)) <=? now w3 + ms) eqn:E;
      [reflexivity|]. apply Z.leb_gt in E. lia. }
  split; [reflexivity|].
  exists (with_now (now w2 + ms) w2). eexists.
  split.
  { unfold step, turn. rewrite Hc2.
    destruct (0 <=? ms) eqn:E; [reflexivity|]. apply Z.leb_gt in E. lia. }
  split.
  { unfold step, turn. simpl. rewrite Hc2, Hassoc2.
    destruct (now w + timer_delay (timeout (config env)) <=? now w2 + ms) eqn:E;
      [reflexivity|]. apply Z.leb_gt in E. lia. }
  split; [|reflexivity].
  unfold status_of. simpl. rewrite Hheap2.
  rewrite list_lookup_middle by reflexivity. reflexivity.
Qed.

Lemma X10_witness :
  exists w2 w3 w4 w5,
    step demo_throws (initial_world 1000) (StartJob "j1" gleif []) = Some w2 /\
    step demo_throws w2 (Resume 0) = Some w3 /\
    status_of w3 0 = Some completed /\
    step demo_throws w3 (Tick 1800000) = Some w4 /\
    step demo_throws w4 (TimerFires 0) = Some w5 /\
    crashed w5 = Some (ErrorObj (timeout_message (SafeInt 1800000))).
Proof.
  destruct (X10_a_failed_direct_execution_ends_the_process_later demo_throws
              (initial_world 1000) "j1" gleif []
              "GLEIFOptimMultiCompanyVerificationTestWithSign.js" (ErrorObj "boom") 1800000)
    as (w2 & w3 & w4 & w5 & H1 & H2 & H3 & _ & _ & H4 & H5 & H6 & _).
  - apply reachable_initial.
  - reflexivity.
  - reflexivity.
  - reflexivity.
  - vm_compute. reflexivity.
  - lia.
  - simpl. lia.
  - exists w2, w3, w4, w5.
    split; [exact H1|]. split; [exact H2|]. split; [exact H3|].
    split; [exact H4|]. split; [exact H5|exact H6].
Defined.

(** ** healthCheck *)

Lemma count_found (P : string -> bool) (files : list string) (n : nat) :
  fold_left (fun found file => if P file then S found else found) files n
  = (n + length (List.filter P files))%nat.
Proof.
  revert n. induction files as [|f files IH]; intros n; simpl; [lia|].
  rewrite IH. destruct (P f); simpl; lia.
Qed.

Lemma healthCheck_found (env : Env) (path_join2 : string -> string -> string)
    (st : HealthStatus) :
  health_status (healthCheck env path_join2) = Some st ->
  compiledFilesFound st
  = length (List.filter (fun file => existsSync env (compiledScriptPath env file))
              compiledFiles).
Proof.
  unfold healthCheck.
  destruct (existsSync env (stdioPath (config env))); simpl; [|discriminate].
  intros [= <-]. simpl.
  apply (count_found (fun file => existsSync env (compiledScriptPath env file))
           compiledFiles 0).
Qed.

(** X11. [healthCheck] reports [connected] exactly when the main path
    exists and at least one of the three compiled scripts it looks for is
    there (the build directory itself and the scripts of the other tools
    play no part); it gives a status object exactly when the main path
    exists, with a count of found files that is at most the three looked
    for, and the health route says 'healthy' exactly when [connected]
    holds. *)
Theorem X11_healthCheck_counts_three_compiled_scripts
    (env : Env) (path_join2 : string -> string -> string)
    (ENABLE_ASYNC_JOBS : option string) (w : World) :
  let h := healthCheck env path_join2 in
  (connected h = true <->
   existsSync env (stdioPath (config env)) = true /\
   exists file, In file compiledFiles /\
                existsSync env (compiledScriptPath env file) = true) /\
  (is_Some (health_status h) <-> existsSync env (stdioPath (config env)) = true) /\
  (forall st, health_status h = Some st ->
     compiledFilesFound st
     = length (List.filter (fun file => existsSync env (compiledScriptPath env file))
                 compiledFiles) /\
     (compiledFilesFound st <= totalCompiledFiles st)%nat /\
     totalCompiledFiles st = 3%nat /\
     (connected h = true <-> (0 < compiledFilesFound st)%nat)) /\
  report_healthy (health_route env path_join2 ENABLE_ASYNC_JOBS w) = connected h.
Proof.
  intros h. subst h. unfold health_route, healthCheck.
  pose proof (count_found (fun file => existsSync env (compiledScriptPath env file))
                compiledFiles 0) as Hcount.
  unfold compiledScriptPath in *. rewrite Hcount. clear Hcount.
  set (found := List.filter _ compiledFiles).
  assert (Hlen : (length found <= 3)%nat).
  { subst found. etransitivity; [apply filter_length_le|]. simpl. lia. }
  assert (Hex : (0 < length found)%nat <->
                exists file, In file compiledFiles /\
                  existsSync env (path_join env (stdioPath (config env))
                                    (stdioBuildPath (config env)) file) = true).
  { subst found. split.
    - intros Hpos. destruct (List.filter _ compiledFiles) as [|f l] eqn:E;
        [simpl in Hpos; lia|].
      assert (Hin : In f (f :: l)) by (left; reflexivity).
      rewrite <- E in Hin. apply filter_In in Hin. eauto.
    - intros (file & Hin & Hf).
      assert (Hin' : In file (List.filter
                 (fun file => existsSync env
                    (path_join env (stdioPath (config env))
                       (stdioBuildPath (config env)) file)) compiledFiles))
        by (apply filter_In; auto).
      destruct (List.filter _ compiledFiles); [destruct Hin'|simpl; lia]. }
  destruct (existsSync env (stdioPath (config env))); simpl.
  - split; [|split; [|split]].
    + rewrite Nat.ltb_lt, Hex. tauto.
    + split; [reflexivity|eauto].
    + intros st [= <-]. simpl. rewrite Nat.ltb_lt. repeat split; auto; lia.
    + reflexivity.
  - split; [|split; [|split]].
    + split; [discriminate|]. intros [H _]. discriminate.
    + split; [intros [x H]; discriminate|discriminate].
    + discriminate.
    + reflexivity.
Qed.

(** X12. When [healthCheck] finds none of its three compiled scripts, the
    three tools they belong to (GLEIF, Corporate Registration, EXIM) cannot
    run: every call of [executeTool] for one of them ends in the failure
    record whose error says that the compiled JavaScript file was not found,
    and it arms no timer. *)
Theorem X12_no_compiled_script_found_means_three_tools_fail
    (env : Env) (path_join2 : string -> string -> string) (st : HealthStatus)
    (tool : string) (parameters : Params) (w : World) :
  health_status (healthCheck env path_join2) = Some st ->
  compiledFilesFound st = 0%nat ->
  In tool [ "get-GLEIF-verification-with-sign";
            "get-Corporate-Registration-verification-with-sign";
            "get-EXIM-verification-with-sign" ] ->
  exists scriptFile s w1,
    obj_get toolScriptMap tool = Own scriptFile /\
    executeTool_begin env tool parameters w = (inr s, w1) /\
    timers w1 = timers w /\
    forall w2, exists rest w3,
      executeTool_resume env s = Some rest /\
      rest w2
      = (inr (failure_record
                (ErrorObj (not_found_message (compiledScriptPath env scriptFile)))
                (now w) (now w2)), w3).
Proof.
  intros Hst Hzero Hin.
  pose proof (healthCheck_found env path_join2 st Hst) as Hfound.
  rewrite Hzero in Hfound.
  assert (Hnone : forall file, In file compiledFiles ->
                    existsSync env (compiledScriptPath env file) = false).
  { intros file Hf. destruct (existsSync env (compiledScriptPath env file)) eqn:E;
      [|reflexivity].
    assert (Hin' : In file (List.filter
               (fun file => existsSync env (compiledScriptPath env file)) compiledFiles))
      by (apply filter_In; auto).
    destruct (List.filter _ compiledFiles); [destruct Hin'|discriminate]. }
  assert (Hscript : exists scriptFile,
             obj_get toolScriptMap tool = Own scriptFile /\ In scriptFile compiledFiles).
  { destruct Hin as [<-|[<-|[<-|[]]]]; eexists; (split; [reflexivity|]); simpl; auto. }
  destruct Hscript as (scriptFile & Hobj & Hfile).
  pose proof (Hnone scriptFile Hfile) as Hex.
  destruct (executeTool_begin_full env tool parameters w)
    as (s & w1 & us & Hb & _ & Ht & Harm).
  destruct (executeTool_begin_awaiting env tool parameters w) as (s' & w1' & Hb' & _ & Ha).
  rewrite Hb in Hb'. injection Hb' as <- <-.
  unfold arms in Harm. rewrite Hobj, Hex in Harm, Ha.
  exists scriptFile, s, w1. split; [exact Hobj|]. split; [exact Hb|].
  split; [tauto|].
  intros w2. rewrite <- Ht. apply executeTool_resume_rejected.
  unfold rejection. rewrite Ha. reflexivity.
Qed.

Lemma X12_witness :
  exists scriptFile s w1,
    obj_get toolScriptMap gleif = Own scriptFile /\
    executeTool_begin demo_unbuilt gleif [] (initial_world 1000) = (inr s, w1) /\
    timers w1 = timers (initial_world 1000) /\
    forall w2, exists rest w3,
      executeTool_resume demo_unbuilt s = Some rest /\
      rest w2
      = (inr (failure_record
                (ErrorObj (not_found_message (compiledScriptPath demo_unbuilt scriptFile)))
                (now (initial_world 1000)) (now w2)), w3).
Proof.
  apply (X12_no_compiled_script_found_means_three_tools_fail demo_unbuilt demo_join2
           {| health_path := "/app";
              health_buildPath := "/app/build/src/tests/with-sign";
              compiledFilesFound := 0; totalCompiledFiles := 3 |}).
  - vm_compute. reflexivity.
  - reflexivity.
  - simpl. auto.
Defined.

(** ** The console capture *)

Lemma append_assoc (a b c : string) : (a +:+ b) +:+ c = a +:+ (b +:+ c).
Proof.
  induction a as [|x a IH]; [reflexivity|].
  change (String x ((a +:+ b) +:+ c) = String x (a +:+ (b +:+ c))). f_equal. exact IH.
Qed.

Lemma append_nil_r (a : string) : a +:+ "" = a.
Proof.
  induction a as [|x a IH]; [reflexivity|].
  change (String x (a +:+ "") = String x a). f_equal. exact IH.
Qed.

Lemma set_out_eta (c : Capture) : set_out (stdout c) (stderr c) c = c.
Proof. destruct c. reflexivity. Qed.

(** What [console.log] does to the phase, the snapshots and the broadcasts
    does not depend on the output collected so far. *)
Lemma detect_set_out (marker : string) (p : Phase) (out err o : string) (c : Capture) :
  detect marker p o (set_out out err c) = set_out out err (detect marker p o c).
Proof. unfold detect. destruct (includes marker o); reflexivity. Qed.

Lemma on_total_before_set_out (out err o : string) (c : Capture) :
  on_total capturedBeforeState set_before o (set_out out err c)
  = set_out out err (on_total capturedBeforeState set_before o c).
Proof.
  unfold on_total. destruct (includes _ o); [|reflexivity].
  destruct (match_digits _ o); [|reflexivity]. simpl.
  destruct (capturedBeforeState c); reflexivity.
Qed.

Lemma on_compliant_before_set_out (out err o : string) (c : Capture) :
  on_compliant capturedBeforeState set_before o (set_out out err c)
  = set_out out err (on_compliant capturedBeforeState set_before o c).
Proof.
  unfold on_compliant. destruct (includes _ o); [|reflexivity].
  destruct (match_digits _ o); [|reflexivity]. simpl.
  destruct (capturedBeforeState c); reflexivity.
Qed.

Lemma on_total_after_set_out (out err o : string) (c : Capture) :
  on_total capturedAfterState set_after o (set_out out err c)
  = set_out out err (on_total capturedAfterState set_after o c).
Proof.
  unfold on_total. destruct (includes _ o); [|reflexivity].
  destruct (match_digits _ o); [|reflexivity]. simpl.
  destruct (capturedAfterState c); reflexivity.
Qed.

Lemma on_compliant_after_set_out (out err o : string) (c : Capture) :
  on_compliant capturedAfterState set_after o (set_out out err c)
  = set_out out err (on_compliant capturedAfterState set_after o c).
Proof.
  unfold on_compliant. destruct (includes _ o); [|reflexivity].
  destruct (match_digits _ o); [|reflexivity]. simpl.
  destruct (capturedAfterState c); reflexivity.
Qed.

Lemma parse_before_set_out (out err o : string) (c : Capture) :
  parse_before o (set_out out err c) = set_out out err (parse_before o c).
Proof.
  unfold parse_before. cbv zeta.
  rewrite on_total_before_set_out, on_compliant_before_set_out.
  destruct (includes _ o); [|reflexivity].
  destruct (match_digits _ o); [|reflexivity]. simpl.
  destruct (capturedBeforeState _); reflexivity.
Qed.

Lemma parse_after_set_out (out err o : string) (c : Capture) :
  parse_after o (set_out out err c) = set_out out err (parse_after o c).
Proof.
  unfold parse_after. cbv zeta.
  rewrite on_total_after_set_out, on_compliant_after_set_out.
  destruct (includes _ o); [|reflexivity].
  destruct (match_digits _ o); [|reflexivity]. simpl.
  destruct (capturedAfterState _); reflexivity.
Qed.

Lemma consoleLog_set_out (out err o : string) (c : Capture) :
  consoleLog (set_out out err c) o
  = set_out (out +:+ o +:+ String "010"%char "") err (consoleLog c o).
Proof.
  unfold consoleLog. cbv zeta.
  change (append_stdout o (set_out out err c))
    with (set_out (out +:+ o +:+ String "010"%char "") err (append_stdout o c)).
  set (out' := out +:+ o +:+ String "010"%char "").
  rewrite detect_set_out.
  set (c1 := detect marker_before before_state_capturing o (append_stdout o c)).
  change (currentPhase (set_out out' err c1)) with (currentPhase c1).
  destruct (Phase_eqb (currentPhase c1) before_state_capturing).
  - rewrite parse_before_set_out, detect_set_out.
    set (c2 := detect marker_after after_state_capturing o (parse_before o c1)).
    change (currentPhase (set_out out' err c2)) with (currentPhase c2).
    destruct (Phase_eqb (currentPhase c2) after_state_capturing);
      [apply parse_after_set_out | reflexivity].
  - rewrite detect_set_out.
    set (c2 := detect marker_after after_state_capturing o c1).
    change (currentPhase (set_out out' err c2)) with (currentPhase c2).
    destruct (Phase_eqb (currentPhase c2) after_state_capturing);
      [apply parse_after_set_out | reflexivity].
Qed.

Lemma feed_set_out (ls : list LogCall) :
  forall (out err : string) (c : Capture),
    feed (set_out out err c) ls
    = set_out (out +:+ lines (logged ls)) (err +:+ lines (errored ls))
        (feed c (Log <$> logged ls)).
Proof.
  induction ls as [|[o|o] ls IH]; intros out err c.
  - simpl. rewrite !append_nil_r. reflexivity.
  - change (feed (set_out out err c) (Log o :: ls))
      with (feed (consoleLog (set_out out err c) o) ls).
    rewrite consoleLog_set_out, IH. simpl. rewrite !append_assoc. reflexivity.
  - change (feed (set_out out err c) (LogError o :: ls))
      with (feed (set_out out (err +:+ o +:+ String "010"%char "") c) ls).
    rewrite IH. simpl. rewrite !append_assoc. reflexivity.
Qed.

(** X13. The console capture loses no line: after any sequence of console
    calls, [stdout] is what it was followed by every [console.log] line in
    order, each with its line feed, and [stderr] likewise for
    [console.error]; and the lines of [console.error] are never parsed:
    without them the phase, the two snapshots and the broadcasts come out
    the same. *)
Theorem X13_the_capture_collects_every_line (c : Capture) (ls : list LogCall) :
  stdout (feed c ls) = stdout c +:+ lines (logged ls) /\
  stderr (feed c ls) = stderr c +:+ lines (errored ls) /\
  currentPhase (feed c ls) = currentPhase (feed c (Log <$> logged ls)) /\
  capturedBeforeState (feed c ls) = capturedBeforeState (feed c (Log <$> logged ls)) /\
  capturedAfterState (feed c ls) = capturedAfterState (feed c (Log <$> logged ls)) /\
  sent (feed c ls) = sent (feed c (Log <$> logged ls)).
Proof.
  rewrite <- (set_out_eta c) at 1 3 5 7 9 11.
  rewrite feed_set_out. repeat split.
Qed.

(** *** The values that the patterns capture *)

Lemma take_digits_digits (s : string) :
  forallb is_digit (list_ascii_of_string (take_digits s)) = true.
Proof.
  induction s as [|a s IH]; simpl; [reflexivity|].
  destruct (is_digit a) eqn:E; simpl; [|reflexivity]. rewrite E. exact IH.
Qed.

Lemma match_here_number (label s d : string) :
  match_here label s = Some d -> is_number d.
Proof.
  unfold match_here. destruct (String.prefix label s); [|discriminate].
  pose proof (take_digits_digits (Js.drop (String.length label) s)) as H.
  destruct (take_digits (Js.drop (String.length label) s)) as [|a r]; [discriminate|].
  intros [= <-]. split; [discriminate | exact H].
Qed.

Lemma match_digits_number (label s d : string) :
  match_digits label s = Some d -> is_number d.
Proof.
  induction s as [|a s IH]; unfold match_digits; fold match_digits.
  - destruct (match_here label "") eqn:E; [|discriminate].
    intros [= <-]. eapply match_here_number, E.
  - destruct (match_here label (String a s)) eqn:E.
    + intros [= <-]. eapply match_here_number, E.
    + exact IH.
Qed.

(** *** The snapshots, assignment by assignment *)

Section Snapshots.

Variables verifications hash : string.

Lemma on_total_steps (get : Capture -> option Obj)
    (set : option Obj -> Capture -> Capture) (o : string) (c : Capture) :
  (forall b c, get (set b c) = b) ->
  rtc (snapshot_step verifications hash) (get c) (get (on_total get set o c)).
Proof.
  intros Hgs. unfold on_total.
  destruct (includes _ o); [|apply rtc_refl].
  destruct (match_digits _ o) as [m|] eqn:Hm; [|apply rtc_refl].
  destruct (get c) eqn:Hg.
  - rewrite Hg. apply rtc_refl.
  - rewrite Hgs. apply rtc_once. constructor. eapply match_digits_number, Hm.
Qed.

Lemma on_compliant_steps (get : Capture -> option Obj)
    (set : option Obj -> Capture -> Capture) (o : string) (c : Capture) :
  (forall b c, get (set b c) = b) ->
  rtc (snapshot_step verifications hash) (get c) (get (on_compliant get set o c)).
Proof.
  intros Hgs. unfold on_compliant.
  destruct (includes _ o); [|apply rtc_refl].
  destruct (match_digits _ o) as [m|] eqn:Hm; [|apply rtc_refl].
  destruct (get c) eqn:Hg.
  - rewrite Hgs. apply rtc_once. constructor. eapply match_digits_number, Hm.
  - rewrite Hg. apply rtc_refl.
Qed.

End Snapshots.

Lemma parse_before_steps (o : string) (c : Capture) :
  rtc (snapshot_step "0" "initial-hash")
    (capturedBeforeState c) (capturedBeforeState (parse_before o c)).
Proof.
  unfold parse_before. cbv zeta.
  set (c1 := on_total capturedBeforeState set_before o c).
  set (c2 := on_compliant capturedBeforeState set_before o c1).
  assert (H12 : rtc (snapshot_step "0" "initial-hash")
                  (capturedBeforeState c) (capturedBeforeState c2)).
  { etransitivity.
    - apply (on_total_steps "0" "initial-hash" capturedBeforeState set_before o c).
      reflexivity.
    - apply (on_compliant_steps "0" "initial-hash" capturedBeforeState set_before o c1).
      reflexivity. }
  destruct (includes _ o); [|exact H12].
  destruct (match_digits _ o) as [m|] eqn:Hm; [|exact H12].
  destruct (capturedBeforeState c2) as [s|] eqn:E; [|rewrite E; exact H12].
  simpl. eapply rtc_r; [exact H12|]. constructor. eapply match_digits_number, Hm.
Qed.

Lemma parse_after_steps (o : string) (c : Capture) :
  rtc (snapshot_step "1" "updated-hash")
    (capturedAfterState c) (capturedAfterState (parse_after o c)).
Proof.
  unfold parse_after. cbv zeta.
  set (c1 := on_total capturedAfterState set_after o c).
  set (c2 := on_compliant capturedAfterState set_after o c1).
  assert (H12 : rtc (snapshot_step "1" "updated-hash")
                  (capturedAfterState c) (capturedAfterState c2)).
  { etransitivity.
    - apply (on_total_steps "1" "updated-hash" capturedAfterState set_after o c).
      reflexivity.
    - apply (on_compliant_steps "1" "updated-hash" capturedAfterState set_after o c1).
      reflexivity. }
  destruct (includes _ o); [|exact H12].
  destruct (match_digits _ o) as [m|] eqn:Hm; [|exact H12].
  destruct (capturedAfterState c2) as [s|] eqn:E; [|rewrite E; exact H12].
  simpl. eapply rtc_r; [exact H12|]. constructor. eapply match_digits_number, Hm.
Qed.

Lemma after_detect (marker : string) (p : Phase) (o : string) (c : Capture) :
  capturedAfterState (detect marker p o c) = capturedAfterState c.
Proof. unfold detect. destruct (includes marker o); reflexivity. Qed.

Lemma after_parse_before (o : string) (c : Capture) :
  capturedAfterState (parse_before o c) = capturedAfterState c.
Proof.
  unfold parse_before, on_total, on_compliant.
  repeat (case_match; simpl); reflexivity.
Qed.

Lemma consoleLog_before_steps (c : Capture) (o : string) :
  rtc (snapshot_step "0" "initial-hash")
    (capturedBeforeState c) (capturedBeforeState (consoleLog c o)).
Proof.
  unfold consoleLog. cbv zeta.
  set (c1 := detect marker_before before_state_capturing o (append_stdout o c)).
  assert (H1 : capturedBeforeState c1 = capturedBeforeState c)
    by (subst c1; rewrite before_detect; reflexivity).
  set (c2 := if Phase_eqb (currentPhase c1) before_state_capturing
             then parse_before o c1 else c1).
  assert (H2 : rtc (snapshot_step "0" "initial-hash")
                 (capturedBeforeState c) (capturedBeforeState c2)).
  { subst c2. rewrite <- H1. destruct (Phase_eqb _ _); [apply parse_before_steps|].
    apply rtc_refl. }
  destruct (Phase_eqb _ after_state_capturing);
    rewrite ?before_parse_after, before_detect; exact H2.
Qed.

Lemma consoleLog_after_steps (c : Capture) (o : string) :
  rtc (snapshot_step "1" "updated-hash")
    (capturedAfterState c) (capturedAfterState (consoleLog c o)).
Proof.
  unfold consoleLog. cbv zeta.
  set (c1 := detect marker_before before_state_capturing o (append_stdout o c)).
  assert (H1 : capturedAfterState c1 = capturedAfterState c)
    by (subst c1; rewrite after_detect; reflexivity).
  set (c2 := if Phase_eqb (currentPhase c1) before_state_capturing
             then parse_before o c1 else c1).
  assert (H2 : capturedAfterState c2 = capturedAfterState c).
  { subst c2. destruct (Phase_eqb _ _); rewrite ?after_parse_before; exact H1. }
  set (c3 := detect marker_after after_state_capturing o c2).
  assert (H3 : capturedAfterState c3 = capturedAfterState c)
    by (subst c3; rewrite after_detect; exact H2).
  rewrite <- H3.
  destruct (Phase_eqb (currentPhase c3) after_state_capturing);
    [apply parse_after_steps | apply rtc_refl].
Qed.

Lemma feed_steps (ls : list LogCall) :
  forall c,
    rtc (snapshot_step "0" "initial-hash")
      (capturedBeforeState c) (capturedBeforeState (feed c ls)) /\
    rtc (snapshot_step "1" "updated-hash")
      (capturedAfterState c) (capturedAfterState (feed c ls)).
Proof.
  induction ls as [|[o|o] ls IH]; intros c.
  - split; apply rtc_refl.
  - change (feed c (Log o :: ls)) with (feed (consoleLog c o) ls).
    destruct (IH (consoleLog c o)) as [Hb Ha]. split.
    + etransitivity; [apply consoleLog_before_steps | exact Hb].
    + etransitivity; [apply consoleLog_after_steps | exact Ha].
  - change (feed c (LogError o :: ls)) with (feed (consoleError c o) ls).
    apply (IH (consoleError c o)).
Qed.

(** *** Objects built by property assignment *)

Lemma head_obj_set (k v k0 v0 : string) (o : Obj) :
  head o = Some (k0, v0) -> String.eqb k k0 = false ->
  head (obj_set k v o) = Some (k0, v0).
Proof.
  destruct o as [|[k' v'] o]; simpl; [discriminate|].
  intros [= -> ->] ->. reflexivity.
Qed.

Lemma keys_obj_set (k v x : string) (o : Obj) :
  In x (map fst (obj_set k v o)) -> x = k \/ In x (map fst o).
Proof.
  induction o as [|[k' v'] o IH]; simpl.
  - intros [<-|[]]. auto.
  - destruct (String.eqb k k') eqn:E; simpl.
    + apply String.eqb_eq in E. subst k'. tauto.
    + intros [<-|H]; [auto|]. destruct (IH H); auto.
Qed.

Lemma NoDup_obj_set (k v : string) (o : Obj) :
  NoDup (map fst o) -> NoDup (map fst (obj_set k v o)).
Proof.
  induction o as [|[k' v'] o IH]; simpl.
  - intros _. apply NoDup_singleton.
  - rewrite NoDup_cons. intros [Hk Ho].
    destruct (String.eqb k k') eqn:E; simpl.
    + apply String.eqb_eq in E. subst k'. apply NoDup_cons. auto.
    + apply NoDup_cons. split; [|auto].
      rewrite list_elem_of_In. intros Hin. apply keys_obj_set in Hin as [->|Hin].
      * rewrite String.eqb_refl in E. discriminate.
      * apply Hk, list_elem_of_In, Hin.
Qed.

Lemma Forall_obj_set (P : string * string -> Prop) (k v : string) (o : Obj) :
  P (k, v) -> Forall P o -> Forall P (obj_set k v o).
Proof.
  intros Hkv. induction 1 as [|[k' v'] o Hx Ho IH]; simpl.
  - constructor; [exact Hkv | constructor].
  - destruct (String.eqb k k'); constructor; auto.
Qed.

Lemma snapshot_step_ok (verifications hash : string) (b b' : option Obj) :
  is_number verifications ->
  snapshot_step verifications hash b b' ->
  (forall o, b = Some o -> snapshot_ok hash o) ->
  forall o', b' = Some o' -> snapshot_ok hash o'.
Proof.
  intros Hv Hstep Hb o' Ho'.
  assert (Hset : forall k v o,
             String.eqb k "totalCompaniesTracked" = false ->
             In k snapshot_fields ->
             (if String.eqb k "companiesRootHash" then v = hash else is_number v) ->
             snapshot_ok hash o -> snapshot_ok hash (obj_set k v o)).
  { intros k v o Hk Hin Hval ([m Hm] & Hnd & Hall). split; [|split].
    - exists m. apply head_obj_set; assumption.
    - apply NoDup_obj_set, Hnd.
    - apply Forall_obj_set; [split; assumption | exact Hall]. }
  destruct Hstep as [m Hm|m o Hm|m o Hm]; injection Ho' as <-.
  - split; [eexists; reflexivity|]. split; [apply NoDup_singleton|].
    constructor; [|constructor]. split; [simpl; auto | exact Hm].
  - apply Hset; [reflexivity | simpl; auto | exact Hm | auto].
  - unfold complete.
    apply Hset; [reflexivity | simpl; auto 10 | reflexivity |].
    apply Hset; [reflexivity | simpl; auto 10 | split; [discriminate|reflexivity] |].
    apply Hset; [reflexivity | simpl; auto 10 | exact Hv |].
    apply Hset; [reflexivity | simpl; auto 10 | exact Hm | auto].
Qed.

Lemma snapshot_steps_ok (verifications hash : string) (b b' : option Obj) :
  is_number verifications ->
  rtc (snapshot_step verifications hash) b b' ->
  (forall o, b = Some o -> snapshot_ok hash o) ->
  forall o', b' = Some o' -> snapshot_ok hash o'.
Proof.
  intros Hv Hsteps. induction Hsteps as [b|b b1 b' Hstep _ IH]; [auto|].
  intros Hb. apply IH. eapply snapshot_step_ok; eassumption.
Qed.

Lemma snapshot_steps_keep_total (verifications hash : string) (b b' : option Obj)
    (m : string) :
  rtc (snapshot_step verifications hash) b b' ->
  (exists o, b = Some o /\ head o = Some ("totalCompaniesTracked", m)) ->
  exists o', b' = Some o' /\ head o' = Some ("totalCompaniesTracked", m).
Proof.
  induction 1 as [b|b b1 b' Hstep _ IH]; [auto|].
  intros (o & Hb & Hh). apply IH.
  destruct Hstep as [m' Hm|m' o1 Hm|m' o1 Hm]; [discriminate| |];
    injection Hb as ->; eexists; (split; [reflexivity|]).
  - apply head_obj_set; [exact Hh | reflexivity].
  - unfold complete. repeat (apply head_obj_set; [|reflexivity]). exact Hh.
Qed.

Lemma feed_app (c : Capture) (ls1 ls2 : list LogCall) :
  feed c (ls1 ++ ls2) = feed (feed c ls1) ls2.
Proof. unfold feed. apply fold_left_app. Qed.

(** X15. A snapshot, once created, is never dropped or replaced, and the
    value of the first "Total Companies:" match stays in it: if a stream
    of console calls has produced a before-state (or after-state) snapshot,
    then after every continuation of the stream there is such a snapshot,
    with [totalCompaniesTracked] as its first field and the same value,
    whatever totals are printed later and however often the capturing phase
    is entered again. *)
Theorem X15_the_first_total_is_never_overwritten (ls1 ls2 : list LogCall) :
  (forall o,
      capturedBeforeState (feed initial ls1) = Some o ->
      exists m o',
        head o = Some ("totalCompaniesTracked", m) /\
        capturedBeforeState (feed initial (ls1 ++ ls2)) = Some o' /\
        head o' = Some ("totalCompaniesTracked", m)) /\
  (forall o,
      capturedAfterState (feed initial ls1) = Some o ->
      exists m o',
        head o = Some ("totalCompaniesTracked", m) /\
        capturedAfterState (feed initial (ls1 ++ ls2)) = Some o' /\
        head o' = Some ("totalCompaniesTracked", m)).
Proof.
  rewrite feed_app.
  destruct (feed_steps ls1 initial) as [Hb1 Ha1].
  destruct (feed_steps ls2 (feed initial ls1)) as [Hb2 Ha2].
  split; intros o Ho.
  - destruct (snapshot_steps_ok "0" "initial-hash" _ _
                ltac:(split; [discriminate|reflexivity]) Hb1
                ltac:(discriminate) o Ho) as ([m Hm] & _).
    destruct (snapshot_steps_keep_total _ _ _ _ m Hb2) as (o' & Ho' & Hh'); eauto.
  - destruct (snapshot_steps_ok "1" "updated-hash" _ _
                ltac:(split; [discriminate|reflexivity]) Ha1
                ltac:(discriminate) o Ho) as ([m Hm] & _).
    destruct (snapshot_steps_keep_total _ _ _ _ m Ha2) as (o' & Ho' & Hh'); eauto.
Qed.

(** X16. Every snapshot that the capture holds, at any point of any stream
    of console calls, is well formed: [totalCompaniesTracked] is its first
    field, its fields are among the six field names and none occurs twice,
    and every value is a non-empty string of decimal digits, except that of
    [companiesRootHash], which is 'initial-hash' in a before-state snapshot
    and 'updated-hash' in an after-state snapshot. *)
Theorem X16_snapshots_are_well_formed (ls : list LogCall) :
  (forall o, capturedBeforeState (feed initial ls) = Some o ->
             snapshot_ok "initial-hash" o) /\
  (forall o, capturedAfterState (feed initial ls) = Some o ->
             snapshot_ok "updated-hash" o).
Proof.
  destruct (feed_steps ls initial) as [Hb Ha]. split.
  - apply (snapshot_steps_ok "0" "initial-hash" _ _
             ltac:(split; [discriminate|reflexivity]) Hb). discriminate.
  - apply (snapshot_steps_ok "1" "updated-hash" _ _
             ltac:(split; [discriminate|reflexivity]) Ha). discriminate.
Qed.

(** *** The markers open the capturing phases *)

Lemma parse_after_effect (o : string) (c : Capture) :
  (currentPhase (parse_after o c) = currentPhase c \/
   currentPhase (parse_after o c) = execution_completing) /\
  (sent (parse_after o c) = sent c \/
   exists d, sent (parse_after o c) = sent c ++ [after_state_captured d]).
Proof.
  unfold parse_after. cbv zeta.
  set (c2 := on_compliant capturedAfterState set_after o
               (on_total capturedAfterState set_after o c)).
  assert (H : currentPhase c2 = currentPhase c /\ sent c2 = sent c).
  { subst c2. unfold on_compliant, on_total.
    repeat (case_match; simpl); auto. }
  destruct H as [Hp Hs].
  destruct (includes _ o); [|rewrite Hp, Hs; auto].
  destruct (match_digits _ o); [|rewrite Hp, Hs; auto].
  destruct (capturedAfterState c2); [|rewrite Hp, Hs; auto].
  simpl. rewrite Hs. eauto.
Qed.

Lemma parse_before_effect (o : string) (c : Capture) :
  (currentPhase (parse_before o c) = currentPhase c \/
   currentPhase (parse_before o c) = verification_process) /\
  (sent (parse_before o c) = sent c \/
   exists d, sent (parse_before o c)
             = sent c ++ [before_state_captured d; phase_update verification_process]).
Proof.
  unfold parse_before. cbv zeta.
  set (c2 := on_compliant capturedBeforeState set_before o
               (on_total capturedBeforeState set_before o c)).
  assert (H : currentPhase c2 = currentPhase c /\ sent c2 = sent c).
  { subst c2. unfold on_compliant, on_total.
    repeat (case_match; simpl); auto. }
  destruct H as [Hp Hs].
  destruct (includes _ o); [|rewrite Hp, Hs; auto].
  destruct (match_digits _ o); [|rewrite Hp, Hs; auto].
  destruct (capturedBeforeState c2); [|rewrite Hp, Hs; auto].
  simpl. rewrite Hs. split; [right; reflexivity|].
  right. eexists. rewrite <- app_assoc. reflexivity.
Qed.

(** Without its marker, nothing of the before state. *)
Lemma consoleLog_no_before (o : string) (c : Capture) :
  includes marker_before o = false ->
  capturedBeforeState c = None /\
  currentPhase c <> before_state_capturing /\
  currentPhase c <> verification_process /\
  Forall (fun u => about_before u = false) (sent c) ->
  capturedBeforeState (consoleLog c o) = None /\
  currentPhase (consoleLog c o) <> before_state_capturing /\
  currentPhase (consoleLog c o) <> verification_process /\
  Forall (fun u => about_before u = false) (sent (consoleLog c o)).
Proof.
  intros Hm (Hb & Hp1 & Hp2 & Hs). unfold consoleLog. cbv zeta.
  rewrite (phase_detect_off _ _ _ _ Hm).
  change (currentPhase (append_stdout o c)) with (currentPhase c).
  assert (E : Phase_eqb (currentPhase c) before_state_capturing = false)
    by (destruct (currentPhase c); try reflexivity; contradiction).
  rewrite E.
  set (c3 := detect marker_after after_state_capturing o (append_stdout o c)).
  assert (H3 : capturedBeforeState c3 = None /\
               currentPhase c3 <> before_state_capturing /\
               currentPhase c3 <> verification_process /\
               Forall (fun u => about_before u = false) (sent c3)).
  { subst c3. unfold detect. destruct (includes marker_after o); simpl.
    - repeat split; try assumption; try discriminate.
      apply Forall_app. split; [exact Hs|]. constructor; [reflexivity|constructor].
    - auto. }
  destruct H3 as (Hb3 & Hq1 & Hq2 & Hs3).
  destruct (Phase_eqb (currentPhase c3) after_state_capturing); [|auto].
  destruct (parse_after_effect o c3) as [Hphase Hsent].
  rewrite before_parse_after. split; [exact Hb3|].
  split; [destruct Hphase as [->| ->]; [exact Hq1|discriminate]|].
  split; [destruct Hphase as [->| ->]; [exact Hq2|discriminate]|].
  destruct Hsent as [->|[d ->]]; [exact Hs3|].
  apply Forall_app. split; [exact Hs3|]. constructor; [reflexivity|constructor].
Qed.

(** Without its marker, nothing of the after state. *)
Lemma consoleLog_no_after (o : string) (c : Capture) :
  includes marker_after o = false ->
  capturedAfterState c = None /\
  currentPhase c <> after_state_capturing /\
  currentPhase c <> execution_completing /\
  Forall (fun u => about_after u = false) (sent c) ->
  capturedAfterState (consoleLog c o) = None /\
  currentPhase (consoleLog c o) <> after_state_capturing /\
  currentPhase (consoleLog c o) <> execution_completing /\
  Forall (fun u => about_after u = false) (sent (consoleLog c o)).
Proof.
  intros Hm (Ha & Hp1 & Hp2 & Hs). unfold consoleLog. cbv zeta.
  set (c1 := detect marker_before before_state_capturing o (append_stdout o c)).
  assert (H1 : capturedAfterState c1 = None /\
               currentPhase c1 <> after_state_capturing /\
               currentPhase c1 <> execution_completing /\
               Forall (fun u => about_after u = false) (sent c1)).
  { subst c1. unfold detect. destruct (includes marker_before o); simpl.
    - repeat split; try assumption; try discriminate.
      apply Forall_app. split; [exact Hs|]. constructor; [reflexivity|constructor].
    - auto. }
  destruct H1 as (Ha1 & Hq1 & Hq2 & Hs1).
  set (c2 := if Phase_eqb (currentPhase c1) before_state_capturing
             then parse_before o c1 else c1).
  assert (H2 : capturedAfterState c2 = None /\
               currentPhase c2 <> after_state_capturing /\
               currentPhase c2 <> execution_completing /\
               Forall (fun u => about_after u = false) (sent c2)).
  { subst c2. destruct (Phase_eqb (currentPhase c1) before_state_capturing); [|auto].
    destruct (parse_before_effect o c1) as [Hphase Hsent].
    rewrite after_parse_before. split; [exact Ha1|].
    split; [destruct Hphase as [->| ->]; [exact Hq1|discriminate]|].
    split; [destruct Hphase as [->| ->]; [exact Hq2|discriminate]|].
    destruct Hsent as [->|[d ->]]; [exact Hs1|].
    apply Forall_app. split; [exact Hs1|].
    constructor; [reflexivity|]. constructor; [reflexivity|constructor]. }
  destruct H2 as (Ha2 & Hr1 & Hr2 & Hs2).
  rewrite (phase_detect_off _ _ _ _ Hm).
  assert (E : Phase_eqb (currentPhase c2) after_state_capturing = false)
    by (destruct (currentPhase c2); try reflexivity; contradiction).
  rewrite E. auto.
Qed.

(** X14. The data lines count only after their marker line: for a stream
    of console calls in which no [console.log] line contains the BEFORE
    marker, the capture ends without a before-state snapshot and has
    broadcast nothing about the before state (neither the two phases nor
    [before_state_captured]), whatever "Total Companies:" lines the stream
    holds; and the same for the AFTER marker and the after state. *)
Theorem X14_no_marker_no_snapshot (ls : list LogCall) :
  (Forall (fun o => includes marker_before o = false) (logged ls) ->
   capturedBeforeState (feed initial ls) = None /\
   Forall (fun u => about_before u = false) (sent (feed initial ls))) /\
  (Forall (fun o => includes marker_after o = false) (logged ls) ->
   capturedAfterState (feed initial ls) = None /\
   Forall (fun u => about_after u = false) (sent (feed initial ls))).
Proof.
  split; intros Hall.
  - assert (H : forall c,
               capturedBeforeState c = None /\
               currentPhase c <> before_state_capturing /\
               currentPhase c <> verification_process /\
               Forall (fun u => about_before u = false) (sent c) ->
               capturedBeforeState (feed c ls) = None /\
               Forall (fun u => about_before u = false) (sent (feed c ls))).
    { induction ls as [|[o|o] ls IH]; intros c Hc.
      - simpl. tauto.
      - simpl in Hall. apply Forall_cons in Hall as [Ho Hall].
        change (feed c (Log o :: ls)) with (feed (consoleLog c o) ls).
        apply (IH Hall), consoleLog_no_before; assumption.
      - change (feed c (LogError o :: ls)) with (feed (consoleError c o) ls).
        apply (IH Hall). exact Hc. }
    apply H. repeat split; try discriminate. constructor.
  - assert (H : forall c,
               capturedAfterState c = None /\
               currentPhase c <> after_state_capturing /\
               currentPhase c <> execution_completing /\
               Forall (fun u => about_after u = false) (sent c) ->
               capturedAfterState (feed c ls) = None /\
               Forall (fun u => about_after u = false) (sent (feed c ls))).
    { induction ls as [|[o|o] ls IH]; intros c Hc.
      - simpl. tauto.
      - simpl in Hall. apply Forall_cons in Hall as [Ho Hall].
        change (feed c (Log o :: ls)) with (feed (consoleLog c o) ls).
        apply (IH Hall), consoleLog_no_after; assumption.
      - change (feed c (LogError o :: ls)) with (feed (consoleError c o) ls).
        apply (IH Hall). exact Hc. }
    apply H. repeat split; try discriminate. constructor.
Qed.

(** ** The HTTP routes *)

Lemma truthy_Some (v : option string) :
  truthy v = true <-> exists key, key <> "" /\ v = Some key.
Proof.
  split.
  - destruct v as [[|a s]|]; try discriminate. intros _. eexists. split; [|reflexivity].
    discriminate.
  - intros (key & Hne & ->). destruct key; [contradiction|reflexivity].
Qed.

Lemma replace_first_unfold (pattern replacement s : string) :
  replace_first pattern replacement s
  = if String.prefix pattern s then replacement +:+ Js.drop (String.length pattern) s
    else match s with
         | EmptyString => ""
         | String c rest => String c (replace_first pattern replacement rest)
         end.
Proof. destruct s; reflexivity. Qed.

Lemma drop_length_app (a b : string) : Js.drop (String.length a) (a +:+ b) = b.
Proof. induction a as [|c a IH]; [destruct b; reflexivity|]. exact IH. Qed.

Lemma replace_first_prefix (pattern replacement s : string) :
  replace_first pattern replacement (pattern +:+ s) = replacement +:+ s.
Proof.
  rewrite replace_first_unfold, prefix_refl_app, drop_length_app. reflexivity.
Qed.

Lemma replace_first_absent (pattern replacement s : string) :
  includes pattern s = false -> replace_first pattern replacement s = s.
Proof.
  induction s as [|c s IH]; unfold includes; fold includes; intros H;
    apply orb_false_iff in H as [Hp Hi]; rewrite replace_first_unfold, Hp.
  - reflexivity.
  - rewrite (IH Hi). reflexivity.
Qed.

(** X17. The API key check fails closed: [requireApiKey] lets a request
    pass exactly when a key is configured, is not empty, and equals the key
    the request provides, so with [ZK_PRET_API_KEY] unset or empty every
    request is refused. The check guards the routes below '/api/v1/tools'
    and only when [ZK_PRET_ENABLE_API_AUTH] is 'true'; the health, status
    and job routes (reading a job, listing the jobs, clearing the finished
    ones) are open in every configuration. *)
Theorem X17_requireApiKey_fails_closed
    (ZK_PRET_ENABLE_API_AUTH API_KEY x_api_key authorization : option string) :
  (requireApiKey API_KEY x_api_key authorization = true <->
   exists key, key <> "" /\ API_KEY = Some key /\
               providedKey x_api_key authorization = Some key) /\
  (truthy API_KEY = false -> requireApiKey API_KEY x_api_key authorization = false) /\
  (forall r,
      In r [route_tools; route_execute; route_execute_async; route_gleif;
            route_corporate; route_exim; route_risk] ->
      admits (Some "true") API_KEY r x_api_key authorization
      = requireApiKey API_KEY x_api_key authorization) /\
  (forall r,
      In r [route_health; route_status; route_job; route_jobs; route_jobs_completed] ->
      admits ZK_PRET_ENABLE_API_AUTH API_KEY r x_api_key authorization = true) /\
  (ZK_PRET_ENABLE_API_AUTH <> Some "true" ->
   forall r, admits ZK_PRET_ENABLE_API_AUTH API_KEY r x_api_key authorization = true).
Proof.
  assert (Hiff : requireApiKey API_KEY x_api_key authorization = true <->
                 exists key, key <> "" /\ API_KEY = Some key /\
                             providedKey x_api_key authorization = Some key).
  { unfold requireApiKey. cbv zeta.
    destruct (truthy (providedKey x_api_key authorization)) eqn:Ht; simpl.
    - apply truthy_Some in Ht as (key & Hne & Hk). rewrite Hk.
      destruct (bool_decide (Some key = API_KEY)) eqn:Hd; simpl.
      + apply bool_decide_eq_true in Hd. split; [eauto|reflexivity].
      + apply bool_decide_eq_false in Hd. split; [discriminate|].
        intros (key' & _ & -> & [= ->]). contradiction.
    - split; [discriminate|]. intros (key & Hne & _ & Hk).
      rewrite Hk in Ht. destruct key; [contradiction|discriminate]. }
  split; [exact Hiff|]. split.
  { intros Hk. apply not_true_is_false. intros E.
    apply Hiff in E as (key & Hne & -> & _). destruct key; [contradiction|discriminate]. }
  split.
  { intros r Hin. simpl in Hin.
    destruct Hin as [<-|[<-|[<-|[<-|[<-|[<-|[<-|[]]]]]]]]; reflexivity. }
  split.
  { intros r Hin. unfold admits. simpl in Hin.
    destruct Hin as [<-|[<-|[<-|[<-|[<-|[]]]]]];
      (replace (below _ _) with false by reflexivity);
      rewrite andb_false_r; reflexivity. }
  intros Hne r. unfold admits. rewrite bool_decide_eq_false_2 by exact Hne. reflexivity.
Qed.

(** X18. How the key is read from the request: a non-empty [x-api-key]
    header is the key, whatever [Authorization] says, so a wrong one is not
    made good by a right [Authorization]; otherwise the key is the
    [Authorization] header without its first 'Bearer ', so both
    'Bearer <key>' and the bare key are accepted; and a request with
    neither header is refused. *)
Theorem X18_the_key_is_read_from_two_headers
    (key : string) (x_api_key authorization : option string) :
  key <> "" ->
  requireApiKey (Some key) (Some key) authorization = true /\
  (forall wrong, wrong <> "" -> wrong <> key ->
     requireApiKey (Some key) (Some wrong) authorization = false) /\
  (truthy x_api_key = false ->
   requireApiKey (Some key) x_api_key (Some ("Bearer " +:+ key)) = true /\
   (includes "Bearer " key = false ->
    requireApiKey (Some key) x_api_key (Some key) = true) /\
   requireApiKey (Some key) x_api_key None = false).
Proof.
  intros Hne.
  assert (Hpass : forall x a,
             providedKey x a = Some key -> requireApiKey (Some key) x a = true).
  { intros x a Hk. unfold requireApiKey. rewrite Hk.
    destruct key; [contradiction|]. simpl.
    rewrite bool_decide_eq_true_2 by reflexivity. reflexivity. }
  split.
  { apply Hpass. unfold providedKey, js_or. destruct key; [contradiction|reflexivity]. }
  split.
  { intros wrong Hw Hwk. unfold requireApiKey, providedKey, js_or.
    destruct wrong; [contradiction|]. simpl.
    rewrite bool_decide_eq_false_2 by congruence. reflexivity. }
  intros Hx. split; [|split].
  - apply Hpass. unfold providedKey, js_or. rewrite Hx.
    cbn [fmap option_fmap option_map].
    rewrite replace_first_prefix. reflexivity.
  - intros Hinc. apply Hpass. unfold providedKey, js_or. rewrite Hx.
    cbn [fmap option_fmap option_map].
    rewrite replace_first_absent by exact Hinc. reflexivity.
  - unfold requireApiKey, providedKey, js_or. rewrite Hx. reflexivity.
Qed.

Lemma X18_witness :
  requireApiKey (Some "k1") (Some "k1") (Some "Bearer other") = true /\
  requireApiKey (Some "k1") (Some "other") (Some "Bearer k1") = false /\
  requireApiKey (Some "k1") None (Some "Bearer k1") = true /\
  requireApiKey (Some "k1") None (Some "k1") = true /\
  requireApiKey (Some "k1") None None = false.
Proof.
  destruct (X18_the_key_is_read_from_two_headers "k1" None (Some "Bearer other")
              ltac:(discriminate)) as (H1 & _ & _).
  destruct (X18_the_key_is_read_from_two_headers "k1" None (Some "Bearer k1")
              ltac:(discriminate)) as (_ & H2 & H3).
  destruct (H3 eq_refl) as (H4 & H5 & H6).
  split; [exact H1|]. split; [apply H2; discriminate|].
  split; [exact H4|]. split; [apply H5; reflexivity|exact H6].
Defined.



(** X20. The four routes that run one tool each (gleif, corporate, exim,
    risk) always answer, and what they answer: the risk route answers 500
    at once when the request has no body, because it reads [riskType] off
    it; otherwise the route names a tool of the catalog that
    [executeDirectly] has a case for, whatever the request says (an unknown
    or missing [riskType] means the advanced risk tool), and once
    [executeTool] has returned it answers 200 with the [success] flag and
    the result of that record, so that a failure of the tool shows only
    there; the handler's own 500 answer is given only when the result holds
    a value of the tool that [res.json] cannot serialise, with the message
    of that TypeError. *)
Theorem X20_what_the_tool_routes_answer
    (env : Env) (r : ToolRoute) (body : option Params) (w : World) :
  match route_tool r body with
  | inl e =>
      r = tool_risk /\ body = None /\
      tool_route_begin env r body w
      = (inr (route_answered
                (tool_error "Cannot read properties of undefined (reading 'riskType')"
                   (now w))), w)
  | inr tool =>
      In tool getAvailableTools /\
      is_Some (assoc tool direct_cases) /\
      exists s w1,
        tool_route_begin env r body w = (inr (route_awaits tool s), w1) /\
        executeTool_begin env tool (default [] body) w = (inr s, w1) /\
        forall rest w2,
          executeTool_resume env s = Some rest ->
          exists res w3,
            rest w2 = (inr res, w3) /\
            tool_route_resume tool rest w2
            = (inr match tool_json_error res with
                   | Some e => tool_error e (now w2)
                   | None =>
                       tool_reply (success res) tool (result res) (executionTime res)
                         (now w2)
                         (match result res with
                          | Response d => contractStateBefore d
                          | _ => None
                          end)
                         (match result res with
                          | Response d => contractStateAfter d
                          | _ => None
                          end)
                   end, w3)
  end.
Proof.
  destruct (route_tool r body) as [e|tool] eqn:Htool.
  - destruct r; try discriminate. destruct body as [parameters|]; [discriminate|].
    injection Htool as <-. repeat split.
  - assert (Hcat : In tool getAvailableTools /\ is_Some (assoc tool direct_cases)).
    { destruct r; simpl in Htool.
      - injection Htool as <-. split; [simpl; tauto|eexists; reflexivity].
      - injection Htool as <-. split; [simpl; tauto|eexists; reflexivity].
      - injection Htool as <-. split; [simpl; tauto|eexists; reflexivity].
      - destruct body as [parameters|]; [|discriminate]. injection Htool as <-.
        unfold risk_tool.
        repeat case_bool_decide; (split; [simpl; tauto|eexists; reflexivity]). }
    destruct Hcat as [H1 H2]. split; [exact H1|]. split; [exact H2|].
    unfold tool_route_begin. rewrite Htool.
    destruct (total_executeTool_begin env tool (default [] body) w) as [s Hs].
    destruct (executeTool_begin env tool (default [] body) w) as [[e|s'] w1] eqn:Hb;
      simpl in Hs; [discriminate|].
    injection Hs as ->. exists s, w1.
    split; [unfold try_catch, bind; rewrite Hb; reflexivity|].
    split; [reflexivity|].
    intros rest w2 Hrest.
    destruct (total_executeTool_resume env s rest Hrest w2) as [res Hres].
    pose proof (framed_now rest w2 (framed_executeTool_resume env s rest Hrest)) as Hnow.
    destruct (rest w2) as [[e|res'] w3] eqn:Hr; simpl in Hres, Hnow; [discriminate|].
    injection Hres as ->. exists res, w3. split; [reflexivity|].
    unfold tool_route_resume, try_catch, bind. rewrite Hr.
    unfold gets, ret, res_json, reply_json_error, tool_json_error. simpl.
    destruct (result res) as [d| |]; simpl; try (rewrite Hnow; reflexivity).
    destruct (value_json_error (direct_result d)); simpl; rewrite Hnow; reflexivity.
Qed.

(** ** The summary lines of a tool and the second pattern *)

Lemma includes_cons (needle : string) (a : ascii) (s : string) :
  includes needle (String a s)
  = (String.prefix needle (String a s) || includes needle s)%bool.
Proof. reflexivity. Qed.

Lemma match_digits_skip (label : string) (a : ascii) (s : string) :
  match_here label (String a s) = None ->
  match_digits label (String a s) = match_digits label s.
Proof. intros H. unfold match_digits; fold match_digits. rewrite H. reflexivity. Qed.

Lemma match_digits_here (label s d : string) :
  match_here label s = Some d -> match_digits label s = Some d.
Proof. intros H. destruct s; unfold match_digits; fold match_digits; rewrite H; reflexivity. Qed.

Lemma take_digits_all (d : string) :
  forallb is_digit (list_ascii_of_string d) = true -> take_digits d = d.
Proof.
  induction d as [|a d IH]; simpl; [reflexivity|].
  intros H. apply andb_true_iff in H as [Ha Hd]. rewrite Ha, (IH Hd). reflexivity.
Qed.

Lemma match_here_label (label d : string) :
  is_number d -> match_here label (label +:+ d) = Some d.
Proof.
  intros [Hne Hd]. unfold match_here.
  rewrite prefix_refl_app, drop_length_app, (take_digits_all d Hd).
  destruct d; [contradiction|reflexivity].
Qed.

(** A needle that begins with a character that is no digit does not occur
    in a number. *)
Lemma includes_number (h : ascii) (t d : string) :
  is_digit h = false ->
  forallb is_digit (list_ascii_of_string d) = true ->
  includes (String h t) d = false.
Proof.
  intros Hh. induction d as [|a d IH]; simpl; intros Hd; [reflexivity|].
  apply andb_true_iff in Hd as [Ha Hd]. rewrite includes_cons, (IH Hd), orb_false_r.
  simpl. destruct (Ascii.ascii_dec h a) as [->|]; [congruence|reflexivity].
Qed.

(** A text that is known up to a number at its end is searched position by
    position. *)
Ltac search_text Hd :=
  cbv [String.append];
  repeat (rewrite includes_cons;
          match goal with
          | |- context [String.prefix ?p (String ?a ?s)] =>
              replace (String.prefix p (String a s)) with false by (vm_compute; reflexivity)
          end;
          rewrite orb_false_l);
  apply includes_number; [reflexivity | exact Hd].

Lemma summary_lines_hold_no_marker (n : string) :
  is_number n ->
  Forall (fun line =>
            includes marker_before line = false /\
            includes marker_after line = false /\
            includes "Total Companies:" line = false /\
            includes "Global Compliance Score:" line = false)
    [compliant_line n; non_compliant_line n].
Proof.
  intros [_ Hd]. unfold compliant_line, non_compliant_line, marker_before, marker_after.
  repeat constructor; search_text Hd.
Qed.

Lemma summary_lines_match (n : string) :
  is_number n ->
  match_digits "Compliant Companies: " (compliant_line n) = Some n /\
  match_digits "Compliant Companies: " (non_compliant_line n) = Some n.
Proof.
  intros Hn. unfold compliant_line, non_compliant_line. split.
  - change ("🏆 Compliant Companies: " +:+ n)
      with ("🏆 " +:+ ("Compliant Companies: " +:+ n)).
    cbv [String.append]; fold String.append.
    repeat (rewrite match_digits_skip by (vm_compute; reflexivity)).
    apply match_digits_here.
    change (match_here "Compliant Companies: " ("Compliant Companies: " +:+ n) = Some n).
    apply match_here_label, Hn.
  - change ("⚠️ Non-Compliant Companies: " +:+ n)
      with ("⚠️ Non-" +:+ ("Compliant Companies: " +:+ n)).
    cbv [String.append]; fold String.append.
    repeat (rewrite match_digits_skip by (vm_compute; reflexivity)).
    apply match_digits_here.
    change (match_here "Compliant Companies: " ("Compliant Companies: " +:+ n) = Some n).
    apply match_here_label, Hn.
Qed.

(** A line that matches the second pattern only, met while a snapshot is
    being captured. *)
Lemma consoleLog_compliant_before (o m : string) (s : Obj) (c : Capture) :
  currentPhase c = before_state_capturing ->
  capturedBeforeState c = Some s ->
  includes marker_before o = false ->
  includes marker_after o = false ->
  includes "Total Companies:" o = false ->
  includes "Global Compliance Score:" o = false ->
  match_digits "Compliant Companies: " o = Some m ->
  consoleLog c o
  = set_before (Some (obj_set "compliantCompaniesCount" m s)) (append_stdout o c).
Proof.
  intros Hp Hs Hb Ha Ht Hg Hm. unfold consoleLog. cbv zeta.
  rewrite (phase_detect_off _ _ _ _ Hb). simpl currentPhase. rewrite Hp.
  simpl Phase_eqb. cbv iota.
  assert (Hpb : parse_before o (append_stdout o c)
                = set_before (Some (obj_set "compliantCompaniesCount" m s))
                    (append_stdout o c)).
  { unfold parse_before, on_total, on_compliant.
    rewrite Ht, Hg, (match_digits_includes "Compliant Companies:" " " o m Hm), Hm.
    simpl. rewrite Hs. reflexivity. }
  rewrite Hpb, (phase_detect_off _ _ _ _ Ha). simpl. rewrite Hp. reflexivity.
Qed.

Lemma consoleLog_compliant_after (o m : string) (s : Obj) (c : Capture) :
  currentPhase c = after_state_capturing ->
  capturedAfterState c = Some s ->
  includes marker_before o = false ->
  includes marker_after o = false ->
  includes "Total Companies:" o = false ->
  includes "Global Compliance Score:" o = false ->
  match_digits "Compliant Companies: " o = Some m ->
  consoleLog c o
  = set_after (Some (obj_set "compliantCompaniesCount" m s)) (append_stdout o c).
Proof.
  intros Hp Hs Hb Ha Ht Hg Hm. unfold consoleLog. cbv zeta.
  rewrite (phase_detect_off _ _ _ _ Hb). simpl currentPhase. rewrite Hp.
  simpl Phase_eqb. cbv iota.
  rewrite (phase_detect_off _ _ _ _ Ha). simpl currentPhase. rewrite Hp.
  simpl Phase_eqb. cbv iota.
  unfold parse_after, on_total, on_compliant.
  rewrite Ht, Hg, (match_digits_includes "Compliant Companies:" " " o m Hm), Hm.
  simpl. rewrite Hs. reflexivity.
Qed.

Lemma assoc_obj_set (k v : string) (o : Obj) : assoc k (obj_set k v o) = Some v.
Proof.
  induction o as [|[k' v'] o IH]; simpl.
  - rewrite String.eqb_refl. reflexivity.
  - destruct (String.eqb k k') eqn:E; simpl.
    + rewrite String.eqb_refl. reflexivity.
    + rewrite E. exact IH.
Qed.

(** X21. The second pattern of the console capture is not anchored, so it
    also matches inside 'Non-Compliant Companies: n'. The Corporate
    Registration and EXIM tools end with a summary that prints
    '🏆 Compliant Companies: a' and then '⚠️ Non-Compliant Companies: b':
    when these two lines arrive while a snapshot is being captured (in the
    before-state or in the after-state phase), each of them is taken as the
    compliant count, and the snapshot is left with
    [compliantCompaniesCount] = b, the number of companies that are not
    compliant. *)
Theorem X21_the_summary_overwrites_the_compliant_count
    (c : Capture) (s : Obj) (a b : string) :
  is_number a ->
  is_number b ->
  (currentPhase c = after_state_capturing ->
   capturedAfterState c = Some s ->
   exists s',
     capturedAfterState
       (feed c [Log (compliant_line a); Log (non_compliant_line b)]) = Some s' /\
     s' = obj_set "compliantCompaniesCount" b (obj_set "compliantCompaniesCount" a s) /\
     assoc "compliantCompaniesCount" s' = Some b) /\
  (currentPhase c = before_state_capturing ->
   capturedBeforeState c = Some s ->
   exists s',
     capturedBeforeState
       (feed c [Log (compliant_line a); Log (non_compliant_line b)]) = Some s' /\
     s' = obj_set "compliantCompaniesCount" b (obj_set "compliantCompaniesCount" a s) /\
     assoc "compliantCompaniesCount" s' = Some b).
Proof.
  intros Ha Hb.
  pose proof (summary_lines_hold_no_marker a Ha) as Hna.
  pose proof (summary_lines_hold_no_marker b Hb) as Hnb.
  apply Forall_cons in Hna as [(A1 & A2 & A3 & A4) _].
  apply Forall_cons in Hnb as [_ Hnb].
  apply Forall_cons in Hnb as [(B1 & B2 & B3 & B4) _].
  destruct (summary_lines_match a Ha) as [Ma _].
  destruct (summary_lines_match b Hb) as [_ Mb].
  unfold feed. simpl fold_left. unfold call.
  split; intros Hp Hs; eexists; (split; [|split; [reflexivity|apply assoc_obj_set]]).
  - rewrite (consoleLog_compliant_after _ a s c Hp Hs A1 A2 A3 A4 Ma).
    erewrite consoleLog_compliant_after; try eassumption; reflexivity.
  - rewrite (consoleLog_compliant_before _ a s c Hp Hs A1 A2 A3 A4 Ma).
    erewrite consoleLog_compliant_before; try eassumption; reflexivity.
Qed.

Lemma X21_witness :
  exists s',
    capturedAfterState
      (feed (feed initial [Log marker_after; Log "Total Companies: 7"])
         [Log (compliant_line "5"); Log (non_compliant_line "2")]) = Some s' /\
    assoc "compliantCompaniesCount" s' = Some "2".
Proof.
  destruct (X21_the_summary_overwrites_the_compliant_count
              (feed initial [Log marker_after; Log "Total Companies: 7"])
              [("totalCompaniesTracked", "7")] "5" "2") as [H _].
  - split; [discriminate | reflexivity].
  - split; [discriminate | reflexivity].
  - destruct H as (s' & H1 & _ & H2); [vm_compute; reflexivity | vm_compute; reflexivity |].
    exists s'. split; [exact H1 | exact H2].
Defined.

(** ** The direct-execution functions of the Corporate Registration and
       EXIM tools *)

(** X22. The company names that the Corporate Registration and EXIM tools
    work on: an array [companyNames] wins over [companyName], also when it
    is empty; the names are trimmed and the empty ones dropped; the
    verification gets between one and ten names, none of them empty, each
    the trimmed form of a name of the request and in the order of the
    request; otherwise the function throws 'Company names are required'
    (no array and no name), 'At least one company name is required'
    (nothing left after trimming) or 'Maximum 10 companies supported in this
    demo'. *)
Theorem X22_company_names_are_validated
    (trim : string -> string) (companyNames : option (list string))
    (companyName : option string) :
  (forall names,
      companyNames = Some names ->
      validCompanyNames trim companyNames companyName
      = validCompanyNames trim (Some names) None) /\
  match validCompanyNames trim companyNames companyName with
  | inr valid =>
      (1 <= length valid <= 10)%nat /\
      Forall (fun name => name <> "") valid /\
      exists target,
        targetCompanyNames companyNames companyName = inr target /\
        valid = List.filter (fun name => negb (String.eqb name "")) (map trim target)
  | inl e =>
      (e = ErrorObj "Company names are required" /\
       companyNames = None /\ truthy companyName = false) \/
      (e = ErrorObj "At least one company name is required" /\
       exists target,
         targetCompanyNames companyNames companyName = inr target /\
         Forall (fun name => trim name = "") target) \/
      (e = ErrorObj "Maximum 10 companies supported in this demo" /\
       exists target,
         targetCompanyNames companyNames companyName = inr target /\
         (10 < length (List.filter (fun name => negb (String.eqb (trim name) "")) target))%nat)
  end.
Proof.
  split; [intros names ->; reflexivity|].
  assert (Hf : forall l : list string,
             List.filter (fun name => Nat.ltb 0 (String.length name)) l
             = List.filter (fun name => negb (String.eqb name "")) l).
  { intros l. apply filter_ext. intros [|a s]; reflexivity. }
  unfold validCompanyNames.
  destruct (targetCompanyNames companyNames companyName) as [e|target] eqn:Ht.
  - left. unfold targetCompanyNames in Ht.
    destruct companyNames; [discriminate|].
    destruct companyName as [[|a s]|]; try discriminate; injection Ht as <-; auto.
  - cbv zeta. rewrite Hf.
    set (valid := List.filter _ (map trim target)).
    destruct (Nat.eqb (length valid) 0) eqn:E0.
    + right. left. split; [reflexivity|]. exists target. split; [reflexivity|].
      apply Nat.eqb_eq in E0. apply length_zero_iff_nil in E0.
      rewrite Forall_forall. intros name Hin.
      destruct (String.eqb (trim name) "") eqn:En; [apply String.eqb_eq, En|].
      assert (Hv : In (trim name) valid).
      { subst valid. apply filter_In. split.
        - apply in_map, list_elem_of_In, Hin.
        - rewrite En. reflexivity. }
      rewrite E0 in Hv. destruct Hv.
    + destruct (Nat.ltb 10 (length valid)) eqn:E10.
      * right. right. split; [reflexivity|]. exists target. split; [reflexivity|].
        apply Nat.ltb_lt in E10. subst valid.
        assert (Hlen : forall l : list string,
                   length (List.filter (fun name => negb (String.eqb name "")) (map trim l))
                   = length (List.filter (fun name => negb (String.eqb (trim name) "")) l)).
        { induction l as [|x l IH]; simpl; [reflexivity|].
          destruct (negb (String.eqb (trim x) "")); simpl; rewrite IH; reflexivity. }
        rewrite <- Hlen. exact E10.
      * apply Nat.eqb_neq in E0. apply Nat.ltb_ge in E10.
        split; [lia|]. split; [|exists target; split; reflexivity].
        rewrite Forall_forall. intros name Hin. subst valid.
        apply list_elem_of_In, filter_In in Hin as [_ Hne].
        intros ->. discriminate.
Qed.

Lemma count_split {A} (p : A -> bool) (l : list A) :
  (length (List.filter p l) + length (List.filter (fun x => negb (p x)) l))%nat = length l.
Proof.
  induction l as [|x l IH]; simpl; [reflexivity|].
  destruct (p x); simpl; lia.
Qed.

(** X23. What the Corporate Registration and EXIM functions come to: the
    verification is called only with names that passed the validation.
    When it returns results whose times can all be printed, the function
    returns [success: true] whatever the results say (companies in error
    or not compliant do not make it false), with a summary whose counts are
    consistent: successful and failed verifications add up to the total,
    and the companies counted as not compliant are among the successful
    ones. When a result without an error carries a time that is not valid,
    the function throws the RangeError 'Invalid time value' although the
    verification has returned. When the validation or the verification
    throws, the function throws the same error, but for a thrown [null] or
    [undefined], which its [catch] block turns into a TypeError. *)
Theorem X23_the_company_functions_report_success
    (trim : string -> string) (util : list string -> UtilEnd)
    (companyNames : option (list string)) (companyName : option string) :
  match executeCompanyVerificationDirect trim util companyNames companyName with
  | Fulfilled reply =>
      reply_success reply = true /\
      (exists valid,
          validCompanyNames trim companyNames companyName = inr valid /\
          util valid = util_returns (verificationResults reply)) /\
      Forall (fun r => has_error r = false -> valid_time r = true)
        (verificationResults reply) /\
      reply_summary reply = summary (verificationResults reply) /\
      (successfulVerifications (reply_summary reply)
       + failedVerifications (reply_summary reply))%nat
      = totalCompanies (reply_summary reply) /\
      (nonCompliantCompanies (reply_summary reply)
       <= successfulVerifications (reply_summary reply))%nat /\
      (compliantCompanies (reply_summary reply)
       + nonCompliantCompanies (reply_summary reply)
       <= totalCompanies (reply_summary reply))%nat
  | RejectedWith e =>
      validCompanyNames trim companyNames companyName = inl e \/
      exists valid,
        validCompanyNames trim companyNames companyName = inr valid /\
        (util valid = util_throws e \/
         (exists is_null,
             util valid = util_throws_nullish is_null /\ e = stack_of_nullish is_null) \/
         (exists results r,
             util valid = util_returns results /\
             In r results /\ has_error r = false /\ valid_time r = false /\
             e = ErrorObj "Invalid time value"))
  | NeverSettles =>
      exists valid,
        validCompanyNames trim companyNames companyName = inr valid /\
        util valid = util_never
  end /\
  (forall valid results,
      validCompanyNames trim companyNames companyName = inr valid ->
      util valid = util_returns results ->
      executeCompanyVerificationDirect trim util companyNames companyName
      = if forallb (fun r => has_error r || valid_time r) results
        then Fulfilled {| reply_success := true; verificationResults := results;
                          reply_summary := summary results |}
        else RejectedWith (ErrorObj "Invalid time value")).
Proof.
  assert (Hex : forall results,
             existsb unprintable results
             = negb (forallb (fun r => has_error r || valid_time r) results)).
  { induction results as [|r results IH]; simpl; [reflexivity|].
    rewrite IH. unfold unprintable.
    destruct (has_error r), (valid_time r); reflexivity. }
  split.
  2: { intros valid results Hv Hu. unfold executeCompanyVerificationDirect.
       rewrite Hv, Hu, Hex. destruct (forallb _ results); reflexivity. }
  unfold executeCompanyVerificationDirect.
  destruct (validCompanyNames trim companyNames companyName) as [e|valid]; [auto|].
  destruct (util valid) as [results|e|is_null|] eqn:Hu.
  2: { right. exists valid. split; [reflexivity|]. left. exact Hu. }
  2: { right. exists valid. split; [reflexivity|]. right. left.
       exists is_null. split; [exact Hu|reflexivity]. }
  2: { exists valid. split; [reflexivity|exact Hu]. }
  destruct (existsb unprintable results) eqn:Hun.
  - right. exists valid. split; [reflexivity|]. right. right.
    apply existsb_exists in Hun as (r & Hin & Hr). unfold unprintable in Hr.
    apply andb_true_iff in Hr as [H1 H2].
    apply negb_true_iff in H1, H2. exists results, r. auto.
  - simpl. split; [reflexivity|]. split; [eauto|]. split.
    { rewrite Forall_forall. intros r Hin He.
      rewrite Hex in Hun. apply negb_false_iff in Hun.
      rewrite forallb_forall in Hun. apply list_elem_of_In in Hin.
      specialize (Hun r Hin). rewrite He in Hun. exact Hun. }
    split; [reflexivity|].
    split; [|split].
    + rewrite Nat.add_comm. apply (count_split has_error).
    + clear Hu Hun. induction results as [|r results IH]; simpl; [lia|].
      destruct (isCompliant r), (has_error r); simpl; lia.
    + clear Hu Hun. induction results as [|r results IH]; simpl; [lia|].
      destruct (isCompliant r), (has_error r); simpl; lia.
Qed.

(** ** The direct-execution function of the Stablecoin tool *)

Section StablecoinFacts.

Variable Portfolio : Type.
Variable ACTUS_SERVER_URL : option string.
Variable projectRoot : string.
Variable toUpperCase : string -> string.
Variable readConfig : string -> option (ConfigFile Portfolio).
Variable readSettings : string -> SettingsFile.

Lemma stablecoin_prepare_jurisdiction (P : StablecoinParameters)
    (processed : ProcessedParameters) (call : StablecoinCall Portfolio) :
  stablecoin_prepare Portfolio ACTUS_SERVER_URL projectRoot toUpperCase readConfig
    readSettings P = inr (processed, call) ->
  call_jurisdiction Portfolio call
  = toUpperCase (default "US" (js_or (sp_jurisdiction P) None)) /\
  (call_jurisdiction Portfolio call = "US" \/ call_jurisdiction Portfolio call = "EU").
Proof.
  unfold stablecoin_prepare. cbv zeta.
  set (J := toUpperCase (default "US" (js_or (sp_jurisdiction P) None))).
  destruct (existsb (String.eqb J) ["US"; "EU"]) eqn:E; simpl; [|discriminate].
  destruct (readSettings _); try discriminate; intros [= <- <-]; simpl;
    (split; [reflexivity|]);
    simpl in E; apply orb_true_iff in E as [E|E];
    [left|right|left|right];
    try (apply String.eqb_eq, E);
    apply orb_true_iff in E as [E|E]; try discriminate; apply String.eqb_eq, E.
Qed.

End StablecoinFacts.


Lemma includes_slash (rest : string) : includes "/" ("./" +:+ rest) = true.
Proof.
  change ("./" +:+ rest) with ("." +:+ ("/" +:+ rest)).
  apply includes_app_r, includes_here, prefix_refl_app.
Qed.

Lemma append_not_empty (a b : string) : a <> "" -> a +:+ b <> "".
Proof. destruct a as [|x a]; [congruence|]. intros _. discriminate. Qed.

Lemma resolveConfigPath_not_empty (projectRoot : string) (toUpperCase : string -> string)
    (file jurisdiction : string) :
  file <> "" -> resolveConfigPath projectRoot toUpperCase file jurisdiction <> "".
Proof.
  intros Hne. unfold resolveConfigPath.
  destruct (negb (includes "/" file) && negb (includes "\" file))%bool; [discriminate|].
  destruct (String.prefix "./" file) eqn:Hp.
  - destruct file as [|a f]; [congruence|]. unfold replace_first. rewrite Hp.
    apply append_not_empty. destruct projectRoot; discriminate.
  - destruct (negb (String.prefix "/" file) && negb (includes ":" file))%bool; [|exact Hne].
    destruct projectRoot; discriminate.
Qed.


(** ** The direct-execution functions of the BPI and BSDI tools *)

Lemma truthy_default (v : option string) :
  String.eqb (default "" (js_or v None)) "" = negb (truthy v).
Proof. destruct v as [[|a s]|]; reflexivity. Qed.

Lemma truthy_default_Some (v : option string) :
  truthy v = true -> v = Some (default "" (js_or v None)).
Proof. destruct v as [[|a s]|]; simpl; intros H; try discriminate; reflexivity. Qed.

Lemma resolveDataFile_bare (projectRoot : string) (isAbsolute : string -> bool)
    (join : list string -> string) (directory : list string) (file : string) :
  isAbsolute file = false -> includes "/" file = false -> includes "\" file = false ->
  resolveDataFile projectRoot isAbsolute join directory file
  = join (projectRoot :: directory ++ [file]).
Proof. intros Ha Hs Hb. unfold resolveDataFile. rewrite Ha, Hs, Hb. reflexivity. Qed.

Lemma resolveDataFile_path (projectRoot : string) (isAbsolute : string -> bool)
    (join : list string -> string) (directory : list string) (file : string) :
  isAbsolute file = true \/ includes "/" file = true \/ includes "\" file = true ->
  resolveDataFile projectRoot isAbsolute join directory file = file.
Proof.
  intros [H|[H|H]]; unfold resolveDataFile; rewrite H; simpl;
    rewrite ?andb_false_r; reflexivity.
Qed.

(** X26. [executeBPIVerificationDirect] never throws: every error inside it
    becomes an answer with [success: false]. It parses the expected and the
    actual BPMN file, in this order and both of them, before it looks at
    what the parsing gave: when one of the two gives nothing (or the empty
    string) the answer is 'Failed to parse BPMN files ...' with both paths,
    and the verification is not called; when the expected file gives
    nothing and parsing the actual file throws, the answer carries that
    error instead. An answer with a result means that both files were
    parsed to a path expression that is not empty, that the verification
    was called with these, with the process type of the request (else
    'SCF'), and that [success] is what the verification returned. A bare
    file name is looked for under 'src/data/scf/process/EXPECTED' and
    '.../ACTUAL' of the project root; a name that holds a separator or is
    absolute is taken as it is. *)
Theorem X26_the_BPI_function_parses_both_files_first
    (projectRoot : string) (isAbsolute : string -> bool) (join : list string -> string)
    (parseBpmn : string -> ParseEnd) (verification : BPICall -> VerificationEnd)
    (P : BPIParameters) :
  let run := executeBPIVerificationDirect projectRoot isAbsolute join parseBpmn in
  let expectedFile := default "SCF-Expected.bpmn" (js_or (bp_expectedProcessFile P) None) in
  let actualFile := default "SCF-Accepted1.bpmn" (js_or (bp_actualProcessFile P) None) in
  let expectedFilePath :=
    resolveDataFile projectRoot isAbsolute join
      ["src"; "data"; "scf"; "process"; "EXPECTED"] expectedFile in
  let actualFilePath :=
    resolveDataFile projectRoot isAbsolute join
      ["src"; "data"; "scf"; "process"; "ACTUAL"] actualFile in
  (forall e, run verification P <> RejectedWith e) /\
  (forall expected actual,
      parseBpmn expectedFilePath = parse_returns expected ->
      parseBpmn actualFilePath = parse_returns actual ->
      (truthy expected && truthy actual)%bool = false ->
      forall other,
        run other P
        = Fulfilled (bpi_failure
            ("Failed to parse BPMN files. Please check file paths and content."
             +:+ line_feed +:+ "Expected: " +:+ expectedFilePath
             +:+ line_feed +:+ "Actual: " +:+ actualFilePath))) /\
  (forall expected e,
      parseBpmn expectedFilePath = parse_returns expected ->
      parseBpmn actualFilePath = parse_throws e ->
      forall other,
        run other P = Fulfilled (bpi_failure (message_or "Unknown error" e))) /\
  (forall success call,
      run verification P = Fulfilled (bpi_result success call) ->
      bpi_processType call = default "SCF" (js_or (bp_processType P) None) /\
      bpi_expectedFile call = expectedFilePath /\
      bpi_actualFile call = actualFilePath /\
      parseBpmn expectedFilePath = parse_returns (Some (bpi_expectedPath call)) /\
      parseBpmn actualFilePath = parse_returns (Some (bpi_actualPath call)) /\
      bpi_expectedPath call <> "" /\ bpi_actualPath call <> "" /\
      verification call = verification_returns success) /\
  (isAbsolute expectedFile = false -> includes "/" expectedFile = false ->
   includes "\" expectedFile = false ->
   expectedFilePath
   = join [projectRoot; "src"; "data"; "scf"; "process"; "EXPECTED"; expectedFile]) /\
  (isAbsolute actualFile = false -> includes "/" actualFile = false ->
   includes "\" actualFile = false ->
   actualFilePath
   = join [projectRoot; "src"; "data"; "scf"; "process"; "ACTUAL"; actualFile]) /\
  (isAbsolute expectedFile = true \/ includes "/" expectedFile = true
   \/ includes "\" expectedFile = true -> expectedFilePath = expectedFile) /\
  (isAbsolute actualFile = true \/ includes "/" actualFile = true
   \/ includes "\" actualFile = true -> actualFilePath = actualFile).
Proof.
  intros run expectedFile actualFile expectedFilePath actualFilePath.
  assert (Hrun : forall v, run v P =
    match parseBpmn expectedFilePath with
    | parse_throws e => Fulfilled (bpi_failure (message_or "Unknown error" e))
    | parse_never => NeverSettles
    | parse_returns expected =>
        match parseBpmn actualFilePath with
        | parse_throws e => Fulfilled (bpi_failure (message_or "Unknown error" e))
        | parse_never => NeverSettles
        | parse_returns actual =>
            if (String.eqb (default "" (js_or expected None)) ""
                || String.eqb (default "" (js_or actual None)) "")%bool then
              Fulfilled (bpi_failure
                ("Failed to parse BPMN files. Please check file paths and content."
                 +:+ line_feed +:+ "Expected: " +:+ expectedFilePath
                 +:+ line_feed +:+ "Actual: " +:+ actualFilePath))
            else
              let call := {| bpi_processType := default "SCF" (js_or (bp_processType P) None);
                             bpi_expectedPath := default "" (js_or expected None);
                             bpi_actualPath := default "" (js_or actual None);
                             bpi_expectedFile := expectedFilePath;
                             bpi_actualFile := actualFilePath |} in
              match v call with
              | verification_returns success => Fulfilled (bpi_result success call)
              | verification_throws e =>
                  Fulfilled (bpi_failure (message_or "Unknown error" e))
              | verification_never => NeverSettles
              end
        end
    end) by reflexivity.
  repeat apply conj.
  - intros e. rewrite Hrun.
    destruct (parseBpmn expectedFilePath) as [expected|?|]; try discriminate.
    destruct (parseBpmn actualFilePath) as [actual|?|]; try discriminate.
    destruct (_ || _)%bool; [discriminate|]. cbv zeta.
    destruct (verification _); discriminate.
  - intros expected actual He Ha Ht other. rewrite Hrun, He, Ha, !truthy_default.
    rewrite <- negb_andb, Ht. reflexivity.
  - intros expected e He Ha other. rewrite Hrun, He, Ha. reflexivity.
  - intros success call. rewrite Hrun.
    destruct (parseBpmn expectedFilePath) as [expected|?|]; try discriminate.
    destruct (parseBpmn actualFilePath) as [actual|?|]; try discriminate.
    rewrite !truthy_default, <- negb_andb.
    destruct (truthy expected && truthy actual)%bool eqn:Ht; [|discriminate].
    apply andb_true_iff in Ht as [Te Ta]. simpl negb. cbv iota zeta.
    destruct (verification _) as [s|?|] eqn:Hv; try discriminate.
    intros [= <- <-]. simpl.
    rewrite <- (truthy_default_Some _ Te), <- (truthy_default_Some _ Ta).
    repeat apply conj; try reflexivity; try exact Hv.
    + intros H. apply String.eqb_eq in H. rewrite truthy_default, Te in H. discriminate.
    + intros H. apply String.eqb_eq in H. rewrite truthy_default, Ta in H. discriminate.
  - apply resolveDataFile_bare.
  - apply resolveDataFile_bare.
  - apply resolveDataFile_path.
  - apply resolveDataFile_path.
Qed.

(** X27. [executeBSDIVerificationDirect] never throws: every error inside it
    becomes an answer with [success: false]. The bill of lading is the
    [filePath] of the request, else 'BOL-VALID-1.json'; a bare file name is
    looked for under 'src/data/scf/BILLOFLADING' of the project root, a name
    that holds a separator or is absolute is taken as it is. When no file is
    there the answer is 'BOL file not found: <path>' and the test is not
    called; an answer with a result means that the file was there, was read
    and parsed to the data of the answer, and that [success] is what the
    test returned for these data. *)
Theorem X27_the_BSDI_function_needs_the_file
    (projectRoot : string) (isAbsolute : string -> bool) (join : list string -> string)
    (BillOfLading : Type) (existsSync : string -> bool)
    (readBol : string -> BolFile BillOfLading)
    (test : BillOfLading -> VerificationEnd) (filePath : option string) :
  let run := executeBSDIVerificationDirect projectRoot isAbsolute join BillOfLading
               existsSync readBol in
  let bolFile := default "BOL-VALID-1.json" (js_or filePath None) in
  let resolvedFilePath :=
    resolveDataFile projectRoot isAbsolute join ["src"; "data"; "scf"; "BILLOFLADING"]
      bolFile in
  (forall e, run test filePath <> RejectedWith e) /\
  (existsSync resolvedFilePath = false ->
   forall other,
     run other filePath
     = Fulfilled (bsdi_failure ("BOL file not found: " +:+ resolvedFilePath))) /\
  (forall success file blData,
      run test filePath = Fulfilled (bsdi_result success file blData) ->
      file = resolvedFilePath /\
      existsSync resolvedFilePath = true /\
      readBol resolvedFilePath = bol_read (Some blData) /\
      test blData = verification_returns success) /\
  (isAbsolute bolFile = false -> includes "/" bolFile = false ->
   includes "\" bolFile = false ->
   resolvedFilePath = join [projectRoot; "src"; "data"; "scf"; "BILLOFLADING"; bolFile]) /\
  (isAbsolute bolFile = true \/ includes "/" bolFile = true \/ includes "\" bolFile = true ->
   resolvedFilePath = bolFile).
Proof.
  intros run bolFile resolvedFilePath.
  subst run. unfold executeBSDIVerificationDirect. cbv zeta.
  fold bolFile. fold resolvedFilePath.
  repeat apply conj.
  - intros e. destruct (existsSync resolvedFilePath); simpl; [|discriminate].
    destruct (readBol resolvedFilePath) as [[blData|]|?]; try discriminate.
    destruct (test blData); discriminate.
  - intros Hex other. rewrite Hex. reflexivity.
  - intros success file blData.
    destruct (existsSync resolvedFilePath); simpl; [|discriminate].
    destruct (readBol resolvedFilePath) as [[blData'|]|?]; try discriminate.
    destruct (test blData') as [s|?|] eqn:Ht; try discriminate.
    intros [= <- <- <-]. repeat split; try reflexivity. exact Ht.
  - apply resolveDataFile_bare.
  - apply resolveDataFile_path.
Qed.

(** ** Execution in a spawned process *)

Section SpawnedFacts.

Variable Extracted : Type.
Variable extract : string -> Extracted.
Variable timeout : Z.

Lemma coherent_spawned : Spawned.coherent Extracted timeout (Spawned.spawned Extracted).
Proof. left. repeat split. Qed.

Lemma coherent_handle (c : Spawned.Child Extracted) (ev : Spawned.ChildEvent) :
  Spawned.coherent Extracted timeout c ->
  Spawned.coherent Extracted timeout (Spawned.handle Extracted extract timeout c ev).
Proof.
  intros [(Hr & Ht & Hk & Hs)|(Hr & Ht & s & Hs & Hk)]; destruct ev; simpl;
    rewrite ?Hr, ?Ht; simpl.
  - left. repeat split; assumption.
  - left. repeat split; assumption.
  - right. repeat split. rewrite Hs. eexists. split; [reflexivity|left; exact Hk].
  - right. repeat split. rewrite Hs. eexists. split; [reflexivity|left; exact Hk].
  - right. repeat split. rewrite Hs, Hk. eexists. split; [reflexivity|right; split; reflexivity].
  - right. repeat split; try assumption. exists s. split; assumption.
  - right. repeat split; try assumption. exists s. split; assumption.
  - right. rewrite Hr, Ht. repeat split. exists s. split; assumption.
  - right. rewrite Hr, Ht. repeat split. exists s. split; assumption.
  - right. rewrite Hr, Ht. repeat split. exists s. split; assumption.
Qed.

Lemma coherent_fold (events : list Spawned.ChildEvent) (c : Spawned.Child Extracted) :
  Spawned.coherent Extracted timeout c ->
  Spawned.coherent Extracted timeout
    (fold_left (Spawned.handle Extracted extract timeout) events c).
Proof.
  revert c. induction events as [|ev events IH]; intros c Hc; [exact Hc|].
  simpl. apply IH, coherent_handle, Hc.
Qed.

(** Every chunk is appended, whatever else has happened. *)
Lemma fold_written (events : list Spawned.ChildEvent) (c : Spawned.Child Extracted) :
  Spawned.stdout _ (fold_left (Spawned.handle Extracted extract timeout) events c)
  = Spawned.stdout _ c +:+ Spawned.written_out events /\
  Spawned.stderr _ (fold_left (Spawned.handle Extracted extract timeout) events c)
  = Spawned.stderr _ c +:+ Spawned.written_err events.
Proof.
  revert c. induction events as [|ev events IH]; intros c.
  - simpl. rewrite !append_nil_r. split; reflexivity.
  - simpl fold_left.
    destruct (IH (Spawned.handle Extracted extract timeout c ev)) as [Ho He].
    rewrite Ho, He.
    destruct ev; simpl Spawned.written_out; simpl Spawned.written_err;
      cbn [Spawned.handle];
      repeat match goal with |- context [if ?b then _ else _] => destruct b end;
      cbn [Spawned.stdout Spawned.stderr]; rewrite ?append_assoc; split; reflexivity.
Qed.

(** Chunks alone settle nothing. *)
Lemma fold_data (events : list Spawned.ChildEvent) (c : Spawned.Child Extracted) :
  forallb Spawned.is_data events = true ->
  Spawned.isResolved _ (fold_left (Spawned.handle Extracted extract timeout) events c)
  = Spawned.isResolved _ c /\
  Spawned.timeoutId _ (fold_left (Spawned.handle Extracted extract timeout) events c)
  = Spawned.timeoutId _ c /\
  Spawned.killed _ (fold_left (Spawned.handle Extracted extract timeout) events c)
  = Spawned.killed _ c /\
  Spawned.settled _ (fold_left (Spawned.handle Extracted extract timeout) events c)
  = Spawned.settled _ c.
Proof.
  revert c. induction events as [|ev events IH]; intros c Hd; [repeat split|].
  simpl in Hd. apply andb_true_iff in Hd as [Hev Hd].
  simpl fold_left.
  destruct (IH (Spawned.handle Extracted extract timeout c ev) Hd) as (-> & -> & -> & ->).
  destruct ev; try discriminate; repeat split.
Qed.

(** Once settled, nothing that follows changes the settlement. *)
Lemma handle_settled (c : Spawned.Child Extracted) (ev : Spawned.ChildEvent) :
  Spawned.isResolved _ c = true -> Spawned.timeoutId _ c = false ->
  Spawned.isResolved _ (Spawned.handle Extracted extract timeout c ev) = true /\
  Spawned.timeoutId _ (Spawned.handle Extracted extract timeout c ev) = false /\
  Spawned.killed _ (Spawned.handle Extracted extract timeout c ev) = Spawned.killed _ c /\
  Spawned.settled _ (Spawned.handle Extracted extract timeout c ev) = Spawned.settled _ c.
Proof.
  intros Hr Ht. destruct ev; simpl; rewrite ?Hr, ?Ht; simpl; repeat split; assumption.
Qed.

Lemma fold_settled (events : list Spawned.ChildEvent) (c : Spawned.Child Extracted) :
  Spawned.isResolved _ c = true -> Spawned.timeoutId _ c = false ->
  Spawned.killed _ (fold_left (Spawned.handle Extracted extract timeout) events c)
  = Spawned.killed _ c /\
  Spawned.settled _ (fold_left (Spawned.handle Extracted extract timeout) events c)
  = Spawned.settled _ c.
Proof.
  revert c. induction events as [|ev events IH]; intros c Hr Ht; [split; reflexivity|].
  simpl fold_left. destruct (handle_settled c ev Hr Ht) as (Hr' & Ht' & Hk & Hs).
  destruct (IH _ Hr' Ht') as [-> ->]. split; assumption.
Qed.

End SpawnedFacts.

(** X28. The promise of [executeJavaScriptFile] is settled at most once,
    whatever the child process and the timer do and in whatever order:
    [isResolved] is set exactly when [resolve] or [reject] has been called,
    and then the timer is no longer armed (it was cleared, or it fired), so
    that, other than in the direct execution, no timer is left behind. The
    process is killed only by the timer, once, and only when nothing has
    settled the promise before. What the process writes is collected to the
    end, but the promise is settled by the first event that is not output:
    an exit code 0 resolves it, with [success: true] and a response made
    from what was written up to then; another exit code, or none, rejects
    it with 'Script failed with exit code ...' and the error output (else
    the output, else 'No output'); an error of the process rejects it with
    that error; the timer rejects it with 'Script execution timeout after
    ...ms'. Output alone settles nothing. *)
Theorem X28_a_spawned_execution_settles_once
    (Extracted : Type) (extract : string -> Extracted) (timeout : Z)
    (events : list Spawned.ChildEvent) :
  let c := Spawned.run Extracted extract timeout events in
  (length (Spawned.settled _ c) <= 1)%nat /\
  (Spawned.isResolved _ c = true <-> Spawned.settled _ c <> []) /\
  (Spawned.isResolved _ c = true -> Spawned.timeoutId _ c = false) /\
  (Spawned.killed _ c = [] \/
   Spawned.killed _ c = ["SIGTERM"] /\
   Spawned.settled _ c = [Spawned.reject _ (Spawned.timeout_error timeout)]) /\
  Spawned.stdout _ c = Spawned.written_out events /\
  Spawned.stderr _ c = Spawned.written_err events /\
  (forallb Spawned.is_data events = true ->
   Spawned.settled _ c = [] /\ Spawned.timeoutId _ c = true) /\
  (forall before ev after,
      events = before ++ ev :: after ->
      forallb Spawned.is_data before = true ->
      Spawned.is_data ev = false ->
      let out := Spawned.written_out before in
      let err := Spawned.written_err before in
      Spawned.settled _ c
      = [match ev with
         | Spawned.close (Some 0) => Spawned.resolve _ (Spawned.response _ extract out err)
         | Spawned.close code => Spawned.reject _ (Spawned.exit_error code out err)
         | Spawned.error message => Spawned.reject _ (ErrorObj message)
         | _ => Spawned.reject _ (Spawned.timeout_error timeout)
         end]).
Proof.
  intros c. subst c. unfold Spawned.run.
  pose proof (coherent_fold Extracted extract timeout events _
                (coherent_spawned Extracted timeout)) as Hc.
  destruct (fold_written Extracted extract timeout events (Spawned.spawned Extracted))
    as [Ho He].
  split; [|split; [|split; [|split; [|split; [|split; [|split]]]]]].
  - destruct Hc as [(_ & _ & _ & ->)|(_ & _ & s & -> & _)]; simpl; lia.
  - destruct Hc as [(Hr & _ & _ & Hs)|(Hr & _ & s & Hs & _)]; rewrite Hr, Hs; split;
      congruence.
  - destruct Hc as [(Hr & _)|(_ & Ht & _)]; [rewrite Hr; discriminate|intros _; exact Ht].
  - destruct Hc as [(_ & _ & Hk & _)|(_ & _ & s & Hs & [Hk|[Hk ->]])];
      [left; exact Hk|left; exact Hk|right; split; assumption].
  - exact Ho.
  - exact He.
  - intros Hd.
    destruct (fold_data Extracted extract timeout events (Spawned.spawned Extracted) Hd)
      as (_ & Ht & _ & Hs).
    split; assumption.
  - intros before ev after -> Hd Hev.
    set (out := Spawned.written_out before). set (err := Spawned.written_err before).
    rewrite fold_left_app. simpl fold_left.
    set (c1 := fold_left _ before _).
    destruct (fold_data Extracted extract timeout before (Spawned.spawned Extracted) Hd)
      as (Hr1 & Ht1 & Hk1 & Hs1). fold c1 in Hr1, Ht1, Hk1, Hs1.
    destruct (fold_written Extracted extract timeout before (Spawned.spawned Extracted))
      as [Ho1 He1]. fold c1 in Ho1, He1.
    change (Spawned.stdout _ c1 = out) in Ho1. change (Spawned.stderr _ c1 = err) in He1.
    simpl in Hr1, Ht1, Hs1.
    assert (Hstep : Spawned.isResolved _ (Spawned.handle _ extract timeout c1 ev) = true /\
                    Spawned.timeoutId _ (Spawned.handle _ extract timeout c1 ev) = false /\
                    Spawned.settled _ (Spawned.handle _ extract timeout c1 ev)
                    = [match ev with
                       | Spawned.close (Some 0) =>
                           Spawned.resolve _ (Spawned.response _ extract out err)
                       | Spawned.close code =>
                           Spawned.reject _ (Spawned.exit_error code out err)
                       | Spawned.error message => Spawned.reject _ (ErrorObj message)
                       | _ => Spawned.reject _ (Spawned.timeout_error timeout)
                       end]).
    { destruct ev as [?|?|code|message|]; try discriminate; simpl;
        rewrite ?Hr1, ?Ht1; simpl; rewrite Hs1, ?Ho1, ?He1; repeat split. }
    destruct Hstep as (Hr2 & Ht2 & Hs2).
    destruct (fold_settled Extracted extract timeout after _ Hr2 Ht2) as [_ ->].
    exact Hs2.
Qed.

(** ** The command line of a spawned script *)

Lemma value_falsy (v : Value) :
  value_truthy (Some v) = false ->
  v = text "" \/ v = number 0 \/ exists printed, v = other false printed.
Proof.
  destruct v as [[|a s]|n|[|] printed]; simpl; intros H; try discriminate.
  - left. reflexivity.
  - right. left. destruct n; try discriminate. reflexivity.
  - right. right. exists printed. reflexivity.
Qed.

(** A read of the request after a field was set, and after it was removed. *)
Ltac settle_reads :=
  repeat match goal with
  | |- context [<[?k := ?v]> ?P !! ?lit] =>
      first
        [ rewrite (lookup_insert_ne P k lit v) by congruence
        | destruct (decide (k = lit)) as [->|?];
          [ rewrite (lookup_insert_eq P lit v)
          | rewrite (lookup_insert_ne P k lit v) by assumption ] ]
  | |- context [delete ?k ?P !! ?lit] =>
      first
        [ rewrite (lookup_delete_ne P k lit) by congruence
        | rewrite (lookup_delete_eq P lit) ]
  end.

(** X29. The arguments that [prepareScriptArgs] gives a spawned script, for
    every tool name (known, unknown or absent) and every request: there are
    between one and five of them; a field of the request that is falsy (0,
    the empty string, [false], [null]) counts as absent, so that no
    threshold of 0 can be asked for; fields other than the fifteen that the function reads change
    nothing, among them an [actusUrl]: for the risk tools the URL argument
    is the one of the server's environment, else the built-in one; and for
    the tools that are not risk or supply-chain tools (GLEIF, Corporate
    Registration, EXIM, and every unknown name) the last argument is
    'TESTNET', which is the only argument when the request names no
    company. *)
Theorem X29_what_the_command_line_holds
    (ACTUS_SERVER_URL : option string) (parameters : gmap string Value)
    (toolName : option string) :
  let args := prepareScriptArgs ACTUS_SERVER_URL parameters toolName in
  let actusUrl :=
    default "http://3.88.158.37:8083/eventsBatch" (js_or ACTUS_SERVER_URL None) in
  (1 <= length args <= 5)%nat /\
  (forall key v,
      value_truthy (Some v) = false ->
      prepareScriptArgs ACTUS_SERVER_URL (<[key := v]> parameters) toolName
      = prepareScriptArgs ACTUS_SERVER_URL (delete key parameters) toolName) /\
  (forall key v,
      key ∉ ["companyName"; "legalName"; "entityName"; "cin"; "liquidityThreshold";
             "configFilePath"; "executionMode"; "lcrThreshold"; "nsfrThreshold";
             "threshold"; "jurisdiction"; "processType"; "expectedProcessFile";
             "actualProcessFile"; "filePath"] ->
      prepareScriptArgs ACTUS_SERVER_URL (<[key := v]> parameters) toolName = args) /\
  (toolName ∈ [Some "get-RiskLiquidityAdvancedOptimMerkle-verification-with-sign";
               Some "get-StablecoinProofOfReservesRisk-verification-with-sign";
               Some "get-RiskLiquidityACTUS-Verifier-Test_adv_zk";
               Some "get-RiskLiquidityACTUS-Verifier-Test_Basel3_Withsign"] ->
   args !! 1%nat = Some actusUrl) /\
  (toolName = Some "get-RiskLiquidityBasel3Optim-Merkle-verification-with-sign" ->
   args !! 2%nat = Some actusUrl) /\
  (toolName ∉ [Some "get-RiskLiquidityAdvancedOptimMerkle-verification-with-sign";
               Some "get-RiskLiquidityBasel3Optim-Merkle-verification-with-sign";
               Some "get-StablecoinProofOfReservesRisk-verification-with-sign";
               Some "get-BPI-compliance-verification";
               Some "get-BSDI-compliance-verification";
               Some "get-RiskLiquidityACTUS-Verifier-Test_adv_zk";
               Some "get-RiskLiquidityACTUS-Verifier-Test_Basel3_Withsign"] ->
   last args = Some "TESTNET" /\ (length args <= 2)%nat /\
   (value_truthy (parameters !! "companyName") = false ->
    value_truthy (parameters !! "legalName") = false ->
    value_truthy (parameters !! "entityName") = false ->
    value_truthy (parameters !! "cin") = false ->
    toolName <> Some "get-GLEIF-verification-with-sign" ->
    args = ["TESTNET"])).
Proof.
  intros args actusUrl. subst args actusUrl.
  split; [|split; [|split; [|split; [|split]]]].
  - unfold prepareScriptArgs. cbv zeta.
    repeat case_bool_decide; simpl orb; cbv iota; repeat case_match; simpl; lia.
  - intros key v Hv. unfold prepareScriptArgs. cbv zeta.
    destruct (value_falsy v Hv) as [-> | [-> | [printed ->]]];
      repeat case_bool_decide; simpl orb; cbv iota; settle_reads; try reflexivity;
      unfold value_or; simpl value_truthy;
      destruct (value_truthy (parameters !! "companyName")),
               (value_truthy (parameters !! "legalName")),
               (value_truthy (parameters !! "entityName")); reflexivity.
  - intros key v Hkey. rewrite !not_elem_of_cons in Hkey. destruct_and!.
    unfold prepareScriptArgs. cbv zeta.
    repeat case_bool_decide; simpl orb; cbv iota;
      rewrite ?lookup_insert_ne by congruence; reflexivity.
  - intros Hin. rewrite !elem_of_cons in Hin.
    destruct Hin as [->|[->|[->|[->|Hin]]]]; [reflexivity..|].
    apply elem_of_nil in Hin. destruct Hin.
  - intros ->. reflexivity.
  - intros Hnot. rewrite !not_elem_of_cons in Hnot. destruct_and!.
    unfold prepareScriptArgs. cbv zeta.
    repeat case_bool_decide; try congruence; simpl orb; cbv iota;
      (split; [repeat case_match; reflexivity|];
       split; [repeat case_match; simpl; lia|];
       intros Hc Hl He Hcin Hg; try congruence;
       unfold value_or; do 3 (rewrite ?Hc, ?Hl, ?He, ?Hcin; cbv iota);
       repeat case_match; try reflexivity; congruence).
Qed.
